(** * Trulia scraper: extraction, pagination and deduplication pipeline

    A shallow embedding of [src/main.js] (the actor that is run) and of the
    two helpers [extractFromHtml] and [findNextPage] of the older top-level
    [main.js], followed by the properties of the specification stated over
    that embedding.

    JavaScript values are embedded as a small tree type, exceptions as an
    error monad, the process-wide [saved] counter and [seenUrls] set as an
    explicit state record threaded through the page handler. *)

From Stdlib Require Import List String Ascii Bool Arith PeanoNat ZArith QArith Lia.
From Stdlib Require Import DecimalString.
Import ListNotations.

Set Warnings "-register-all".

Close Scope Q_scope.
Open Scope nat_scope.
Open Scope string_scope.
Open Scope list_scope.

(* ================================================================== *)
(** ** JavaScript values *)
(* ================================================================== *)

(** A JavaScript number: a finite double is read as the rational it denotes.
    The program only compares numbers, takes [Math.max] and tests them for
    truthiness; none of these rounds. *)
Inductive Num : Type :=
| Fin (q : Q)
| NaN
| PosInf
| NegInf.

(** The values a parsed JSON document and the actor input can hold, plus
    [Undefined] for what a missing property reads as.  An [Obj] lists its own
    properties in insertion order. *)
Inductive Val : Type :=
| Undefined
| Null
| Bool (b : bool)
| Number (n : Num)
| Str (s : string)
| Arr (items : list Val)
| Obj (props : list (string * Val)).

Inductive Exn : Type :=
| TypeError
| SyntaxError
| URIError
| Error (message : string).

(** Result of evaluating an expression or a call that may throw. *)
Inductive Outcome (A : Type) : Type :=
| Ret (a : A)
| Throw (e : Exn).

Arguments Ret {A} a.
Arguments Throw {A} e.

Definition bind {A B : Type} (m : Outcome A) (k : A -> Outcome B) : Outcome B :=
  match m with
  | Ret a => k a
  | Throw e => Throw e
  end.

Notation "x <- m ;; k" := (bind m (fun x => k))
  (at level 61, m at next level, right associativity).

(** [try { body } catch (e) { handler }] *)
Definition try_catch {A : Type} (body : Outcome A) (handler : Exn -> Outcome A)
  : Outcome A :=
  match body with
  | Ret a => Ret a
  | Throw e => handler e
  end.

Definition isEmptyString (s : string) : bool :=
  match s with
  | EmptyString => true
  | String _ _ => false
  end.

Definition num_truthy (n : Num) : bool :=
  match n with
  | Fin q => negb (Qeq_bool q 0)
  | NaN => false
  | PosInf | NegInf => true
  end.

(** ToBoolean *)
Definition truthy (v : Val) : bool :=
  match v with
  | Undefined | Null => false
  | Bool b => b
  | Number n => num_truthy n
  | Str s => negb (isEmptyString s)
  | Arr _ | Obj _ => true
  end.

Definition nullish (v : Val) : bool :=
  match v with
  | Undefined | Null => true
  | _ => false
  end.

(** [a || b] on values already evaluated. *)
Definition or_val (a b : Val) : Val := if truthy a then a else b.

Notation "a ||| b" := (or_val a b) (at level 50, left associativity).

Fixpoint lookup (k : string) (props : list (string * Val)) : Val :=
  match props with
  | [] => Undefined
  | (k', v) :: rest => if String.eqb k k' then v else lookup k rest
  end.

(** [v?.k]: undefined on null and undefined, otherwise the own property [k].
    None of the property names this program reads as data is defined on a
    built-in prototype, so on a string, number, boolean or array the read is
    undefined. *)
Definition oget (v : Val) (k : string) : Val :=
  match v with
  | Obj props => lookup k props
  | _ => Undefined
  end.

(** [v.k]: a TypeError on null and undefined. *)
Definition get (v : Val) (k : string) : Outcome Val :=
  if nullish v then Throw TypeError else Ret (oget v k).

(** [v?.[0]] *)
Definition oget0 (v : Val) : Val :=
  match v with
  | Arr (x :: _) => x
  | Str (String c _) => Str (String c EmptyString)
  | Obj props => lookup "0" props
  | _ => Undefined
  end.

Definition isArray (v : Val) : bool :=
  match v with
  | Arr _ => true
  | _ => false
  end.

(** [v === s] for a string literal [s]. *)
Definition strict_eq_str (v : Val) (s : string) : bool :=
  match v with
  | Str s' => String.eqb s' s
  | _ => false
  end.

(** [hay.includes(needle)] on strings. *)
Fixpoint includes (needle hay : string) : bool :=
  if String.prefix needle hay then true
  else match hay with
       | EmptyString => false
       | String _ rest => includes needle rest
       end.

Definition startsWith (pre s : string) : bool := String.prefix pre s.

Fixpoint endsWithSlash (s : string) : bool :=
  match s with
  | EmptyString => false
  | String c EmptyString => Ascii.eqb c "/"
  | String _ rest => endsWithSlash rest
  end.

(** Decimal rendering of a non-negative integer, as a template literal
    prints it. *)
Definition decimal (n : nat) : string :=
  NilZero.string_of_uint (Nat.to_uint n).

(* ================================================================== *)
(** ** Built-ins taken from the JavaScript runtime *)
(* ================================================================== *)

(** A parsed URL: [href] is [prefix ++ pathname ++ suffix], with [prefix] the
    scheme and authority and [suffix] the query and fragment. *)
Record URL : Type := mkURL {
  url_prefix : string;
  pathname : string;
  url_suffix : string
}.

Definition href (u : URL) : string :=
  url_prefix u ++ pathname u ++ url_suffix u.

(** The URL after [u.pathname = p] when the assignment takes effect and
    stores [p] as it is: only the path changes. *)
Definition set_pathname (u : URL) (p : string) : URL :=
  {| url_prefix := url_prefix u; pathname := p; url_suffix := url_suffix u |}.

(** What the program calls but does not define.  Every theorem below holds
    for any runtime. *)
Class JsRuntime : Type := {
  (** [v.toString()] on a value that is neither null nor undefined *)
  call_toString : Val -> Outcome string;
  (** [v.toLocaleString()] on such a value *)
  call_toLocaleString : Val -> Outcome string;
  (** [s.replace(/\s*Beds?/i, '')] *)
  replace_Beds : string -> string;
  (** [s.replace(/\s*Baths?/i, '')] *)
  replace_Baths : string -> string;
  (** [s.replace(/\s*sqft/i, '')] *)
  replace_sqft : string -> string;
  (** [new URL(s)]: [None] when it throws *)
  URL_parse : string -> option URL;
  (** [new URL(rel, base).href]: [None] when it throws *)
  URL_resolve : string -> string -> option string;
  (** [u.pathname = p]: the URL after the assignment, which never throws.
      On a URL with an opaque path ([mailto:], [data:]) the assignment does
      nothing; on the others the new path is parsed before it is stored. *)
  URL_set_pathname : URL -> string -> URL;
  (** [+s] on a string *)
  string_toNumber : string -> Num;
  (** [+v] on an array or object; ToPrimitive can throw *)
  object_toNumber : Val -> Outcome Num
}.

(* ================================================================== *)
(** ** Input limits (main.js, lines 12-23) *)
(* ================================================================== *)

Definition isFinite (n : Num) : bool :=
  match n with
  | Fin _ => true
  | _ => false
  end.

(** [Math.max(a, b)] *)
Definition Math_max (a b : Num) : Num :=
  match a, b with
  | NaN, _ | _, NaN => NaN
  | PosInf, _ | _, PosInf => PosInf
  | NegInf, x | x, NegInf => x
  | Fin x, Fin y => if Qle_bool x y then Fin y else Fin x
  end.

Section Limits.
Context {RT : JsRuntime}.

(** Unary plus. *)
Definition toNumber (v : Val) : Outcome Num :=
  match v with
  | Undefined => Ret NaN
  | Null => Ret (Fin 0)
  | Bool true => Ret (Fin 1)
  | Bool false => Ret (Fin 0)
  | Number n => Ret n
  | Str s => Ret (string_toNumber s)
  | Arr _ | Obj _ => object_toNumber v
  end.

(** [const input = (await Actor.getInput()) || {}] *)
Definition actorInput (got : Val) : Val := if truthy got then got else Obj [].

(** A destructured property with a default: the default applies when the
    property reads as undefined. *)
Definition destructure (input : Val) (k : string) (dflt : Val) : Val :=
  match oget input k with
  | Undefined => dflt
  | v => v
  end.

(** [Number.isFinite(+RAW) ? Math.max(1, +RAW) : dflt] *)
Definition clampLimit (raw : Val) (dflt : Num) : Outcome Num :=
  n <- toNumber raw ;;
  if isFinite n then
    n' <- toNumber raw ;;
    Ret (Math_max (Fin 1) n')
  else Ret dflt.

Definition RESULTS_WANTED (got : Val) : Outcome Num :=
  clampLimit (destructure (actorInput got) "results_wanted" (Number (Fin 20)))
             (Fin 20).

Definition MAX_PAGES (got : Val) : Outcome Num :=
  clampLimit (destructure (actorInput got) "max_pages" (Number (Fin 5)))
             (Fin 5).
End Limits.

(* ================================================================== *)
(** ** The fetched page *)
(* ================================================================== *)

(** What [JSON.parse] makes of a script element's text. *)
Inductive Parsed : Type :=
| Malformed
| Json (json : Val).

Definition JSON_parse (p : Parsed) : Outcome Val :=
  match p with
  | Malformed => Throw SyntaxError
  | Json v => Ret v
  end.

(** The page as the handler reads it through cheerio:
    - [title_text] is [$('title').text()];
    - [nextDataScript] is [None] when [$('script#__NEXT_DATA__')] matches no
      element, and otherwise the parse of the matched text;
    - [ldJsonScripts] holds one entry per
      [script[type="application/ld+json"]] element, in document order. *)
Record Page : Type := mkPage {
  title_text : string;
  nextDataScript : option Parsed;
  ldJsonScripts : list Parsed
}.

(** A listing is the object literal an extraction strategy builds: its
    properties in the order written. *)
Definition Listing : Type := list (string * Val).

Definition keys (l : Listing) : list string := map fst l.

Fixpoint mapM {A B : Type} (f : A -> Outcome B) (l : list A) : Outcome (list B) :=
  match l with
  | [] => Ret []
  | x :: rest =>
      y <- f x ;;
      ys <- mapM f rest ;;
      Ret (y :: ys)
  end.

(** [s.replace(/,/g, '')] *)
Fixpoint removeCommas (s : string) : string :=
  match s with
  | EmptyString => EmptyString
  | String c rest =>
      if Ascii.eqb c "," then removeCommas rest else String c (removeCommas rest)
  end.

(* ================================================================== *)
(** ** Strategy A: [extractFromNextData] (main.js, lines 60-130) *)
(* ================================================================== *)

Section NextData.
Context {RT : JsRuntime}.

(** [v?.replace(re, '')] with [f] the effect of the replacement on a string:
    only a string has a callable [replace]. *)
Definition replaceCall (f : string -> string) (v : Val) : Outcome Val :=
  match v with
  | Undefined | Null => Ret Undefined
  | Str s => Ret (Str (f s))
  | _ => Throw TypeError
  end.

(** [v?.toString()] *)
Definition toStringCall (v : Val) : Outcome Val :=
  if nullish v then Ret Undefined
  else s <- call_toString v ;; Ret (Str s).

Definition field_price (home : Val) : Outcome Val :=
  price <- get home "price" ;;
  let formatted := oget price "formattedPrice" in
  if truthy formatted then Ret formatted
  else if truthy (oget price "price") then
    s <- call_toLocaleString (oget price "price") ;;
    Ret (Str ("$" ++ s))
  else Ret Null.

Definition field_beds (home : Val) : Outcome Val :=
  bedrooms <- get home "bedrooms" ;;
  a <- replaceCall replace_Beds (oget bedrooms "formattedValue") ;;
  if truthy a then Ret a
  else
    b <- toStringCall (oget bedrooms "value") ;;
    Ret (b ||| Null).

Definition field_baths (home : Val) : Outcome Val :=
  bathrooms <- get home "bathrooms" ;;
  a <- replaceCall replace_Baths (oget bathrooms "formattedValue") ;;
  if truthy a then Ret a
  else
    b <- toStringCall (oget bathrooms "value") ;;
    Ret (b ||| Null).

Definition field_sqft (home : Val) : Outcome Val :=
  floorSpace <- get home "floorSpace" ;;
  a <- replaceCall (fun s => removeCommas (replace_sqft s))
                   (oget floorSpace "formattedDimension") ;;
  if truthy a then Ret a
  else
    b <- toStringCall (oget floorSpace "value") ;;
    Ret (b ||| Null).

Definition field_lot_size (home : Val) : Outcome Val :=
  lotSize <- get home "lotSize" ;;
  Ret (oget lotSize "formattedDimension" ||| Null).

Definition field_address (home : Val) : Outcome Val :=
  location <- get home "location" ;;
  Ret (oget location "streetAddress" ||| oget location "formattedStreetLine" ||| Null).

(** [home.location?.k || null] *)
Definition field_location (k : string) (home : Val) : Outcome Val :=
  location <- get home "location" ;;
  Ret (oget location k ||| Null).

Definition field_coordinate (k : string) (home : Val) : Outcome Val :=
  location <- get home "location" ;;
  Ret (oget (oget location "coordinates") k ||| Null).

Definition field_property_type (home : Val) : Outcome Val :=
  propertyType <- get home "propertyType" ;;
  Ret (oget propertyType "value" ||| oget propertyType "formattedValue" ||| Null).

Definition field_listing_by (home : Val) : Outcome Val :=
  activeListing <- get home "activeListing" ;;
  let broker := oget (oget (oget activeListing "provider") "broker") "name" in
  if truthy broker then Ret broker
  else
    attribution <- get home "attribution" ;;
    Ret (oget attribution "listingAgent" ||| Null).

Definition field_description (home : Val) : Outcome Val :=
  description <- get home "description" ;;
  Ret (oget description "value" ||| Null).

Definition field_image_url (home : Val) : Outcome Val :=
  media <- get home "media" ;;
  let hero := oget (oget (oget media "heroImage") "url") "medium" in
  if truthy hero then Ret hero
  else
    media' <- get home "media" ;;
    Ret (oget (oget (oget0 (oget media' "photos")) "url") "medium" ||| Null).

(** [home.url ? `https://www.trulia.com${home.url.startsWith('/') ? '' : '/'}${home.url}` : null]:
    of the truthy values only a string has a callable [startsWith]. *)
Definition field_url (home : Val) : Outcome Val :=
  u <- get home "url" ;;
  if truthy u then
    match u with
    | Str s =>
        Ret (Str ("https://www.trulia.com"
                  ++ (if startsWith "/" s then EmptyString else "/") ++ s))
    | _ => Throw TypeError
    end
  else Ret Null.

(** The callback of [homes.map]. *)
Definition mapHome (home : Val) : Outcome Listing :=
  price <- field_price home ;;
  beds <- field_beds home ;;
  baths <- field_baths home ;;
  sqft <- field_sqft home ;;
  lot_size <- field_lot_size home ;;
  address <- field_address home ;;
  city <- field_location "city" home ;;
  state <- field_location "stateCode" home ;;
  zip_code <- field_location "zipCode" home ;;
  full_address <- field_location "fullLocation" home ;;
  latitude <- field_coordinate "latitude" home ;;
  longitude <- field_coordinate "longitude" home ;;
  property_type <- field_property_type home ;;
  listing_by <- field_listing_by home ;;
  description <- field_description home ;;
  image_url <- field_image_url home ;;
  url <- field_url home ;;
  Ret [ ("price", price); ("beds", beds); ("baths", baths); ("sqft", sqft);
        ("lot_size", lot_size); ("address", address); ("city", city);
        ("state", state); ("zip_code", zip_code);
        ("full_address", full_address); ("latitude", latitude);
        ("longitude", longitude); ("property_type", property_type);
        ("listing_by", listing_by); ("description", description);
        ("image_url", image_url); ("url", url) ].

(** The body of the [try] block; [None] is the JavaScript [null]. *)
Definition extractFromNextData_body (pg : Page) : Outcome (option (list Listing)) :=
  match nextDataScript pg with
  | None => Ret None
  | Some script =>
      json <- JSON_parse script ;;
      let props := oget json "props" in
      let searchData :=
        oget props "searchData" ||| oget (oget props "pageProps") "searchData" in
      if negb (truthy searchData) then Ret None
      else
        homes <- get searchData "homes" ;;
        match homes with
        | Arr hs => listings <- mapM mapHome hs ;; Ret (Some listings)
        | _ => Ret None
        end
  end.

Definition extractFromNextData (pg : Page) : Outcome (option (list Listing)) :=
  try_catch (extractFromNextData_body pg) (fun _ => Ret None).

End NextData.

(* ================================================================== *)
(** ** Strategy B: [extractFromJsonLd] (main.js, lines 135-164) *)
(* ================================================================== *)

(** [t?.includes?.('RealEstateListing')]: a substring test on a string, a
    membership test on an array; a number or boolean has no [includes]; an
    object has it only as an own property, which is never callable. *)
Definition includesCall (t : Val) : Outcome Val :=
  match t with
  | Str s => Ret (Bool (includes "RealEstateListing" s))
  | Arr items =>
      Ret (Bool (existsb (fun x => strict_eq_str x "RealEstateListing") items))
  | Obj props =>
      if nullish (lookup "includes" props) then Ret Undefined
      else Throw TypeError
  | _ => Ret Undefined
  end.

(** The condition of the [if] inside the loop over items. *)
Definition isListingItem (item : Val) : Outcome bool :=
  t <- get item "@type" ;;
  if strict_eq_str t "RealEstateListing" then Ret true
  else if strict_eq_str t "Product" then Ret true
  else r <- includesCall t ;; Ret (truthy r).

(** The object literal pushed for a matching item. *)
Definition jsonLdRecord (item : Val) : Listing :=
  [ ("price", oget (oget item "offers") "price" ||| oget item "price" ||| Null);
    ("address", oget (oget item "address") "streetAddress" ||| oget item "name" ||| Null);
    ("city", oget (oget item "address") "addressLocality" ||| Null);
    ("state", oget (oget item "address") "addressRegion" ||| Null);
    ("zip_code", oget (oget item "address") "postalCode" ||| Null);
    ("url", oget item "url" ||| Null);
    ("image_url", oget item "image" ||| Null) ].

(** [for (const item of items)]: returns the [listings] array as the loop
    leaves it, and the exception that ended it early if any. *)
Fixpoint forItems (items : list Val) (listings : list Listing)
  : list Listing * Outcome unit :=
  match items with
  | [] => (listings, Ret tt)
  | item :: rest =>
      match isListingItem item with
      | Throw e => (listings, Throw e)
      | Ret true => forItems rest (listings ++ [jsonLdRecord item])
      | Ret false => forItems rest listings
      end
  end.

(** The callback of [.each]: one script element, with its own
    [try]/[catch] that ignores the exception. *)
Definition eachLdScript (listings : list Listing) (el : Parsed) : list Listing :=
  match JSON_parse el with
  | Throw _ => listings
  | Ret json =>
      let items := match json with Arr l => l | _ => [json] end in
      fst (forItems items listings)
  end.

Definition extractFromJsonLd (pg : Page) : option (list Listing) :=
  let listings := fold_left eachLdScript (ldJsonScripts pg) [] in
  if (0 <? List.length listings)%nat then Some listings else None.

(* ================================================================== *)
(** ** [buildNextPageUrl] (main.js, lines 170-188) *)
(* ================================================================== *)

Definition isDigit (c : ascii) : bool :=
  let n := nat_of_ascii c in (48 <=? n)%nat && (n <=? 57)%nat.

(** The longest run of digits at the head of a character list, and the rest. *)
Fixpoint spanDigits (l : list ascii) : list ascii * list ascii :=
  match l with
  | c :: rest =>
      if isDigit c then
        let (ds, tl) := spanDigits rest in (c :: ds, tl)
      else ([], l)
  | [] => ([], [])
  end.

(** [path.replace(/\/\d+_p\/?$/, '/')], read from the end of the path: an
    optional slash, then [_p], then one or more digits, then a slash. *)
Definition stripPageSegment (path : string) : string :=
  let r := rev (list_ascii_of_string path) in
  let r1 := match r with
            | c :: t => if Ascii.eqb c "/" then t else r
            | [] => r
            end in
  match r1 with
  | p :: u :: t =>
      if Ascii.eqb p "p" && Ascii.eqb u "_" then
        match spanDigits t with
        | (_ :: _, s :: before) =>
            if Ascii.eqb s "/" then string_of_list_ascii (rev (s :: before))
            else path
        | _ => path
        end
      else path
  | _ => path
  end.

Section Pagination.
Context {RT : JsRuntime}.

(** [new URL(s)] *)
Definition newURL (s : string) : Outcome URL :=
  match URL_parse s with
  | Some u => Ret u
  | None => Throw TypeError
  end.

Definition buildNextPageUrl_body (currentUrl : string) (currentPage : nat)
  : Outcome (option string) :=
  url <- newURL currentUrl ;;
  let nextPage := currentPage + 1 in
  let path := stripPageSegment (pathname url) in
  let path := if endsWithSlash path then path else (path ++ "/")%string in
  let path := (path ++ decimal nextPage ++ "_p/")%string in
  Ret (Some (href (URL_set_pathname url path))).

(** [None] is the JavaScript [null]. *)
Definition buildNextPageUrl (currentUrl : string) (currentPage : nat)
  : Outcome (option string) :=
  try_catch (buildNextPageUrl_body currentUrl currentPage) (fun _ => Ret None).

End Pagination.

(* ================================================================== *)
(** ** Crawl state and the page handler (main.js, lines 52-53, 239-305) *)
(* ================================================================== *)

Definition num_same (a b : Num) : bool :=
  match a, b with
  | Fin x, Fin y => Qeq_bool x y
  | NaN, NaN | PosInf, PosInf | NegInf, NegInf => true
  | _, _ => false
  end.

(** SameValueZero, the equality of [Set].  Arrays and objects are compared
    by reference, and every array or object value here is a distinct node of
    a parsed document, so two of them are never the same. *)
Definition sameValueZero (a b : Val) : bool :=
  match a, b with
  | Undefined, Undefined | Null, Null => true
  | Bool x, Bool y => Bool.eqb x y
  | Number x, Number y => num_same x y
  | Str x, Str y => String.eqb x y
  | _, _ => false
  end.

(** [seenUrls.has(k)] on the set's elements in insertion order. *)
Definition has (k : Val) (set : list Val) : bool :=
  existsb (sameValueZero k) set.

(** [seenUrls.add(k)] *)
Definition add (k : Val) (set : list Val) : list Val :=
  if has k set then set else set ++ [k].

(** Calls made to the crawling substrate and to the dataset. *)
Inductive Call : Type :=
| Retire
| SetValue (pageNo : nat)
| PushData (batch : list Listing)
| EnqueueLinks (url : string) (pageNo : nat).

(** [saved] and [seenUrls] are the two variables shared by all handler
    invocations; [calls] records the collaborator calls made so far. *)
Record CrawlState : Type := mkState {
  saved : nat;
  seenUrls : list Val;
  calls : list Call
}.

Definition initialState : CrawlState :=
  {| saved := 0; seenUrls := []; calls := [] |}.

Definition call (c : Call) (st : CrawlState) : CrawlState :=
  {| saved := saved st; seenUrls := seenUrls st; calls := calls st ++ [c] |}.

(** [n >= x] for the counter [n]. *)
Definition nat_ge (n : nat) (x : Num) : bool :=
  match x with
  | Fin q => Qle_bool q (inject_Z (Z.of_nat n))
  | NegInf => true
  | NaN | PosInf => false
  end.

(** [n < x] for the counter [n]. *)
Definition nat_lt (n : nat) (x : Num) : bool :=
  match x with
  | Fin q => negb (Qle_bool q (inject_Z (Z.of_nat n)))
  | PosInf => true
  | NaN | NegInf => false
  end.

Record Request : Type := mkRequest {
  url : string;
  userData_pageNo : option nat
}.

(** [request.userData?.pageNo || 1] *)
Definition pageNoOf (request : Request) : nat :=
  match userData_pageNo request with
  | Some (S n) => S n
  | _ => 1
  end.

(** [listing.url || listing.full_address || listing.address] *)
Definition listingKey (listing : Listing) : Val :=
  lookup "url" listing ||| lookup "full_address" listing ||| lookup "address" listing.

Definition blocked (title : string) : bool :=
  includes "Access Denied" title || includes "Captcha" title
  || includes "Robot" title.

Definition nonEmpty {A : Type} (l : option (list A)) : bool :=
  match l with
  | Some (_ :: _) => true
  | _ => false
  end.

Definition orEmpty {A : Type} (l : option (list A)) : list A :=
  match l with
  | Some l' => l'
  | None => []
  end.

Section Handler.
Context {RT : JsRuntime}.

(** The two limits computed from the input before the crawler starts. *)
Variable RW : Num.
Variable MP : Num.

(** The [for] loop that deduplicates (lines 272-282). *)
Fixpoint dedupLoop (listings : list Listing) (st : CrawlState)
  (newListings : list Listing) : CrawlState * list Listing :=
  match listings with
  | [] => (st, newListings)
  | listing :: rest =>
      if nat_ge (saved st) RW then (st, newListings)
      else
        let key := listingKey listing in
        if truthy key && negb (has key (seenUrls st)) then
          dedupLoop rest
            {| saved := saved st + 1;
               seenUrls := add key (seenUrls st);
               calls := calls st |}
            (newListings ++ [listing])
        else dedupLoop rest st newListings
  end.

(** Lines 271-287: deduplicate, then push the batch if it is not empty. *)
Definition dedupAndSave (listings : list Listing) (st : CrawlState) : CrawlState :=
  let (st', newListings) := dedupLoop listings st [] in
  match newListings with
  | [] => st'
  | _ :: _ => call (PushData newListings) st'
  end.

(** Lines 251-269: the two strategies in priority order. *)
Definition extractListings (pageNo : nat) (pg : Page) (st : CrawlState)
  : Outcome (list Listing * CrawlState) :=
  listings <- extractFromNextData pg ;;
  if nonEmpty listings then Ret (orEmpty listings, st)
  else
    let listings := extractFromJsonLd pg in
    if nonEmpty listings then Ret (orEmpty listings, st)
    else Ret ([], call (SetValue pageNo) st).

(** Lines 240-287, up to the delay before pagination.  [session] tells
    whether the handler was given a session. *)
Definition handlePage (request : Request) (pg : Page) (session : bool)
  (st : CrawlState) : Outcome unit * CrawlState :=
  let pageNo := pageNoOf request in
  if blocked (title_text pg) then
    (Throw (Error "Blocked by anti-bot protection"),
     if session then call Retire st else st)
  else
    match extractListings pageNo pg st with
    | Throw e => (Throw e, st)
    | Ret (listings, st1) => (Ret tt, dedupAndSave listings st1)
    end.

(** Lines 293-304: pagination. *)
Definition paginate (request : Request) (st : CrawlState)
  : Outcome unit * CrawlState :=
  let pageNo := pageNoOf request in
  if nat_lt (saved st) RW && nat_lt pageNo MP then
    match buildNextPageUrl (url request) pageNo with
    | Throw e => (Throw e, st)
    | Ret None => (Ret tt, st)
    | Ret (Some nextUrl) =>
        if negb (isEmptyString nextUrl) && negb (has (Str nextUrl) (seenUrls st))
        then
          (Ret tt,
           call (EnqueueLinks nextUrl (pageNo + 1))
                {| saved := saved st;
                   seenUrls := add (Str nextUrl) (seenUrls st);
                   calls := calls st |})
        else (Ret tt, st)
    end
  else (Ret tt, st).

Definition requestHandler (request : Request) (pg : Page) (session : bool)
  (st : CrawlState) : Outcome unit * CrawlState :=
  match handlePage request pg session st with
  | (Ret tt, st1) => paginate request st1
  | (Throw e, st1) => (Throw e, st1)
  end.

(** The handler gives up control only at its [await]s, so what runs between
    two of them is not interleaved with another invocation.  The counter
    and the set are touched in two such pieces: the deduplication loop,
    which starts with the title test and the extraction (the [await] of
    [setValue] comes only when there is nothing to loop over) and ends with
    the call of [pushData]; and the pagination block after the delay.  A run
    of the crawl is a sequence of such pieces, in any order the crawler
    schedules them. *)
Inductive Piece : Type :=
| Handle (request : Request) (pg : Page) (session : bool)
| Paginate (request : Request).

Definition runPiece (st : CrawlState) (p : Piece) : CrawlState :=
  match p with
  | Handle request pg session => snd (handlePage request pg session st)
  | Paginate request => snd (paginate request st)
  end.

Definition run (pieces : list Piece) (st : CrawlState) : CrawlState :=
  fold_left runPiece pieces st.

End Handler.

(** [crawler.run([{ url: initialUrl, userData: { pageNo: 1 } }])] (line
    316): the requests the crawl starts from. *)
Definition startRequests (initialUrl : string) : list Request :=
  [ {| url := initialUrl; userData_pageNo := Some 1 |} ].

(** The listings handed to [Dataset.pushData], in order. *)
Fixpoint emitted (cs : list Call) : list Listing :=
  match cs with
  | [] => []
  | PushData batch :: rest => batch ++ emitted rest
  | _ :: rest => emitted rest
  end.

(** The requests handed to [enqueueLinks], in order. *)
Fixpoint enqueued (cs : list Call) : list (string * nat) :=
  match cs with
  | [] => []
  | EnqueueLinks u n :: rest => (u, n) :: enqueued rest
  | _ :: rest => enqueued rest
  end.

(* ================================================================== *)
(** ** The older top-level main.js: [findNextPage] and [extractFromHtml] *)
(* ================================================================== *)

(** [s.replace(pat, rep)] with a string pattern: the first occurrence. *)
Fixpoint replaceFirst (pat rep s : string) : string :=
  if String.prefix pat s then
    (rep ++ String.substring (String.length pat)
                             (String.length s - String.length pat) s)%string
  else match s with
       | EmptyString => EmptyString
       | String c rest => String c (replaceFirst pat rep rest)
       end.

(** [s.replace(/\/$/, '')] *)
Fixpoint dropTrailingSlash (s : string) : string :=
  match s with
  | EmptyString => EmptyString
  | String c rest =>
      if isEmptyString rest && Ascii.eqb c "/" then EmptyString
      else String c (dropTrailingSlash rest)
  end.

Definition ostr (o : option string) : Val :=
  match o with
  | Some s => Str s
  | None => Undefined
  end.

(** A property card as [extractFromHtml] reads it: the texts and attributes
    its selectors return and the groups its regular expressions capture.
    - [priceText], [priceMatch]: the trimmed price text and the match of
      [/\$[\d,]+\+?/] in it;
    - [bedsMatch], [bathsMatch], [sqftMatch], [lotMatch]: group 1 of the
      corresponding pattern;
    - [streetPart], [cityPart]: [addressParts[0]], and [addressParts[1]]
      after its [replace] and [trim];
    - [stateZipMatch]: groups 1 and 2 of the state and zip pattern;
    - [linkHref], [imgSrc], [imgDataSrc]: attributes, absent when [None];
    - [listingByText]: the attribution text after [replace] and [trim];
    - [typeBadge]: the result of [badges.find]. *)
Record Card : Type := mkCard {
  priceText : string;
  priceMatch : option string;
  bedsMatch : option string;
  bathsMatch : option string;
  sqftMatch : option string;
  lotMatch : option string;
  streetPart : string;
  cityPart : option string;
  stateZipMatch : option (string * option string);
  linkHref : option string;
  imgSrc : option string;
  imgDataSrc : option string;
  listingByText : string;
  typeBadge : option string
}.

Section Legacy.
Context {RT : JsRuntime}.

(** The second half of [findNextPage]: the page number in the URL. *)
Definition pageCounterUrl (currentUrl : string) (currentPage : nat)
  : Outcome (option string) :=
  urlObj <- newURL currentUrl ;;
  let nextPageNum := currentPage + 1 in
  if includes ("/" ++ decimal currentPage ++ "_p/") (pathname urlObj) then
    Ret (Some (replaceFirst ("/" ++ decimal currentPage ++ "_p/")
                            ("/" ++ decimal nextPageNum ++ "_p/") currentUrl))
  else if negb (includes "_p/" (pathname urlObj)) then
    let basePath := dropTrailingSlash (pathname urlObj) in
    Ret (Some (href (URL_set_pathname urlObj
                       (basePath ++ "/" ++ decimal nextPageNum ++ "_p/"))))
  else Ret None.

(** [nextLink] is [$('a[rel="next"], ...').attr('href')], the only use of
    the document; [None] is [undefined]. *)
Definition findNextPage (nextLink : option string) (currentUrl : string)
  (currentPage : nat) : Outcome (option string) :=
  match nextLink with
  | Some l =>
      if isEmptyString l then pageCounterUrl currentUrl currentPage
      else if startsWith "http" l then Ret (Some l)
      else match URL_resolve l currentUrl with
           | Some h => Ret (Some h)
           | None => Throw TypeError
           end
  | None => pageCounterUrl currentUrl currentPage
  end.

(** The body of the [try] block of one card: the listing pushed, if any. *)
Definition cardListing (baseUrl : string) (card : Card) : Outcome (option Listing) :=
  let price := ostr (priceMatch card) ||| Str (priceText card) ||| Null in
  let streetAddress := Str (streetPart card) ||| Null in
  let propertyUrl := ostr (linkHref card) ||| Null in
  propertyUrl <-
    (match propertyUrl with
     | Str u =>
         if truthy propertyUrl && negb (startsWith "http" u) then
           match URL_resolve u baseUrl with
           | Some h => Ret (Str h)
           | None => Throw TypeError
           end
         else Ret propertyUrl
     | _ => Ret propertyUrl
     end) ;;
  let imageUrl := ostr (imgSrc card) ||| ostr (imgDataSrc card) ||| Null in
  let listingBy := Str (listingByText card) ||| Null in
  let propertyType := ostr (typeBadge card) ||| Null in
  if truthy price || truthy streetAddress || truthy propertyUrl then
    Ret (Some
      [ ("price", price);
        ("beds", ostr (bedsMatch card) ||| Null);
        ("baths", ostr (bathsMatch card) ||| Null);
        ("sqft", ostr (option_map removeCommas (sqftMatch card)) ||| Null);
        ("lot_size", match lotMatch card with
                     | Some m => Str (m ++ " acres")
                     | None => Null
                     end);
        ("address", streetAddress);
        ("city", ostr (cityPart card) ||| Null);
        ("state", ostr (option_map fst (stateZipMatch card)) ||| Null);
        ("zip_code", match stateZipMatch card with
                     | Some (_, Some z) => Str z ||| Null
                     | _ => Null
                     end);
        ("property_type", propertyType);
        ("listing_by", listingBy);
        ("image_url", imageUrl);
        ("url", propertyUrl) ])
  else Ret None.

(** [cards.each] with the [try]/[catch] around each card. *)
Fixpoint extractFromHtml (baseUrl : string) (cards : list Card) : list Listing :=
  match cards with
  | [] => []
  | card :: rest =>
      match cardListing baseUrl card with
      | Ret (Some listing) => listing :: extractFromHtml baseUrl rest
      | Ret None | Throw _ => extractFromHtml baseUrl rest
      end
  end.

End Legacy.

(* ================================================================== *)
(** ** A runtime for the examples *)
(* ================================================================== *)

(** The examples below run on this runtime.  It answers as a JavaScript
    engine does on what the examples give it: [toString] and
    [toLocaleString] on strings, booleans and integers, the three
    replacements on ASCII text, [new URL] on plain lower-case
    [https://host/path?query] URLs and on strings without a scheme,
    resolution of a reference that starts with a slash, and unary plus on
    digit strings, on text that is not a number and on the empty array. *)

Definition isSpace (c : ascii) : bool :=
  let n := nat_of_ascii c in
  (n =? 32)%nat || ((9 <=? n)%nat && (n <=? 13)%nat).

Definition lower (c : ascii) : ascii :=
  let n := nat_of_ascii c in
  if (65 <=? n)%nat && (n <=? 90)%nat then ascii_of_nat (n + 32) else c.

Fixpoint dropSpaces (s : string) : string :=
  match s with
  | String c rest => if isSpace c then dropSpaces rest else s
  | EmptyString => s
  end.

(** What follows [w] at the head of [s], letter case ignored. *)
Fixpoint afterPrefixCI (w s : string) : option string :=
  match w, s with
  | EmptyString, _ => Some s
  | String a w', String b s' =>
      if Ascii.eqb (lower a) (lower b) then afterPrefixCI w' s' else None
  | String _ _, EmptyString => None
  end.

(** A match of [\s*w] at the head of [s], followed by an optional [s] when
    [plural] is set: what follows the match. *)
Definition afterWord (w : string) (plural : bool) (s : string) : option string :=
  match afterPrefixCI w (dropSpaces s) with
  | Some (String c rest) =>
      if plural && Ascii.eqb (lower c) "s" then Some rest
      else Some (String c rest)
  | r => r
  end.

(** Removes the leftmost match. *)
Fixpoint removeWord (w : string) (plural : bool) (s : string) : string :=
  match afterWord w plural s with
  | Some rest => rest
  | None =>
      match s with
      | EmptyString => EmptyString
      | String c rest => String c (removeWord w plural rest)
      end
  end.

Definition int_toString (q : Q) : string :=
  NilZero.string_of_int (Z.to_int (Qnum q / Zpos (Qden q))).

Definition num_toString (n : Num) : string :=
  match n with
  | Fin q => int_toString q
  | NaN => "NaN"
  | PosInf => "Infinity"
  | NegInf => "-Infinity"
  end.

Fixpoint group3 (digits : list ascii) (k : nat) : list ascii :=
  match digits with
  | [] => []
  | d :: rest =>
      if (k =? 3)%nat then ","%char :: d :: group3 rest 1
      else d :: group3 rest (S k)
  end.

(** en-US digit grouping of a non-negative integer. *)
Definition grouped (q : Q) : string :=
  string_of_list_ascii
    (rev (group3 (rev (list_ascii_of_string (int_toString q))) 0)).

Definition plain_toString (v : Val) : Outcome string :=
  match v with
  | Str s => Ret s
  | Bool true => Ret "true"
  | Bool false => Ret "false"
  | Number n => Ret (num_toString n)
  | Obj props =>
      match lookup "toString" props with
      | Undefined => Ret "[object Object]"
      | _ => Throw TypeError
      end
  | _ => Throw TypeError
  end.

Definition plain_toLocaleString (v : Val) : Outcome string :=
  match v with
  | Number (Fin q) => Ret (grouped q)
  | _ => plain_toString v
  end.

Fixpoint splitWhere (stop : ascii -> bool) (s : string) : string * string :=
  match s with
  | EmptyString => (EmptyString, EmptyString)
  | String c rest =>
      if stop c then (EmptyString, s)
      else let (a, b) := splitWhere stop rest in (String c a, b)
  end.

Definition plain_URL_parse (s : string) : option URL :=
  if String.prefix "https://" s then
    let rest := String.substring 8 (String.length s - 8) s in
    let (host, after) :=
      splitWhere (fun c => Ascii.eqb c "/" || Ascii.eqb c "?" || Ascii.eqb c "#")
                 rest in
    if isEmptyString host then None
    else
      let (path, suffix) :=
        splitWhere (fun c => Ascii.eqb c "?" || Ascii.eqb c "#") after in
      Some {| url_prefix := "https://" ++ host;
              pathname := if isEmptyString path then "/" else path;
              url_suffix := suffix |}
  else if String.prefix "mailto:" s then
    let rest := String.substring 7 (String.length s - 7) s in
    let (path, suffix) :=
      splitWhere (fun c => Ascii.eqb c "?" || Ascii.eqb c "#") rest in
    Some {| url_prefix := "mailto:"; pathname := path; url_suffix := suffix |}
  else None.

(** The path of a URL of the example runtime is opaque exactly when it does
    not start with a slash. *)
Definition plain_URL_set_pathname (u : URL) (p : string) : URL :=
  if String.prefix "/" (pathname u) then set_pathname u p else u.

Definition plain_URL_resolve (rel base : string) : option string :=
  match plain_URL_parse base with
  | Some b =>
      if String.prefix "/" rel && String.prefix "/" (pathname b)
      then Some (url_prefix b ++ rel)%string else None
  | None => None
  end.

Definition plain_string_toNumber (s : string) : Num :=
  if isEmptyString s then Fin 0
  else match NilZero.uint_of_string s with
       | Some u => Fin (inject_Z (Z.of_nat (Nat.of_uint u)))
       | None => NaN
       end.

Definition plain_object_toNumber (v : Val) : Outcome Num :=
  match v with
  | Arr [] => Ret (Fin 0)
  | _ => Ret NaN
  end.

Definition plainRuntime : JsRuntime := {|
  call_toString := plain_toString;
  call_toLocaleString := plain_toLocaleString;
  replace_Beds := removeWord "bed" true;
  replace_Baths := removeWord "bath" true;
  replace_sqft := removeWord "sqft" false;
  URL_parse := plain_URL_parse;
  URL_resolve := plain_URL_resolve;
  URL_set_pathname := plain_URL_set_pathname;
  string_toNumber := plain_string_toNumber;
  object_toNumber := plain_object_toNumber
|}.

(* ================================================================== *)
(** ** Pages and listings of the examples *)
(* ================================================================== *)

Definition startRequest : Request :=
  {| url := "https://www.trulia.com/NY/"; userData_pageNo := Some 1 |}.

Definition secondRequest : Request :=
  {| url := "https://www.trulia.com/NY/2_p/"; userData_pageNo := Some 2 |}.

(** [{"price": {"formattedPrice": "$689,000"}, "url": "/p/ny/home-i"}] *)
Definition homeNo (i : nat) : Val :=
  Obj [ ("price", Obj [("formattedPrice", Str "$689,000")]);
        ("url", Str ("/p/ny/home-" ++ decimal i)) ].

(** [{"props": {"searchData": {"homes": homes}}}] *)
Definition searchDocument (homes : list Val) : Val :=
  Obj [("props", Obj [("searchData", Obj [("homes", Arr homes)])])].

Definition searchPage (homes : list Val) : Page :=
  {| title_text := "NY Real Estate and Homes For Sale";
     nextDataScript := Some (Json (searchDocument homes));
     ldJsonScripts := [] |}.

(** Homes number [from] to [from + count - 1]. *)
Definition homesFrom (from count : nat) : list Val :=
  map homeNo (seq from count).

(** A home that only has [{"location": {"fullLocation": "Albany, NY"}}]. *)
Definition bareHome : Val :=
  Obj [("location", Obj [("fullLocation", Str "Albany, NY")])].

(** A home whose path is that of the second result page. *)
Definition pageLikeHome : Val := Obj [("url", Str "/NY/2_p/")].

(** [{"@type": "RealEstateListing", "name": name, "url": u}] *)
Definition ldListing (name u : string) : Val :=
  Obj [ ("@type", Str "RealEstateListing"); ("name", Str name); ("url", Str u) ].

(** [{"@type": "Product", "offers": {"price": 350000},
      "image": {"@type": "ImageObject", "url": "https://img.example/1.jpg"}}] *)
Definition ldProduct : Val :=
  Obj [ ("@type", Str "Product");
        ("offers", Obj [("price", Number (Fin 350000))]);
        ("image", Obj [ ("@type", Str "ImageObject");
                        ("url", Str "https://img.example/1.jpg") ]) ].

(** A page whose embedded data parses to [{"props": {"pageProps": {}}}] and
    whose single linked-data script holds [items]. *)
Definition linkedDataPage (items : list Val) : Page :=
  {| title_text := "NY Real Estate and Homes For Sale";
     nextDataScript := Some (Json (Obj [("props", Obj [("pageProps", Obj [])])]));
     ldJsonScripts := [Json (Arr items)] |}.

Definition deniedPage : Page :=
  {| title_text := "Access Denied";
     nextDataScript := Some (Json (searchDocument (homesFrom 1 3)));
     ldJsonScripts := [] |}.

Definition garbagePage : Page :=
  {| title_text := EmptyString;
     nextDataScript := Some Malformed;
     ldJsonScripts := [Malformed; Malformed] |}.

Definition pricedCard : Card :=
  {| priceText := "$500,000"; priceMatch := Some "$500,000";
     bedsMatch := Some "3"; bathsMatch := Some "2"; sqftMatch := Some "1,654";
     lotMatch := None; streetPart := "12 Elm St"; cityPart := Some "Albany";
     stateZipMatch := Some ("NY", Some "12203");
     linkHref := Some "/p/ny/albany/12-elm-st"; imgSrc := None;
     imgDataSrc := None; listingByText := EmptyString; typeBadge := None |}.

Definition emptyCard : Card :=
  {| priceText := EmptyString; priceMatch := None;
     bedsMatch := Some "3"; bathsMatch := None; sqftMatch := None;
     lotMatch := None; streetPart := EmptyString; cityPart := None;
     stateZipMatch := None; linkHref := None; imgSrc := None;
     imgDataSrc := None; listingByText := EmptyString; typeBadge := None |}.

(** Two listings with the same [url], one with another, one with none. *)
Definition listingA : Listing :=
  [ ("price", Str "$689,000"); ("address", Str "12 Elm St");
    ("url", Str "https://www.trulia.com/p/ny/home-1") ].

Definition listingB : Listing :=
  [ ("price", Str "$700,000"); ("address", Str "12 Elm Street");
    ("url", Str "https://www.trulia.com/p/ny/home-1") ].

Definition listingC : Listing :=
  [ ("price", Str "$450,000"); ("address", Str "7 Oak Ave");
    ("url", Str "https://www.trulia.com/p/ny/home-2") ].

Definition keylessListing : Listing :=
  [ ("price", Str "$450,000"); ("address", Null); ("full_address", Null);
    ("url", Null) ].

(** [{"results_wanted": 0, "max_pages": "abc"}] *)
Definition lowInput : Val :=
  Obj [ ("results_wanted", Number (Fin 0)); ("max_pages", Str "abc") ].

(* ================================================================== *)
(** ** Vocabulary of the specification *)
(* ================================================================== *)

(** A limit that is a finite number and at least 1. *)
Definition atLeastOne (x : Num) : Prop :=
  match x with
  | Fin q => (1 <= q)%Q
  | _ => False
  end.

(** A limit that is the integer [z]. *)
Definition isInteger (x : Num) (z : Z) : Prop :=
  match x with
  | Fin q => (q == inject_Z z)%Q
  | _ => False
  end.

Definition isObject (v : Val) : bool :=
  match v with
  | Arr _ | Obj _ => true
  | _ => false
  end.

(** The 13 fields of the canonical record. *)
Definition canonicalFields : list string :=
  [ "price"; "beds"; "baths"; "sqft"; "lot_size"; "address"; "city"; "state";
    "zip_code"; "property_type"; "listing_by"; "image_url"; "url" ].

(** The fields of a record of the embedded-data strategy. *)
Definition nextDataFields : list string :=
  [ "price"; "beds"; "baths"; "sqft"; "lot_size"; "address"; "city"; "state";
    "zip_code"; "full_address"; "latitude"; "longitude"; "property_type";
    "listing_by"; "description"; "image_url"; "url" ].

(** The fields of a record of the linked-data strategy. *)
Definition jsonLdFields : list string :=
  [ "price"; "address"; "city"; "state"; "zip_code"; "url"; "image_url" ].

Definition isStringOrNull (v : Val) : bool :=
  match v with
  | Str _ | Null => true
  | _ => false
  end.

(** A field value the strategies can produce: null, or a truthy value. *)
Definition nullOrTruthy (v : Val) : bool :=
  match v with
  | Null => true
  | _ => truthy v
  end.

(** A record with none of price, address and url. *)
Definition isNoise (l : Listing) : bool :=
  negb (truthy (lookup "price" l)) && negb (truthy (lookup "address" l))
  && negb (truthy (lookup "url" l)).

(** [st'] comes after [st]: the set was only appended to, and the counter
    grew by the number of listings pushed to the dataset in between. *)
Definition after (st st' : CrawlState) : Prop :=
  exists (keys' : list Val) (new : list Listing),
    saved st' = saved st + List.length new
    /\ seenUrls st' = seenUrls st ++ keys'
    /\ emitted (calls st') = emitted (calls st) ++ new.

(** Listings that would all be kept if there were no limit: each has a
    truthy key that is neither in the set nor the key of an earlier one. *)
Fixpoint admissible (seen : list Val) (listings : list Listing) : bool :=
  match listings with
  | [] => true
  | l :: rest =>
      truthy (listingKey l) && negb (has (listingKey l) seen)
      && admissible (seen ++ [listingKey l]) rest
  end.

(** The record the specification describes: exactly the 13 canonical
    fields, each a string or null. *)
Definition canonicalRecord (l : Listing) : Prop :=
  keys l = canonicalFields
  /\ forallb (fun kv => isStringOrNull (snd kv)) l = true.

(** No field of the record reads as undefined: each is null or truthy. *)
Definition neverUndefined (l : Listing) : bool :=
  forallb (fun kv => nullOrTruthy (snd kv)) l.

(** What holds of every record of the embedded-data strategy. *)
Definition nextDataRecord (l : Listing) : Prop :=
  keys l = nextDataFields
  /\ neverUndefined l = true
  /\ isStringOrNull (lookup "beds" l) = true
  /\ isStringOrNull (lookup "baths" l) = true
  /\ isStringOrNull (lookup "sqft" l) = true
  /\ isStringOrNull (lookup "url" l) = true.

(** What holds of every record of the linked-data strategy. *)
Definition linkedDataRecord (l : Listing) : Prop :=
  keys l = jsonLdFields /\ neverUndefined l = true.

(** A page with nothing to extract: no embedded-data script or one that does
    not parse, and no linked-data script that parses. *)
Definition garbage (pg : Page) : Prop :=
  (nextDataScript pg = None \/ nextDataScript pg = Some Malformed)
  /\ Forall (fun el => el = Malformed) (ldJsonScripts pg).

(** An embedded-data document without a listings array where the strategy
    looks for one. *)
Definition noHomesArray (json : Val) : Prop :=
  let props := oget json "props" in
  let searchData :=
    oget props "searchData" ||| oget (oget props "pageProps") "searchData" in
  truthy searchData = false \/ isArray (oget searchData "homes") = false.

(* ================================================================== *)
(** ** The start URL (main.js, lines 13-20, 36-46) *)
(* ================================================================== *)

(** The two string operations of [buildStartUrl] that depend on the
    Unicode tables of the engine. *)
Class StringRuntime : Type := {
  (** [s.toUpperCase()] *)
  toUpperCase : string -> string;
  (** [s.replace(/\s+/g, '_')] *)
  replace_whitespace : string -> string
}.

Definition inRange (lo hi : nat) (c : ascii) : bool :=
  let n := nat_of_ascii c in (lo <=? n)%nat && (n <=? hi)%nat.

(** The characters [encodeURIComponent] leaves as they are: letters, digits
    and [- _ . ! ~ * ' ( )]. *)
Definition isUnreserved (c : ascii) : bool :=
  inRange 48 57 c || inRange 65 90 c || inRange 97 122 c
  || existsb (Ascii.eqb c)
       [ "-"%char; "_"%char; "."%char; "!"%char; "~"%char; "*"%char;
         "'"%char; "("%char; ")"%char ].

Definition hexChar (n : nat) : ascii :=
  if (n <? 10)%nat then ascii_of_nat (48 + n) else ascii_of_nat (55 + n).

Definition percentEncode (c : ascii) : string :=
  let n := nat_of_ascii c in
  String "%" (String (hexChar (n / 16)) (String (hexChar (n mod 16)) EmptyString)).

(** A string is held as the bytes of its UTF-8 form.  A surrogate that is
    not half of a pair has no UTF-8 form; it is held as the three bytes
    [ED A0..BF 80..BF] of the generalised form, a sequence no other text
    holds.  [surrogateAt c rest] tells such a sequence at the head of
    [String c rest]. *)
Definition surrogateAt (c : ascii) (rest : string) : bool :=
  Ascii.eqb c "237"
  && match rest with
     | String d _ => inRange 160 191 d
     | EmptyString => false
     end.

(** The string holds a surrogate that is not half of a pair:
    [!s.isWellFormed()]. *)
Fixpoint loneSurrogate (s : string) : bool :=
  match s with
  | EmptyString => false
  | String c rest => surrogateAt c rest || loneSurrogate rest
  end.

(** [encodeURIComponent(s)]: an unreserved character is kept, a lone
    surrogate throws a URIError, and every byte of the UTF-8 form of any
    other character becomes [%XX]. *)
Fixpoint encodeURIComponent (s : string) : Outcome string :=
  match s with
  | EmptyString => Ret EmptyString
  | String c rest =>
      if isUnreserved c then
        r <- encodeURIComponent rest ;; Ret (String c r)
      else if surrogateAt c rest then Throw URIError
      else r <- encodeURIComponent rest ;; Ret (percentEncode c ++ r)%string
  end.

Section StartUrl.
Context {SR : StringRuntime}.

(** Only a string has a callable [toUpperCase]. *)
Definition buildStartUrl (loc type : Val) : Outcome string :=
  match loc with
  | Str s =>
      let base := "https://www.trulia.com" in
      locPath <- encodeURIComponent (replace_whitespace (toUpperCase s)) ;;
      if strict_eq_str type "rent"
      then Ret (base ++ "/for_rent/" ++ locPath ++ "/")%string
      else Ret (base ++ "/" ++ locPath ++ "/")%string
  | _ => Throw TypeError
  end.

(** [start_url || buildStartUrl(location, listing_type)] with the defaults
    of the destructuring. *)
Definition initialUrl (got : Val) : Outcome Val :=
  let input := actorInput got in
  let start_url := oget input "start_url" in
  if truthy start_url then Ret start_url
  else
    s <- buildStartUrl (destructure input "location" (Str "NY"))
                       (destructure input "listing_type" (Str "buy")) ;;
    Ret (Str s).

End StartUrl.

(* ================================================================== *)
(** ** [extractFromNextData] of the older top-level main.js *)
(* ================================================================== *)

(** [a || b] where evaluating either side may throw. *)
Definition orElse (a b : Outcome Val) : Outcome Val :=
  x <- a ;; if truthy x then Ret x else b.

Section LegacyNextData.
Context {RT : JsRuntime}.

Definition legacy_price (home : Val) : Outcome Val :=
  price <- get home "price" ;;
  orElse (Ret (oget price "formattedPrice"))
    (orElse (toStringCall (oget price "value"))
       (Ret (oget home "listingPrice" ||| Null))).

(** [home.a?.toString() || home.b?.toString() || null] *)
Definition legacy_count (a b : string) (home : Val) : Outcome Val :=
  orElse (x <- get home a ;; toStringCall x)
    (orElse (toStringCall (oget home b)) (Ret Null)).

Definition legacy_sqft (home : Val) : Outcome Val :=
  floorSpace <- get home "floorSpace" ;;
  orElse (Ret (oget floorSpace "formattedDimension"))
    (orElse (toStringCall (oget home "sqft"))
       (orElse (toStringCall (oget home "livingArea")) (Ret Null))).

Definition legacy_lot_size (home : Val) : Outcome Val :=
  lotSize <- get home "lotSize" ;;
  orElse (Ret (oget lotSize "formattedDimension"))
    (orElse (toStringCall (oget lotSize "value")) (Ret Null)).

Definition legacy_address (home : Val) : Outcome Val :=
  address <- get home "address" ;;
  Ret (oget address "formattedAddress" ||| oget home "fullAddress"
       ||| oget home "streetAddress" ||| Null).

(** [home.address?.k || home.flat || null] *)
Definition legacy_place (k flat : string) (home : Val) : Outcome Val :=
  address <- get home "address" ;;
  Ret (oget address k ||| oget home flat ||| Null).

Definition legacy_property_type (home : Val) : Outcome Val :=
  propertyType <- get home "propertyType" ;;
  Ret (propertyType ||| oget home "homeType" ||| Null).

Definition legacy_listing_by (home : Val) : Outcome Val :=
  listingAgent <- get home "listingAgent" ;;
  Ret (oget listingAgent "name" ||| oget (oget home "broker") "name"
       ||| oget (oget home "attribution") "listingAgent" ||| Null).

Definition legacy_image_url (home : Val) : Outcome Val :=
  media <- get home "media" ;;
  Ret (oget (oget0 media) "url" ||| oget (oget0 (oget home "photos")) "url"
       ||| oget (oget home "heroImage") "url" ||| Null).

(** The callback of [homes.map] in the older file. *)
Definition mapHome_legacy (home : Val) : Outcome Listing :=
  price <- legacy_price home ;;
  beds <- legacy_count "bedrooms" "beds" home ;;
  baths <- legacy_count "bathrooms" "baths" home ;;
  sqft <- legacy_sqft home ;;
  lot_size <- legacy_lot_size home ;;
  address <- legacy_address home ;;
  city <- legacy_place "city" "city" home ;;
  state <- legacy_place "stateCode" "state" home ;;
  zip_code <- legacy_place "postalCode" "zipCode" home ;;
  property_type <- legacy_property_type home ;;
  listing_by <- legacy_listing_by home ;;
  image_url <- legacy_image_url home ;;
  url <- field_url home ;;
  Ret [ ("price", price); ("beds", beds); ("baths", baths); ("sqft", sqft);
        ("lot_size", lot_size); ("address", address); ("city", city);
        ("state", state); ("zip_code", zip_code);
        ("property_type", property_type); ("listing_by", listing_by);
        ("image_url", image_url); ("url", url) ].

(** The body of the [try] block.  The script text that is empty returns
    null before it is parsed; it is a [Malformed] script here, which returns
    null through the [catch]. *)
Definition extractFromNextData_legacy_body (pg : Page)
  : Outcome (option (list Listing)) :=
  match nextDataScript pg with
  | None => Ret None
  | Some script =>
      json <- JSON_parse script ;;
      let props := oget (oget json "props") "pageProps" in
      if negb (truthy props) then Ret None
      else
        let searchData :=
          oget props "searchData" ||| oget props "searchResults"
          ||| oget props "homes" ||| oget props "listings" in
        if negb (truthy searchData) then Ret None
        else
          let homes :=
            oget searchData "homes" ||| oget searchData "results"
            ||| oget searchData "listings"
            ||| (if isArray searchData then searchData else Null) in
          match homes with
          | Arr hs => listings <- mapM mapHome_legacy hs ;; Ret (Some listings)
          | _ => Ret None
          end
  end.

Definition extractFromNextData_legacy (pg : Page)
  : Outcome (option (list Listing)) :=
  try_catch (extractFromNextData_legacy_body pg) (fun _ => Ret None).

End LegacyNextData.

(** A runtime for the examples of the start URL: exact on ASCII text. *)
Definition upperAscii (c : ascii) : ascii :=
  if inRange 97 122 c then ascii_of_nat (nat_of_ascii c - 32) else c.

Fixpoint mapString (f : ascii -> ascii) (s : string) : string :=
  match s with
  | EmptyString => EmptyString
  | String c rest => String (f c) (mapString f rest)
  end.

(** Every run of white space becomes one underscore. *)
Fixpoint underscoreSpaces (s : string) : string :=
  match s with
  | EmptyString => EmptyString
  | String c rest =>
      if isSpace c then String "_" (underscoreSpaces (dropSpaces rest))
      else String c (underscoreSpaces rest)
  end.

(* ================================================================== *)
(** ** Further vocabulary *)
(* ================================================================== *)

(** No two of the listings have the same key. *)
Definition distinctKeys (ls : list Listing) : Prop :=
  ForallOrdPairs
    (fun a b => sameValueZero (listingKey a) (listingKey b) = false) ls.

(** [sub] is [l] with some elements left out. *)
Inductive Subseq {A : Type} : list A -> list A -> Prop :=
| Subseq_nil : Subseq [] []
| Subseq_skip (x : A) (sub l : list A) : Subseq sub l -> Subseq sub (x :: l)
| Subseq_keep (x : A) (sub l : list A) : Subseq sub l -> Subseq (x :: sub) (x :: l).

(** An enqueued request as the pagination block can make it: a non-empty
    URL with the number of a page after one that is below the limit. *)
Definition validEnqueue (MP : Num) (r : string * nat) : Prop :=
  isEmptyString (fst r) = false
  /\ exists pageNo, snd r = pageNo + 1 /\ 1 <= pageNo
                    /\ nat_lt pageNo MP = true.

(** The batches handed to [Dataset.pushData], in order. *)
Fixpoint batches (cs : list Call) : list (list Listing) :=
  match cs with
  | [] => []
  | PushData batch :: rest => batch :: batches rest
  | _ :: rest => batches rest
  end.

(** The characters a URL path segment made by [encodeURIComponent] holds. *)
Definition isSegmentChar (c : ascii) : bool :=
  isUnreserved c || Ascii.eqb c "%".

Fixpoint allChars (p : ascii -> bool) (s : string) : bool :=
  match s with
  | EmptyString => true
  | String c rest => p c && allChars p rest
  end.

(** The matching items of a linked-data script up to the first item on
    which the test throws. *)
Fixpoint matchingItems (items : list Val) : list Val :=
  match items with
  | [] => []
  | item :: rest =>
      match isListingItem item with
      | Throw _ => []
      | Ret true => item :: matchingItems rest
      | Ret false => matchingItems rest
      end
  end.

(** Every kept listing's key is in the set, under every value the set
    takes for the same key. *)
Definition recorded (kept : list Listing) (seen : list Val) : Prop :=
  forall e k, In e kept -> sameValueZero k (listingKey e) = true ->
              has k seen = true.

(** What the deduplication loop keeps true of the listings kept so far. *)
Definition keptInvariant (kept : list Listing) (seen : list Val) : Prop :=
  Forall (fun l => truthy (listingKey l) = true) kept
  /\ recorded kept seen
  /\ distinctKeys kept.

(** What every piece of the handler keeps true of the crawl state. *)
Definition runInvariant (MP : Num) (st : CrawlState) : Prop :=
  keptInvariant (emitted (calls st)) (seenUrls st)
  /\ Forall (validEnqueue MP) (enqueued (calls st))
  /\ (forall r, In r (enqueued (calls st)) ->
                has (Str (fst r)) (seenUrls st) = true)
  /\ NoDup (map fst (enqueued (calls st)))
  /\ List.length (seenUrls st)
     = saved st + List.length (enqueued (calls st))
  /\ Forall (fun batch => batch <> []) (batches (calls st))
  /\ emitted (calls st) = List.concat (batches (calls st)).

(** The path up to the page segment [buildNextPageUrl] appends, with its
    final slash: the value of [path] at line 179 of main.js. *)
Definition pageBase (path : string) : string :=
  let p := stripPageSegment path in
  if endsWithSlash p then p else (p ++ "/")%string.

(** The three signatures of a blocked page. *)
Definition signatures : list string := [ "Access Denied"; "Captcha"; "Robot" ].

(** The array the embedded-data strategy maps over, when the document has
    one where the strategy looks: [searchData.homes] under [props] or
    [props.pageProps]. *)
Definition embeddedHomes (json : Val) : option (list Val) :=
  let props := oget json "props" in
  let searchData :=
    oget props "searchData" ||| oget (oget props "pageProps") "searchData" in
  if truthy searchData then
    match oget searchData "homes" with
    | Arr hs => Some hs
    | _ => None
    end
  else None.

(** A [url] field as the embedded-data strategy makes it: null, or an
    address on the site. *)
Definition siteUrlOrNull (v : Val) : Prop :=
  v = Null \/ exists rest, v = Str ("https://www.trulia.com/" ++ rest).

(** The low surrogate U+DC00 on its own. *)
Definition loneLowSurrogate : string :=
  String "237" (String "176" (String "128" EmptyString)).

Definition asciiStrings : StringRuntime :=
  {| toUpperCase := mapString upperAscii;
     replace_whitespace := underscoreSpaces |}.

(** A card with a price whose link cannot be resolved on the example
    runtime. *)
Definition unlinkedCard : Card :=
  {| priceText := "$450,000"; priceMatch := Some "$450,000";
     bedsMatch := None; bathsMatch := None; sqftMatch := None;
     lotMatch := None; streetPart := "7 Oak Ave"; cityPart := None;
     stateZipMatch := None; linkHref := Some "p/ny/7-oak-ave";
     imgSrc := None; imgDataSrc := None; listingByText := EmptyString;
     typeBadge := None |}.

(** A [url] field as the card strategy makes it: null, or absolute already,
    or resolved against the page. *)
Definition cardUrl (baseUrl : string) {RT : JsRuntime} (v : Val) : Prop :=
  v = Null
  \/ exists h, v = Str h
               /\ (startsWith "http" h = true
                   \/ exists u, URL_resolve u baseUrl = Some h).

(* ================================================================== *)
(** ** Input limits *)
(* ================================================================== *)

Section LimitFacts.
Context {RT : JsRuntime}.

Lemma clampLimit_finite (raw : Val) (dflt : Num) (q : Q) :
  toNumber raw = Ret (Fin q) ->
  clampLimit raw dflt = Ret (Fin (if Qle_bool 1 q then q else 1%Q)).
Proof.
  intros H. unfold clampLimit. rewrite H. simpl.
  destruct (Qle_bool 1 q); reflexivity.
Qed.

Lemma clampLimit_not_finite (raw : Val) (dflt n : Num) :
  toNumber raw = Ret n -> isFinite n = false ->
  clampLimit raw dflt = Ret dflt.
Proof.
  intros H Hn. unfold clampLimit. rewrite H. simpl. rewrite Hn. reflexivity.
Qed.

Lemma clampLimit_atLeastOne (raw : Val) (dflt x : Num) :
  atLeastOne dflt -> clampLimit raw dflt = Ret x -> atLeastOne x.
Proof.
  intros Hd. unfold clampLimit.
  destruct (toNumber raw) as [n|e] eqn:E; simpl; [|discriminate].
  destruct n as [q| | |]; simpl; try (intros [= <-]; exact Hd).
  destruct (Qle_bool 1 q) eqn:Q; intros [= <-]; simpl.
  - apply Qle_bool_iff. exact Q.
  - apply Qle_refl.
Qed.

Lemma toNumber_returns (raw : Val) :
  isObject raw = false -> exists n, toNumber raw = Ret n.
Proof.
  destruct raw as [| |[|]|n|s|l|o]; simpl; intros H;
    try discriminate; eexists; reflexivity.
Qed.

Lemma clampLimit_returns (raw : Val) (dflt : Num) :
  isObject raw = false -> exists x, clampLimit raw dflt = Ret x.
Proof.
  intros H. destruct (toNumber_returns raw H) as [n Hn].
  unfold clampLimit. rewrite Hn. simpl.
  destruct (isFinite n); eexists; reflexivity.
Qed.

Lemma destructure_isObject (input : Val) (k : string) (q : Q) :
  isObject (oget input k) = false ->
  isObject (destructure input k (Number (Fin q))) = false.
Proof.
  unfold destructure. destruct (oget input k); simpl; congruence.
Qed.

Lemma destructure_present (input : Val) (k : string) (dflt : Val) :
  oget input k <> Undefined -> destructure input k dflt = oget input k.
Proof.
  unfold destructure. destruct (oget input k); congruence.
Qed.

Lemma destructure_absent (input : Val) (k : string) (dflt : Val) :
  oget input k = Undefined -> destructure input k dflt = dflt.
Proof.
  unfold destructure. intros ->. reflexivity.
Qed.

End LimitFacts.

(* ================================================================== *)
(** ** The seen set *)
(* ================================================================== *)

Lemma num_same_sym (a b : Num) : num_same a b = num_same b a.
Proof.
  destruct a as [x| | |], b as [y| | |]; simpl; try reflexivity.
  unfold Qeq_bool. rewrite Z.eqb_sym. reflexivity.
Qed.

Lemma num_same_trans (a b c : Num) :
  num_same a b = true -> num_same b c = true -> num_same a c = true.
Proof.
  destruct a as [x| | |], b as [y| | |], c as [z| | |]; simpl;
    try discriminate; try reflexivity.
  intros H1 H2. apply Qeq_bool_iff in H1. apply Qeq_bool_iff in H2.
  apply Qeq_bool_iff. now rewrite H1.
Qed.

Lemma sameValueZero_sym (a b : Val) : sameValueZero a b = sameValueZero b a.
Proof.
  destruct a, b; simpl; try reflexivity.
  - destruct b, b0; reflexivity.
  - apply num_same_sym.
  - apply String.eqb_sym.
Qed.

Lemma sameValueZero_trans (a b c : Val) :
  sameValueZero a b = true -> sameValueZero b c = true ->
  sameValueZero a c = true.
Proof.
  destruct a, b; simpl; try discriminate; destruct c; simpl;
    try discriminate; try reflexivity.
  - intros H1 H2. apply Bool.eqb_prop in H1. apply Bool.eqb_prop in H2.
    subst. apply Bool.eqb_reflx.
  - apply num_same_trans.
  - intros H1 H2. apply String.eqb_eq in H1. apply String.eqb_eq in H2.
    subst. apply String.eqb_refl.
Qed.

Lemma sameValueZero_truthy (a b : Val) :
  sameValueZero a b = true -> truthy a = truthy b.
Proof.
  destruct a, b; simpl; try discriminate; try reflexivity.
  - intros H. apply Bool.eqb_prop in H. exact H.
  - destruct n as [x| | |], n0 as [y| | |]; simpl; try discriminate;
      try reflexivity.
    intros H. apply Qeq_bool_iff in H. f_equal.
    destruct (Qeq_bool x 0) eqn:X, (Qeq_bool y 0) eqn:Y; try reflexivity.
    + apply Qeq_bool_iff in X. rewrite H in X. apply Qeq_bool_iff in X.
      congruence.
    + apply Qeq_bool_iff in Y. rewrite <- H in Y. apply Qeq_bool_iff in Y.
      congruence.
  - intros H. apply String.eqb_eq in H. subst. reflexivity.
Qed.

(** Membership depends on the key only up to SameValueZero. *)
Lemma has_same (a b : Val) (set : list Val) :
  sameValueZero a b = true -> has a set = has b set.
Proof.
  intros H. unfold has. induction set as [|x set IH]; simpl; [reflexivity|].
  rewrite IH. f_equal.
  destruct (sameValueZero a x) eqn:Ea, (sameValueZero b x) eqn:Eb;
    try reflexivity.
  - rewrite sameValueZero_sym in H.
    rewrite (sameValueZero_trans b a x H Ea) in Eb. discriminate.
  - rewrite (sameValueZero_trans a b x H Eb) in Ea. discriminate.
Qed.

Lemma has_app (k : Val) (s1 s2 : list Val) :
  has k (s1 ++ s2) = has k s1 || has k s2.
Proof. unfold has. apply existsb_app. Qed.

Lemma has_add (k k' : Val) (set : list Val) :
  has k (add k' set) = has k set || (sameValueZero k k' && negb (has k' set)).
Proof.
  unfold add. destruct (has k' set) eqn:E.
  - rewrite andb_false_r, orb_false_r. reflexivity.
  - rewrite has_app. unfold has at 2. simpl.
    rewrite orb_false_r, andb_true_r. reflexivity.
Qed.

(** A key stays in the set once it is there. *)
Lemma has_add_mono (k k' : Val) (set : list Val) :
  has k set = true -> has k (add k' set) = true.
Proof. intros H. rewrite has_add, H. reflexivity. Qed.

Lemma add_extends (k : Val) (set : list Val) :
  exists ext, add k set = set ++ ext.
Proof.
  unfold add. destruct (has k set).
  - exists []. symmetry. apply app_nil_r.
  - exists [k]. reflexivity.
Qed.

(** Adding a key that differs from [k] does not change whether [k] is in
    the set. *)
Lemma has_add_other (k k' : Val) (set : list Val) :
  sameValueZero k k' = false -> has k (add k' set) = has k set.
Proof.
  intros H. rewrite has_add, H. simpl. apply orb_false_r.
Qed.

Lemma emitted_app (c1 c2 : list Call) :
  emitted (c1 ++ c2) = emitted c1 ++ emitted c2.
Proof.
  induction c1 as [|c c1 IH]; simpl; [reflexivity|].
  destruct c; rewrite IH; try reflexivity. apply app_assoc.
Qed.

Lemma enqueued_app (c1 c2 : list Call) :
  enqueued (c1 ++ c2) = enqueued c1 ++ enqueued c2.
Proof.
  induction c1 as [|c c1 IH]; simpl; [reflexivity|].
  destruct c; rewrite IH; reflexivity.
Qed.

(* ================================================================== *)
(** ** The deduplication loop *)
(* ================================================================== *)

Lemma nat_ge_integer (n : nat) (x : Num) (z : Z) :
  isInteger x z -> nat_ge n x = (z <=? Z.of_nat n)%Z.
Proof.
  destruct x as [q| | |]; simpl; try contradiction. intros H.
  rewrite (Qleb_comp q (inject_Z z) H (inject_Z (Z.of_nat n)) _ (Qeq_refl _)).
  destruct (Qle_bool (inject_Z z) (inject_Z (Z.of_nat n))) eqn:E.
  - apply Qle_bool_iff in E. rewrite <- Zle_Qle in E.
    symmetry. apply Z.leb_le. exact E.
  - symmetry. apply Z.leb_gt. apply Z.lt_nge. intros C.
    rewrite Zle_Qle in C. apply Qle_bool_iff in C. congruence.
Qed.

Lemma nat_lt_ge (n : nat) (x : Num) :
  nat_ge n x = true -> nat_lt n x = false.
Proof.
  destruct x; simpl; try reflexivity; try discriminate.
  intros ->. reflexivity.
Qed.

Section LoopFacts.
Variable RW : Num.

(** Once the counter has reached the limit the loop leaves everything as
    it is. *)
Lemma dedupLoop_full (listings : list Listing) (st : CrawlState)
  (acc : list Listing) :
  nat_ge (saved st) RW = true -> dedupLoop RW listings st acc = (st, acc).
Proof.
  intros H. destruct listings as [|l rest]; simpl; [reflexivity|].
  rewrite H. reflexivity.
Qed.

(** The loop leaves [calls] alone, only appends to [seenUrls] and to the
    batch, and counts exactly what it appends to the batch. *)
Lemma dedupLoop_shape (listings : list Listing) :
  forall (st : CrawlState) (acc : list Listing),
  exists (keys' : list Val) (new : list Listing),
    dedupLoop RW listings st acc
    = ({| saved := saved st + List.length new;
          seenUrls := seenUrls st ++ keys';
          calls := calls st |}, acc ++ new).
Proof.
  induction listings as [|l rest IH]; intros st acc; simpl.
  - exists [], []. simpl. rewrite Nat.add_0_r, !app_nil_r.
    destruct st; reflexivity.
  - destruct (nat_ge (saved st) RW).
    + exists [], []. simpl. rewrite Nat.add_0_r, !app_nil_r.
      destruct st; reflexivity.
    + destruct (truthy (listingKey l) && negb (has (listingKey l) (seenUrls st))).
      * match goal with |- context [dedupLoop RW rest ?s ?a] =>
          destruct (IH s a) as (ks & new & E) end.
        destruct (add_extends (listingKey l) (seenUrls st)) as [ext Hext].
        exists (ext ++ ks), (l :: new). rewrite E. simpl.
        rewrite Hext, <- !app_assoc. simpl.
        f_equal. f_equal. lia.
      * apply IH.
Qed.

(** With an integer limit the counter never passes it. *)
Lemma dedupLoop_bound (z : Z) (listings : list Listing) :
  isInteger RW z ->
  forall (st : CrawlState) (acc : list Listing),
    (Z.of_nat (saved st) <= z)%Z ->
    (Z.of_nat (saved (fst (dedupLoop RW listings st acc))) <= z)%Z.
Proof.
  intros HZ. induction listings as [|l rest IH]; intros st acc H; simpl.
  - exact H.
  - rewrite (nat_ge_integer _ _ _ HZ).
    destruct (z <=? Z.of_nat (saved st))%Z eqn:E; simpl; [exact H|].
    apply Z.leb_gt in E.
    destruct (truthy (listingKey l) && negb (has (listingKey l) (seenUrls st))).
    + apply IH. simpl. lia.
    + apply IH. exact H.
Qed.

(** The loop stops in the middle of a page: what follows the point where
    the limit is reached is not looked at. *)
Lemma dedupLoop_app (l1 l2 : list Listing) :
  forall (st : CrawlState) (acc : list Listing),
    dedupLoop RW (l1 ++ l2) st acc
    = dedupLoop RW l2 (fst (dedupLoop RW l1 st acc))
                   (snd (dedupLoop RW l1 st acc)).
Proof.
  induction l1 as [|l rest IH]; intros st acc; simpl; [reflexivity|].
  destruct (nat_ge (saved st) RW) eqn:E; simpl.
  - symmetry. apply dedupLoop_full. exact E.
  - destruct (truthy (listingKey l) && negb (has (listingKey l) (seenUrls st)));
      apply IH.
Qed.

Lemma dedupLoop_stops (l1 l2 : list Listing) (st : CrawlState)
  (acc : list Listing) :
  nat_ge (saved (fst (dedupLoop RW l1 st acc))) RW = true ->
  dedupLoop RW (l1 ++ l2) st acc = dedupLoop RW l1 st acc.
Proof.
  intros H. rewrite dedupLoop_app, (dedupLoop_full _ _ _ H).
  destruct (dedupLoop RW l1 st acc); reflexivity.
Qed.

End LoopFacts.

(* ================================================================== *)
(** ** The strategies never throw *)
(* ================================================================== *)

Section ExtractFacts.
Context {RT : JsRuntime}.

Lemma extractFromNextData_returns (pg : Page) :
  exists r, extractFromNextData pg = Ret r.
Proof.
  unfold extractFromNextData, try_catch.
  destruct (extractFromNextData_body pg); eexists; reflexivity.
Qed.

Lemma buildNextPageUrl_returns (currentUrl : string) (currentPage : nat) :
  exists r, buildNextPageUrl currentUrl currentPage = Ret r.
Proof.
  unfold buildNextPageUrl, try_catch.
  destruct (buildNextPageUrl_body currentUrl currentPage); eexists; reflexivity.
Qed.

(** The extraction step of the handler returns, and touches the state only
    by the debug [setValue] call. *)
Lemma extractListings_returns (pageNo : nat) (pg : Page) (st : CrawlState) :
  exists listings,
    extractListings pageNo pg st = Ret (listings, st)
    \/ (listings = []
        /\ extractListings pageNo pg st = Ret ([], call (SetValue pageNo) st)).
Proof.
  unfold extractListings.
  destruct (extractFromNextData_returns pg) as [r ->]. simpl.
  destruct (nonEmpty r).
  - eexists. left. reflexivity.
  - destruct (nonEmpty (extractFromJsonLd pg)).
    + eexists. left. reflexivity.
    + exists []. right. split; reflexivity.
Qed.

End ExtractFacts.

(* ================================================================== *)
(** ** Invariants of a run *)
(* ================================================================== *)

Lemma after_refl (st : CrawlState) : after st st.
Proof.
  exists [], []. simpl. rewrite Nat.add_0_r, !app_nil_r. auto.
Qed.

Lemma after_trans (a b c : CrawlState) : after a b -> after b c -> after a c.
Proof.
  intros (k1 & n1 & S1 & K1 & E1) (k2 & n2 & S2 & K2 & E2).
  exists (k1 ++ k2), (n1 ++ n2). rewrite S2, S1, K2, K1, E2, E1.
  rewrite length_app, <- !app_assoc. repeat split. lia.
Qed.

Lemma after_call (c : Call) (st : CrawlState) :
  emitted [c] = [] -> after st (call c st).
Proof.
  intros H. exists [], []. simpl.
  rewrite emitted_app, H, Nat.add_0_r, !app_nil_r. auto.
Qed.

Section RunFacts.
Context {RT : JsRuntime}.
Variable RW : Num.
Variable MP : Num.

Lemma dedupAndSave_after (listings : list Listing) (st : CrawlState) :
  after st (dedupAndSave RW listings st).
Proof.
  unfold dedupAndSave.
  destruct (dedupLoop_shape RW listings st []) as (ks & new & E).
  rewrite E. simpl. exists ks, new.
  destruct new as [|l new]; simpl.
  - rewrite app_nil_r. auto.
  - rewrite emitted_app. simpl. rewrite app_nil_r. auto.
Qed.

Lemma dedupAndSave_saved (listings : list Listing) (st : CrawlState) :
  saved (dedupAndSave RW listings st) = saved (fst (dedupLoop RW listings st [])).
Proof.
  unfold dedupAndSave. destruct (dedupLoop RW listings st []) as [st' new].
  destruct new; reflexivity.
Qed.

Lemma handlePage_after (request : Request) (pg : Page) (session : bool)
  (st : CrawlState) :
  after st (snd (handlePage RW request pg session st)).
Proof.
  unfold handlePage. destruct (blocked (title_text pg)); simpl.
  - destruct session; [apply after_call; reflexivity | apply after_refl].
  - destruct (extractListings_returns (pageNoOf request) pg st)
      as [l [E | [-> E]]]; rewrite E; simpl.
    + apply dedupAndSave_after.
    + eapply after_trans;
        [apply (after_call (SetValue (pageNoOf request))); reflexivity|].
      apply dedupAndSave_after.
Qed.

Lemma handlePage_bound (z : Z) (request : Request) (pg : Page)
  (session : bool) (st : CrawlState) :
  isInteger RW z -> (Z.of_nat (saved st) <= z)%Z ->
  (Z.of_nat (saved (snd (handlePage RW request pg session st))) <= z)%Z.
Proof.
  intros HZ H. unfold handlePage. destruct (blocked (title_text pg)); simpl.
  - destruct session; exact H.
  - destruct (extractListings_returns (pageNoOf request) pg st)
      as [l [E | [-> E]]]; rewrite E; cbv beta iota; cbn [snd];
      rewrite dedupAndSave_saved; apply dedupLoop_bound; assumption.
Qed.

Lemma paginate_after (request : Request) (st : CrawlState) :
  after st (snd (paginate RW MP request st)).
Proof.
  unfold paginate.
  destruct (nat_lt (saved st) RW && nat_lt (pageNoOf request) MP);
    [|apply after_refl].
  destruct (buildNextPageUrl (url request) (pageNoOf request)) as [[u|]|e];
    simpl; try apply after_refl.
  destruct (negb (isEmptyString u) && negb (has (Str u) (seenUrls st)));
    simpl; [|apply after_refl].
  destruct (add_extends (Str u) (seenUrls st)) as [ext Hext].
  exists ext, []. simpl. rewrite emitted_app. simpl.
  rewrite Nat.add_0_r, !app_nil_r. auto.
Qed.

Lemma paginate_saved (request : Request) (st : CrawlState) :
  saved (snd (paginate RW MP request st)) = saved st.
Proof.
  unfold paginate.
  destruct (nat_lt (saved st) RW && nat_lt (pageNoOf request) MP);
    [|reflexivity].
  destruct (buildNextPageUrl (url request) (pageNoOf request)) as [[u|]|e];
    simpl; try reflexivity.
  destruct (negb (isEmptyString u) && negb (has (Str u) (seenUrls st)));
    reflexivity.
Qed.

(** Once the limit is reached, pagination enqueues nothing, whatever the
    page number. *)
Lemma paginate_full (request : Request) (st : CrawlState) :
  nat_ge (saved st) RW = true -> paginate RW MP request st = (Ret tt, st).
Proof.
  intros H. unfold paginate. rewrite (nat_lt_ge _ _ H). reflexivity.
Qed.

Lemma runPiece_after (p : Piece) (st : CrawlState) :
  after st (runPiece RW MP st p).
Proof.
  destruct p; simpl; [apply handlePage_after | apply paginate_after].
Qed.

Lemma run_after (pieces : list Piece) :
  forall st, after st (run RW MP pieces st).
Proof.
  unfold run. induction pieces as [|p pieces IH]; intros st; simpl.
  - apply after_refl.
  - eapply after_trans; [apply runPiece_after | apply IH].
Qed.

Lemma run_bound (z : Z) (pieces : list Piece) :
  isInteger RW z ->
  forall st, (Z.of_nat (saved st) <= z)%Z ->
             (Z.of_nat (saved (run RW MP pieces st)) <= z)%Z.
Proof.
  intros HZ. unfold run.
  induction pieces as [|p pieces IH]; intros st H; simpl; [exact H|].
  apply IH. destruct p; simpl.
  - apply handlePage_bound; assumption.
  - rewrite paginate_saved. exact H.
Qed.

Lemma run_app (p1 p2 : list Piece) (st : CrawlState) :
  run RW MP (p1 ++ p2) st = run RW MP p2 (run RW MP p1 st).
Proof. unfold run. apply fold_left_app. Qed.

(** One invocation of the handler is its two pieces in a row, or the first
    alone when the page is blocked. *)
Lemma requestHandler_pieces (request : Request) (pg : Page) (session : bool)
  (st : CrawlState) :
  snd (requestHandler RW MP request pg session st)
  = if blocked (title_text pg)
    then run RW MP [Handle request pg session] st
    else run RW MP [Handle request pg session; Paginate request] st.
Proof.
  unfold requestHandler, run. simpl. unfold handlePage.
  destruct (blocked (title_text pg)); [reflexivity|].
  destruct (extractListings_returns (pageNoOf request) pg st)
    as [l [E | [-> E]]]; rewrite E; reflexivity.
Qed.

(** Without the assumption that the limit is an integer: the counter stays
    below the limit plus one. *)
Lemma run_below_limit_plus_one (q : Q) (pieces : list Piece) :
  RW = Fin q ->
  forall st, (inject_Z (Z.of_nat (saved st)) < q + 1)%Q ->
             (inject_Z (Z.of_nat (saved (run RW MP pieces st))) < q + 1)%Q.
Proof.
  intros HRW.
  assert (L : forall listings st acc,
             (inject_Z (Z.of_nat (saved st)) < q + 1)%Q ->
             (inject_Z (Z.of_nat (saved (fst (dedupLoop RW listings st acc))))
              < q + 1)%Q).
  { induction listings as [|l rest IH]; intros st acc H; simpl; [exact H|].
    destruct (nat_ge (saved st) RW) eqn:E; [exact H|].
    destruct (truthy (listingKey l) && negb (has (listingKey l) (seenUrls st)));
      [|apply IH; exact H].
    apply IH. simpl. rewrite HRW in E. simpl in E.
    assert (Hlt : (inject_Z (Z.of_nat (saved st)) < q)%Q).
    { apply Qnot_le_lt. intros C. apply Qle_bool_iff in C. congruence. }
    replace (Z.of_nat (saved st + 1)) with (Z.of_nat (saved st) + 1)%Z by lia.
    rewrite inject_Z_plus. apply Qplus_lt_l. exact Hlt. }
  unfold run. induction pieces as [|p pieces IH]; intros st H; simpl;
    [exact H|].
  apply IH. destruct p; simpl.
  - unfold handlePage. destruct (blocked (title_text pg)); simpl.
    + destruct session; exact H.
    + destruct (extractListings_returns (pageNoOf request) pg st)
        as [l [E | [-> E]]]; rewrite E; cbv beta iota; cbn [snd];
        rewrite dedupAndSave_saved; apply L; exact H.
  - rewrite paginate_saved. exact H.
Qed.

End RunFacts.

(* ================================================================== *)
(** ** Quota *)
(* ================================================================== *)

(** Of a page of admissible listings exactly as many are kept as the limit
    leaves room for, taken from the front. *)
Lemma dedupLoop_admissible (RW : Num) (z : Z) (listings : list Listing) :
  isInteger RW z ->
  forall (st : CrawlState) (acc : list Listing),
    admissible (seenUrls st) listings = true ->
    (Z.of_nat (saved st) <= z)%Z ->
    snd (dedupLoop RW listings st acc)
    = acc ++ firstn (Z.to_nat z - saved st) listings.
Proof.
  intros HZ. induction listings as [|l rest IH]; intros st acc Ha Hs.
  - simpl. rewrite firstn_nil. symmetry. apply app_nil_r.
  - simpl in Ha. apply andb_prop in Ha. destruct Ha as [Ha Hrest].
    simpl. rewrite (nat_ge_integer _ _ _ HZ).
    destruct (z <=? Z.of_nat (saved st))%Z eqn:E.
    + apply Z.leb_le in E.
      replace (Z.to_nat z - saved st) with 0 by lia.
      simpl. symmetry. apply app_nil_r.
    + apply Z.leb_gt in E. rewrite Ha.
      apply andb_prop in Ha. destruct Ha as [_ Hn].
      apply negb_true_iff in Hn.
      rewrite IH.
      * simpl.
        replace (Z.to_nat z - saved st) with (S (Z.to_nat z - (saved st + 1)))
          by lia.
        simpl. rewrite <- app_assoc. reflexivity.
      * simpl. unfold add. rewrite Hn. exact Hrest.
      * simpl. lia.
Qed.

(** C1. In every run the counter starts at 0, equals the number of listings
    handed to the dataset, and never exceeds an integer [resultsWanted];
    once it has reached the limit the loop keeps, records and emits nothing
    more, also in the middle of a page, and pagination enqueues no page; of
    a page of admissible listings exactly the first [resultsWanted - saved]
    are kept; the seen set is only ever appended to. *)
Theorem quota_invariant {RT : JsRuntime} (RW MP : Num) (z : Z)
  (pieces : list Piece) :
  atLeastOne RW -> isInteger RW z ->
  let st := run RW MP pieces initialState in
  saved initialState = 0
  /\ saved st = List.length (emitted (calls st))
  /\ (Z.of_nat (saved st) <= z)%Z
  /\ (forall listings st0 acc,
         nat_ge (saved st0) RW = true ->
         dedupLoop RW listings st0 acc = (st0, acc))
  /\ (forall l1 l2 st0 acc,
         nat_ge (saved (fst (dedupLoop RW l1 st0 acc))) RW = true ->
         dedupLoop RW (l1 ++ l2) st0 acc = dedupLoop RW l1 st0 acc)
  /\ (forall listings st0,
         admissible (seenUrls st0) listings = true ->
         (Z.of_nat (saved st0) <= z)%Z ->
         snd (dedupLoop RW listings st0 [])
         = firstn (Z.to_nat z - saved st0) listings)
  /\ (forall request st0,
         nat_ge (saved st0) RW = true ->
         paginate RW MP request st0 = (Ret tt, st0))
  /\ (forall more, exists keys',
         seenUrls (run RW MP (pieces ++ more) initialState)
         = seenUrls st ++ keys').
Proof.
  intros H1 HZ st.
  assert (Hz : (0 <= z)%Z).
  { destruct RW as [q| | |]; simpl in *; try contradiction.
    rewrite HZ in H1. change 1%Q with (inject_Z 1) in H1.
    rewrite <- Zle_Qle in H1. lia. }
  split; [reflexivity|].
  split.
  { destruct (run_after RW MP pieces initialState) as (ks & new & S & _ & E).
    fold st in S, E. rewrite S, E. reflexivity. }
  split.
  { apply run_bound; [exact HZ | simpl; lia]. }
  split; [intros; apply dedupLoop_full; assumption|].
  split; [intros; apply dedupLoop_stops; assumption|].
  split.
  { intros listings st0 Ha Hs.
    rewrite (dedupLoop_admissible RW z listings HZ st0 [] Ha Hs). reflexivity. }
  split; [intros; apply paginate_full; assumption|].
  intros more. rewrite run_app. fold st.
  destruct (run_after RW MP more st) as (ks & new & _ & K & _).
  exists ks. exact K.
Qed.

(* ================================================================== *)
(** ** Deduplication *)
(* ================================================================== *)

Section DedupFacts.
Variable RW : Num.

(** A listing whose key is not truthy is passed over: the loop behaves as
    if it were not in the page. *)
Lemma dedupLoop_skip_falsy (b : Listing) (l3 : list Listing) :
  truthy (listingKey b) = false ->
  forall (l1 : list Listing) (st : CrawlState) (acc : list Listing),
    dedupLoop RW (l1 ++ b :: l3) st acc = dedupLoop RW (l1 ++ l3) st acc.
Proof.
  intros Hb l1 st acc. rewrite !dedupLoop_app.
  destruct (dedupLoop RW l1 st acc) as [st1 acc1]. simpl.
  rewrite Hb. simpl.
  destruct (nat_ge (saved st1) RW) eqn:E; [|reflexivity].
  symmetry. apply dedupLoop_full. exact E.
Qed.

(** A listing whose key is already in the set is passed over likewise. *)
Lemma dedupLoop_skip_seen (b : Listing) (l3 : list Listing) :
  forall (l2 : list Listing) (st : CrawlState) (acc : list Listing),
    has (listingKey b) (seenUrls st) = true ->
    dedupLoop RW (l2 ++ b :: l3) st acc = dedupLoop RW (l2 ++ l3) st acc.
Proof.
  induction l2 as [|x l2 IH]; intros st acc Hb; simpl.
  - rewrite Hb, andb_false_r.
    destruct (nat_ge (saved st) RW) eqn:E; [|reflexivity].
    symmetry. apply dedupLoop_full. exact E.
  - destruct (nat_ge (saved st) RW); [reflexivity|].
    destruct (truthy (listingKey x) && negb (has (listingKey x) (seenUrls st))).
    + apply IH. simpl. apply has_add_mono. exact Hb.
    + apply IH. exact Hb.
Qed.

Lemma dedupLoop_second_rejected (a b : Listing) (l1 l2 l3 : list Listing)
  (st : CrawlState) (acc : list Listing) :
  sameValueZero (listingKey a) (listingKey b) = true ->
  dedupLoop RW (l1 ++ a :: l2 ++ b :: l3) st acc
  = dedupLoop RW (l1 ++ a :: l2 ++ l3) st acc.
Proof.
  intros Hab.
  destruct (truthy (listingKey b)) eqn:Hb.
  2:{ change (l1 ++ a :: l2 ++ b :: l3) with (l1 ++ (a :: l2) ++ b :: l3).
      change (l1 ++ a :: l2 ++ l3) with (l1 ++ (a :: l2) ++ l3).
      rewrite !app_assoc. apply dedupLoop_skip_falsy. exact Hb. }
  assert (Ha : truthy (listingKey a) = true)
    by (rewrite (sameValueZero_truthy _ _ Hab); exact Hb).
  rewrite !(dedupLoop_app RW l1).
  destruct (dedupLoop RW l1 st acc) as [st1 acc1]. simpl.
  destruct (nat_ge (saved st1) RW); [reflexivity|].
  rewrite Ha. simpl.
  destruct (has (listingKey a) (seenUrls st1)) eqn:E; simpl.
  - apply dedupLoop_skip_seen.
    rewrite <- (has_same _ _ _ Hab). exact E.
  - apply dedupLoop_skip_seen. simpl.
    rewrite <- (has_same _ _ _ Hab), has_add, E. simpl.
    assert (Haa : sameValueZero (listingKey a) (listingKey a) = true).
    { apply (sameValueZero_trans _ (listingKey b)); [exact Hab|].
      rewrite sameValueZero_sym. exact Hab. }
    rewrite Haa. reflexivity.
Qed.

End DedupFacts.

Lemma listingKey_url (l : Listing) :
  truthy (lookup "url" l) = true -> listingKey l = lookup "url" l.
Proof.
  intros H. unfold listingKey, or_val. rewrite H. simpl. rewrite H.
  reflexivity.
Qed.

Lemma listingKey_falsy (l : Listing) :
  truthy (lookup "url" l) = false ->
  truthy (lookup "full_address" l) = false ->
  truthy (lookup "address" l) = false ->
  truthy (listingKey l) = false.
Proof.
  intros H1 H2 H3. unfold listingKey, or_val. rewrite H1, H2. exact H3.
Qed.

(** C2. In a page that holds two listings with the same key, the later one
    is rejected: the loop ends in the state and with the batch it would have
    without it.  The first one is kept when the limit is not reached and its
    key is truthy and new.  Two listings with the same non-empty string
    [url] have the same key.  A listing whose [url], [full_address] and
    [address] are all null or absent has no key and is rejected: not
    emitted, not counted and not recorded. *)
Theorem dedup_first_wins (RW : Num) (a b : Listing) (l1 l2 l3 : list Listing)
  (st : CrawlState) (acc : list Listing) :
  (sameValueZero (listingKey a) (listingKey b) = true ->
   dedupLoop RW (l1 ++ a :: l2 ++ b :: l3) st acc
   = dedupLoop RW (l1 ++ a :: l2 ++ l3) st acc)
  /\ (nat_ge (saved st) RW = false ->
      truthy (listingKey a) = true ->
      has (listingKey a) (seenUrls st) = false ->
      dedupLoop RW (a :: l2) st acc
      = dedupLoop RW l2
          {| saved := saved st + 1;
             seenUrls := seenUrls st ++ [listingKey a];
             calls := calls st |}
          (acc ++ [a]))
  /\ (forall u, isEmptyString u = false ->
      lookup "url" a = Str u -> lookup "url" b = Str u ->
      truthy (listingKey a) = true
      /\ sameValueZero (listingKey a) (listingKey b) = true)
  /\ (nullish (lookup "url" b) = true ->
      nullish (lookup "full_address" b) = true ->
      nullish (lookup "address" b) = true ->
      nullish (listingKey b) = true
      /\ dedupLoop RW (l1 ++ b :: l3) st acc = dedupLoop RW (l1 ++ l3) st acc).
Proof.
  split; [apply dedupLoop_second_rejected|].
  split.
  { intros Hq Ha Hn. simpl. rewrite Hq, Ha, Hn. simpl.
    unfold add. rewrite Hn. reflexivity. }
  split.
  { intros u Hu Ea Eb.
    assert (Ta : truthy (lookup "url" a) = true) by (rewrite Ea; simpl; now rewrite Hu).
    assert (Tb : truthy (lookup "url" b) = true) by (rewrite Eb; simpl; now rewrite Hu).
    rewrite (listingKey_url a Ta), (listingKey_url b Tb), Ea, Eb. simpl.
    rewrite Hu, String.eqb_refl. auto. }
  intros Hu Hf Ha.
  assert (N : forall v, nullish v = true -> truthy v = false)
    by (intros v; destruct v; simpl; congruence).
  split.
  - unfold listingKey, or_val. rewrite (N _ Hu), (N _ Hf). exact Ha.
  - apply dedupLoop_skip_falsy. apply listingKey_falsy; apply N; assumption.
Qed.

(* ================================================================== *)
(** ** Records built by the strategies *)
(* ================================================================== *)

Lemma truthy_nullOrTruthy (v : Val) : truthy v = true -> nullOrTruthy v = true.
Proof. destruct v; simpl; auto. Qed.

Lemma or_null_ok (a : Val) : nullOrTruthy (a ||| Null) = true.
Proof.
  unfold or_val. destruct (truthy a) eqn:E; [|reflexivity].
  apply truthy_nullOrTruthy. exact E.
Qed.

Lemma or_or_null_ok (a b : Val) : nullOrTruthy (a ||| b ||| Null) = true.
Proof. apply or_null_ok. Qed.

Lemma or_null_string (a : Val) :
  isStringOrNull a = true \/ a = Undefined -> isStringOrNull (a ||| Null) = true.
Proof.
  unfold or_val. intros [H | ->]; [|reflexivity].
  destruct (truthy a); [exact H | reflexivity].
Qed.

Create HintDb fields.

#[local] Hint Resolve or_null_ok or_or_null_ok truthy_nullOrTruthy : fields.

(** Opens a bind that is known to return. *)
Ltac open_bind H :=
  match type of H with
  | bind ?m _ = Ret _ =>
      let E := fresh "E" in
      destruct m eqn:E; simpl in H; [|discriminate H]
  end.

Ltac open_binds H := repeat open_bind H.

Section RecordFacts.
Context {RT : JsRuntime}.

Lemma replaceCall_string (f : string -> string) (v r : Val) :
  replaceCall f v = Ret r -> isStringOrNull r = true \/ r = Undefined.
Proof.
  destruct v; simpl; intros [= <-]; auto.
Qed.

Lemma toStringCall_string (v r : Val) :
  toStringCall v = Ret r -> isStringOrNull r = true \/ r = Undefined.
Proof.
  unfold toStringCall. destruct (nullish v); [intros [= <-]; auto|].
  destruct (call_toString v); simpl; intros [= <-]; auto.
Qed.

(** [a || b || null] where [a] and [b] are results of the two calls. *)
Lemma replaced_or_string (f : string -> string) (x y r : Val) :
  (a <- replaceCall f x ;;
   if truthy a then Ret a
   else b <- toStringCall y ;; Ret (b ||| Null)) = Ret r ->
  isStringOrNull r = true /\ nullOrTruthy r = true.
Proof.
  intros H. open_binds H.
  destruct (truthy a) eqn:T.
  - injection H as <-. split; [|auto with fields].
    destruct (replaceCall_string _ _ _ E) as [S | ->]; [exact S | discriminate].
  - open_binds H. injection H as <-. split; [|auto with fields].
    apply or_null_string. eapply toStringCall_string. eassumption.
Qed.

Lemma field_price_ok (home r : Val) :
  field_price home = Ret r -> nullOrTruthy r = true.
Proof.
  unfold field_price. intros H. open_binds H.
  destruct (truthy (oget a "formattedPrice")) eqn:T.
  - injection H as <-. auto with fields.
  - destruct (truthy (oget a "price")); [|injection H as <-; reflexivity].
    open_binds H. injection H as <-. reflexivity.
Qed.

Lemma field_beds_ok (home r : Val) :
  field_beds home = Ret r -> isStringOrNull r = true /\ nullOrTruthy r = true.
Proof.
  unfold field_beds. intros H. open_bind H.
  eapply replaced_or_string. exact H.
Qed.

Lemma field_baths_ok (home r : Val) :
  field_baths home = Ret r -> isStringOrNull r = true /\ nullOrTruthy r = true.
Proof.
  unfold field_baths. intros H. open_bind H.
  eapply replaced_or_string. exact H.
Qed.

Lemma field_sqft_ok (home r : Val) :
  field_sqft home = Ret r -> isStringOrNull r = true /\ nullOrTruthy r = true.
Proof.
  unfold field_sqft. intros H. open_bind H.
  eapply replaced_or_string. exact H.
Qed.

Lemma field_lot_size_ok (home r : Val) :
  field_lot_size home = Ret r -> nullOrTruthy r = true.
Proof.
  unfold field_lot_size. intros H. open_binds H. injection H as <-.
  auto with fields.
Qed.

Lemma field_address_ok (home r : Val) :
  field_address home = Ret r -> nullOrTruthy r = true.
Proof.
  unfold field_address. intros H. open_binds H. injection H as <-.
  auto with fields.
Qed.

Lemma field_location_ok (k : string) (home r : Val) :
  field_location k home = Ret r -> nullOrTruthy r = true.
Proof.
  unfold field_location. intros H. open_binds H. injection H as <-.
  auto with fields.
Qed.

Lemma field_coordinate_ok (k : string) (home r : Val) :
  field_coordinate k home = Ret r -> nullOrTruthy r = true.
Proof.
  unfold field_coordinate. intros H. open_binds H. injection H as <-.
  auto with fields.
Qed.

Lemma field_property_type_ok (home r : Val) :
  field_property_type home = Ret r -> nullOrTruthy r = true.
Proof.
  unfold field_property_type. intros H. open_binds H. injection H as <-.
  auto with fields.
Qed.

Lemma field_listing_by_ok (home r : Val) :
  field_listing_by home = Ret r -> nullOrTruthy r = true.
Proof.
  unfold field_listing_by. intros H. open_binds H.
  match type of H with
  | (if truthy ?x then _ else _) = _ => destruct (truthy x) eqn:T
  end.
  - injection H as <-. auto with fields.
  - open_binds H. injection H as <-. auto with fields.
Qed.

Lemma field_description_ok (home r : Val) :
  field_description home = Ret r -> nullOrTruthy r = true.
Proof.
  unfold field_description. intros H. open_binds H. injection H as <-.
  auto with fields.
Qed.

Lemma field_image_url_ok (home r : Val) :
  field_image_url home = Ret r -> nullOrTruthy r = true.
Proof.
  unfold field_image_url. intros H. open_binds H.
  match type of H with
  | (if truthy ?x then _ else _) = _ => destruct (truthy x) eqn:T
  end.
  - injection H as <-. auto with fields.
  - open_binds H. injection H as <-. auto with fields.
Qed.

Lemma field_url_ok (home r : Val) :
  field_url home = Ret r -> isStringOrNull r = true /\ nullOrTruthy r = true.
Proof.
  unfold field_url. intros H. open_binds H.
  destruct (truthy a) eqn:T; [|injection H as <-; auto].
  destruct a; try discriminate H. injection H as <-. auto.
Qed.

(** Every record [homes.map] builds has the 17 fields of the literal, none
    undefined, with [beds], [baths], [sqft] and [url] a string or null. *)
Lemma mapHome_record (home : Val) (l : Listing) :
  mapHome home = Ret l -> nextDataRecord l.
Proof.
  unfold mapHome. intros H. open_binds H. injection H as <-.
  repeat match goal with
         | E : field_price _ = Ret _ |- _ => apply field_price_ok in E
         | E : field_beds _ = Ret _ |- _ => apply field_beds_ok in E; destruct E
         | E : field_baths _ = Ret _ |- _ => apply field_baths_ok in E; destruct E
         | E : field_sqft _ = Ret _ |- _ => apply field_sqft_ok in E; destruct E
         | E : field_lot_size _ = Ret _ |- _ => apply field_lot_size_ok in E
         | E : field_address _ = Ret _ |- _ => apply field_address_ok in E
         | E : field_location _ _ = Ret _ |- _ => apply field_location_ok in E
         | E : field_coordinate _ _ = Ret _ |- _ => apply field_coordinate_ok in E
         | E : field_property_type _ = Ret _ |- _ => apply field_property_type_ok in E
         | E : field_listing_by _ = Ret _ |- _ => apply field_listing_by_ok in E
         | E : field_description _ = Ret _ |- _ => apply field_description_ok in E
         | E : field_image_url _ = Ret _ |- _ => apply field_image_url_ok in E
         | E : field_url _ = Ret _ |- _ => apply field_url_ok in E; destruct E
         end.
  unfold nextDataRecord, neverUndefined. simpl.
  repeat split; try assumption.
  repeat match goal with H : nullOrTruthy _ = true |- _ => rewrite H; clear H end.
  reflexivity.
Qed.

Lemma mapM_Forall {A B : Type} (f : A -> Outcome B) (P : B -> Prop) :
  (forall x y, f x = Ret y -> P y) ->
  forall l ys, mapM f l = Ret ys -> Forall P ys.
Proof.
  intros Hf. induction l as [|x l IH]; intros ys H; simpl in H.
  - injection H as <-. constructor.
  - open_binds H. injection H as <-. constructor; eauto.
Qed.

Lemma extractFromNextData_records (pg : Page) (listings : list Listing) :
  extractFromNextData pg = Ret (Some listings) ->
  Forall nextDataRecord listings.
Proof.
  unfold extractFromNextData, try_catch.
  destruct (extractFromNextData_body pg) as [r|e] eqn:B; [|discriminate].
  intros [= ->]. unfold extractFromNextData_body in B.
  destruct (nextDataScript pg); [|discriminate].
  open_binds B.
  match type of B with
  | (if negb (truthy ?x) then _ else _) = _ => destruct (negb (truthy x))
  end; [discriminate|].
  open_binds B. destruct a0; try discriminate. open_binds B.
  injection B as <-.
  eapply mapM_Forall; [|eassumption]. apply mapHome_record.
Qed.

End RecordFacts.

Lemma jsonLdRecord_record (item : Val) : linkedDataRecord (jsonLdRecord item).
Proof.
  unfold linkedDataRecord, neverUndefined, jsonLdRecord. simpl.
  split; [reflexivity|].
  rewrite !or_null_ok. reflexivity.
Qed.

Lemma forItems_Forall (P : Listing -> Prop) :
  (forall item, P (jsonLdRecord item)) ->
  forall items listings,
    Forall P listings -> Forall P (fst (forItems items listings)).
Proof.
  intros HP. induction items as [|item items IH]; intros listings H; simpl.
  - exact H.
  - destruct (isListingItem item) as [[|]|e]; simpl.
    + apply IH. apply Forall_app. split; [exact H|]. constructor; [apply HP|constructor].
    + apply IH. exact H.
    + exact H.
Qed.

Lemma eachLdScript_Forall (P : Listing -> Prop) :
  (forall item, P (jsonLdRecord item)) ->
  forall scripts listings,
    Forall P listings -> Forall P (fold_left eachLdScript scripts listings).
Proof.
  intros HP. induction scripts as [|el scripts IH]; intros listings H; simpl.
  - exact H.
  - apply IH. unfold eachLdScript.
    destruct (JSON_parse el); [|exact H].
    apply forItems_Forall; assumption.
Qed.

Lemma extractFromJsonLd_records (pg : Page) (listings : list Listing) :
  extractFromJsonLd pg = Some listings -> Forall linkedDataRecord listings.
Proof.
  unfold extractFromJsonLd.
  destruct (0 <? List.length (fold_left eachLdScript (ldJsonScripts pg) []))%nat;
    [|discriminate].
  intros [= <-]. apply eachLdScript_Forall; [apply jsonLdRecord_record|constructor].
Qed.

(* ================================================================== *)
(** ** Extraction: totality, priority, record shape *)
(* ================================================================== *)

Lemma get_truthy (v : Val) (k : string) :
  truthy v = true -> get v k = Ret (oget v k).
Proof. destruct v; simpl; try discriminate; reflexivity. Qed.

Lemma fold_malformed (scripts : list Parsed) (listings : list Listing) :
  Forall (fun el => el = Malformed) scripts ->
  fold_left eachLdScript scripts listings = listings.
Proof.
  intros H. revert listings.
  induction H as [|el scripts -> _ IH]; intros listings; simpl;
    [reflexivity | apply IH].
Qed.

Section ExtractionTheorems.
Context {RT : JsRuntime}.

Lemma noHomesArray_null (pg : Page) (json : Val) :
  nextDataScript pg = Some (Json json) -> noHomesArray json ->
  extractFromNextData pg = Ret None.
Proof.
  intros Hs Hn. unfold extractFromNextData, extractFromNextData_body.
  rewrite Hs. simpl. unfold noHomesArray in Hn. simpl in Hn.
  destruct Hn as [Hn | Hn].
  - rewrite Hn. reflexivity.
  - match goal with
    | |- context [negb (truthy ?x)] => destruct (truthy x) eqn:T
    end; [|reflexivity].
    simpl. rewrite (get_truthy _ _ T). simpl.
    match type of Hn with
    | isArray ?h = false => destruct h; try reflexivity; discriminate
    end.
Qed.

(** C8. Neither strategy throws, whatever the page: the embedded-data
    strategy catches every exception of its body and the linked-data
    strategy skips a script that does not parse, so the extraction step of
    the handler always returns a list.  On a page with no script that
    parses, both strategies return null and the list is empty. *)
Theorem extract_never_throws (pg : Page) (pageNo : nat) (st : CrawlState) :
  (exists r, extractFromNextData pg = Ret r)
  /\ (forall listings, eachLdScript listings Malformed = listings)
  /\ (exists listings st', extractListings pageNo pg st = Ret (listings, st'))
  /\ (garbage pg ->
      extractFromNextData pg = Ret None
      /\ extractFromJsonLd pg = None
      /\ extractListings pageNo pg st = Ret ([], call (SetValue pageNo) st)).
Proof.
  split; [apply extractFromNextData_returns|].
  split; [reflexivity|].
  split.
  { destruct (extractListings_returns pageNo pg st) as [l [E | [-> E]]];
      rewrite E; eauto. }
  intros [Hn Hl].
  assert (A : extractFromNextData pg = Ret None).
  { unfold extractFromNextData, extractFromNextData_body.
    destruct Hn as [-> | ->]; reflexivity. }
  assert (B : extractFromJsonLd pg = None).
  { unfold extractFromJsonLd. rewrite (fold_malformed _ _ Hl). reflexivity. }
  repeat split; try assumption.
  unfold extractListings. rewrite A. simpl. rewrite B. reflexivity.
Qed.

(** C5. The strategies are tried in a fixed order and the first non-empty
    result is the page's result: what the embedded-data strategy returns is
    kept whenever it is non-empty, and the linked-data result is used only
    when it is not.  On a page whose embedded-data script parses but holds no
    listings array, and whose linked-data scripts hold two
    [RealEstateListing] items, the result is exactly the two records of
    those items. *)
Theorem strategy_priority (pg : Page) (pageNo : nat) (st : CrawlState) :
  (forall l ls,
      extractFromNextData pg = Ret (Some (l :: ls)) ->
      extractListings pageNo pg st = Ret (l :: ls, st))
  /\ (forall r l ls,
      extractFromNextData pg = Ret r -> nonEmpty r = false ->
      extractFromJsonLd pg = Some (l :: ls) ->
      extractListings pageNo pg st = Ret (l :: ls, st))
  /\ (forall json i1 i2,
      nextDataScript pg = Some (Json json) -> noHomesArray json ->
      oget i1 "@type" = Str "RealEstateListing" ->
      oget i2 "@type" = Str "RealEstateListing" ->
      ldJsonScripts pg = [Json (Arr [i1; i2])]
      \/ ldJsonScripts pg = [Json i1; Json i2] ->
      extractFromNextData pg = Ret None
      /\ extractFromJsonLd pg = Some [jsonLdRecord i1; jsonLdRecord i2]
      /\ extractListings pageNo pg st
         = Ret ([jsonLdRecord i1; jsonLdRecord i2], st)).
Proof.
  split.
  { intros l ls E. unfold extractListings. rewrite E. reflexivity. }
  split.
  { intros r l ls E Hr B. unfold extractListings. rewrite E. simpl.
    rewrite Hr, B. reflexivity. }
  intros json i1 i2 Hs Hn T1 T2 Hl.
  assert (A : extractFromNextData pg = Ret None)
    by (eapply noHomesArray_null; eassumption).
  assert (I1 : isListingItem i1 = Ret true).
  { unfold isListingItem, get. destruct i1; try discriminate T1.
    simpl in *. rewrite T1. reflexivity. }
  assert (I2 : isListingItem i2 = Ret true).
  { unfold isListingItem, get. destruct i2; try discriminate T2.
    simpl in *. rewrite T2. reflexivity. }
  assert (B : extractFromJsonLd pg = Some [jsonLdRecord i1; jsonLdRecord i2]).
  { assert (S1 : forall ls, eachLdScript ls (Json i1) = ls ++ [jsonLdRecord i1]).
    { intros ls. unfold eachLdScript. destruct i1; try discriminate T1.
      cbn [JSON_parse forItems]. rewrite I1. reflexivity. }
    assert (S2 : forall ls, eachLdScript ls (Json i2) = ls ++ [jsonLdRecord i2]).
    { intros ls. unfold eachLdScript. destruct i2; try discriminate T2.
      cbn [JSON_parse forItems]. rewrite I2. reflexivity. }
    unfold extractFromJsonLd. destruct Hl as [-> | ->].
    - unfold eachLdScript. cbn [fold_left JSON_parse forItems].
      rewrite I1. cbn [forItems]. rewrite I2. reflexivity.
    - cbn [fold_left]. rewrite S1, S2. reflexivity. }
  repeat split; try assumption.
  unfold extractListings. rewrite A. simpl. rewrite B. reflexivity.
Qed.

(** C3, as the code has it. The embedded-data strategy always returns, and
    each record it returns has exactly 17 fields, the 13 canonical ones and
    [full_address], [latitude], [longitude], [description]; each record of
    the linked-data strategy has exactly the 7 fields [price], [address],
    [city], [state], [zip_code], [url], [image_url], all canonical.  No
    field of either is ever undefined: each is null or a truthy value, and
    [beds], [baths], [sqft] and [url] of an embedded-data record are a
    string or null. *)
Theorem record_fields (pg : Page) :
  (exists r, extractFromNextData pg = Ret r
             /\ forall listings, r = Some listings ->
                                 Forall nextDataRecord listings)
  /\ (forall listings, extractFromJsonLd pg = Some listings ->
                       Forall linkedDataRecord listings)
  /\ incl canonicalFields nextDataFields
  /\ incl jsonLdFields canonicalFields.
Proof.
  split.
  { destruct (extractFromNextData_returns pg) as [r E]. exists r.
    split; [exact E|]. intros listings ->.
    apply (extractFromNextData_records pg). exact E. }
  split; [apply (extractFromJsonLd_records pg)|].
  split; intros x H; simpl in *; tauto.
Qed.

End ExtractionTheorems.

(* ================================================================== *)
(** ** Noise records *)
(* ================================================================== *)

Section NoiseFacts.
Context {RT : JsRuntime}.

Lemma cardListing_not_noise (baseUrl : string) (card : Card) (l : Listing) :
  cardListing baseUrl card = Ret (Some l) -> isNoise l = false.
Proof.
  unfold cardListing. intros H. open_bind H.
  match type of H with
  | (if ?g then _ else _) = _ => destruct g eqn:G
  end; [|discriminate H].
  injection H as <-. unfold isNoise. simpl.
  rewrite <- negb_orb, <- negb_orb. apply negb_false_iff. exact G.
Qed.

Lemma extractFromHtml_not_noise (baseUrl : string) (cards : list Card)
  (l : Listing) :
  In l (extractFromHtml baseUrl cards) -> isNoise l = false.
Proof.
  induction cards as [|card cards IH]; simpl; [contradiction|].
  destruct (cardListing baseUrl card) as [[l'|]|e] eqn:E; simpl; auto.
  intros [<- | H]; [|auto].
  eapply cardListing_not_noise. exact E.
Qed.

End NoiseFacts.

Lemma jsonLdRecord_noise_key (item : Val) :
  isNoise (jsonLdRecord item) = true ->
  truthy (listingKey (jsonLdRecord item)) = false.
Proof.
  unfold isNoise. intros H.
  apply andb_prop in H. destruct H as [H Hu].
  apply andb_prop in H. destruct H as [_ Ha].
  apply negb_true_iff in Hu. apply negb_true_iff in Ha.
  apply listingKey_falsy; [exact Hu | reflexivity | exact Ha].
Qed.

(** C4, as the code has it. Only the card strategy of [extractFromHtml]
    drops a record with none of price, address and url.  The two strategies
    of the page handler pass every record on, and the deduplication loop
    rejects a record whose [url], [full_address] and [address] are all
    null; a linked-data record with none of price, address and url is such a
    record, so it is never emitted. *)
Theorem noise_records {RT : JsRuntime} (RW : Num) :
  (forall baseUrl cards l,
      In l (extractFromHtml baseUrl cards) -> isNoise l = false)
  /\ (forall b l1 l3 st acc,
      truthy (lookup "url" b) = false ->
      truthy (lookup "full_address" b) = false ->
      truthy (lookup "address" b) = false ->
      dedupLoop RW (l1 ++ b :: l3) st acc = dedupLoop RW (l1 ++ l3) st acc)
  /\ (forall item l1 l3 st acc,
      isNoise (jsonLdRecord item) = true ->
      dedupLoop RW (l1 ++ jsonLdRecord item :: l3) st acc
      = dedupLoop RW (l1 ++ l3) st acc).
Proof.
  split; [apply extractFromHtml_not_noise|].
  split.
  - intros. apply dedupLoop_skip_falsy. apply listingKey_falsy; assumption.
  - intros. apply dedupLoop_skip_falsy. apply jsonLdRecord_noise_key.
    assumption.
Qed.

(* ================================================================== *)
(** ** Pagination *)
(* ================================================================== *)

Lemma endsWithSlash_app (p : string) : endsWithSlash (p ++ "/") = true.
Proof.
  induction p as [|c p IH]; [reflexivity|].
  change ((String c p ++ "/")%string) with (String c (p ++ "/")).
  simpl. destruct (p ++ "/")%string eqn:E; [|exact IH].
  destruct p; discriminate E.
Qed.

Section PaginationFacts.
Context {RT : JsRuntime}.

Lemma buildNextPageUrl_parsed (currentUrl : string) (currentPage : nat)
  (u : URL) :
  URL_parse currentUrl = Some u ->
  exists base,
    endsWithSlash base = true
    /\ buildNextPageUrl currentUrl currentPage
       = Ret (Some (href (URL_set_pathname u
                            (base ++ decimal (currentPage + 1) ++ "_p/")))).
Proof.
  intros H. unfold buildNextPageUrl, buildNextPageUrl_body, newURL.
  rewrite H. simpl.
  destruct (endsWithSlash (stripPageSegment (pathname u))) eqn:E.
  - exists (stripPageSegment (pathname u)). split; [exact E | reflexivity].
  - exists (stripPageSegment (pathname u) ++ "/")%string.
    split; [apply endsWithSlash_app | reflexivity].
Qed.

Lemma buildNextPageUrl_assigned (currentUrl : string) (currentPage : nat)
  (u : URL) :
  URL_parse currentUrl = Some u ->
  exists base,
    endsWithSlash base = true
    /\ buildNextPageUrl currentUrl currentPage
       = Ret (Some (href (URL_set_pathname u
                            (base ++ decimal (currentPage + 1) ++ "_p/"))))
    /\ (URL_set_pathname u (base ++ decimal (currentPage + 1) ++ "_p/")
        = set_pathname u (base ++ decimal (currentPage + 1) ++ "_p/") ->
        buildNextPageUrl currentUrl currentPage
        = Ret (Some (url_prefix u
                     ++ (base ++ decimal (currentPage + 1) ++ "_p/")
                     ++ url_suffix u)%string))
    /\ (URL_set_pathname u (base ++ decimal (currentPage + 1) ++ "_p/") = u ->
        buildNextPageUrl currentUrl currentPage = Ret (Some (href u))).
Proof.
  intros H.
  destruct (buildNextPageUrl_parsed currentUrl currentPage u H)
    as (base & Hb & E).
  exists base. split; [exact Hb|]. split; [exact E|].
  split; intros S; rewrite E, S; reflexivity.
Qed.

Lemma buildNextPageUrl_null (currentUrl : string) (currentPage : nat) :
  buildNextPageUrl currentUrl currentPage = Ret None
  <-> URL_parse currentUrl = None.
Proof.
  split.
  - intros H. destruct (URL_parse currentUrl) as [u|] eqn:E; [|reflexivity].
    destruct (buildNextPageUrl_parsed currentUrl currentPage u E) as (b & _ & F).
    rewrite F in H. discriminate H.
  - intros H. unfold buildNextPageUrl, buildNextPageUrl_body, newURL.
    rewrite H. reflexivity.
Qed.

Lemma pageCounterUrl_null (currentUrl : string) (currentPage : nat) :
  pageCounterUrl currentUrl currentPage = Ret None
  <-> exists u,
        URL_parse currentUrl = Some u
        /\ includes "_p/" (pathname u) = true
        /\ includes ("/" ++ decimal currentPage ++ "_p/") (pathname u) = false.
Proof.
  unfold pageCounterUrl, newURL. split.
  - destruct (URL_parse currentUrl) as [u|]; cbn [bind]; [|discriminate].
    destruct (includes ("/" ++ decimal currentPage ++ "_p/") (pathname u))
      eqn:I1; [discriminate|].
    destruct (includes "_p/" (pathname u)) eqn:I2; cbn [negb];
      [|discriminate].
    intros _. exists u. auto.
  - intros (u & -> & H1 & H2). cbn [bind]. rewrite H2, H1. reflexivity.
Qed.

End PaginationFacts.

(** C6, as the code has it. [buildNextPageUrl] of the page handler has the
    page-counter strategy only: it never throws, returns null exactly when
    parsing the current URL throws, and otherwise returns the address of the
    current URL after its path is assigned one that ends in the next page's
    segment: a URL with that path, scheme, host, query and fragment kept,
    when the assignment stores the path, and the current URL as it is when
    the assignment does nothing, as on a URL with an opaque path.
    [findNextPage] of the older main.js returns an explicit next link first
    (resolved against the current URL when it is relative, which can throw)
    and falls back to the page counter; that fallback returns null as an
    ordinary value exactly when the path holds a [_p/] segment that is not
    the current page's, and lets the exception of an unparsable URL
    through. *)
Theorem next_page_url {RT : JsRuntime} (currentUrl : string)
  (currentPage : nat) :
  (exists r, buildNextPageUrl currentUrl currentPage = Ret r)
  /\ (buildNextPageUrl currentUrl currentPage = Ret None
      <-> URL_parse currentUrl = None)
  /\ (forall u, URL_parse currentUrl = Some u ->
      exists base,
        endsWithSlash base = true
        /\ buildNextPageUrl currentUrl currentPage
           = Ret (Some (href (URL_set_pathname u
                                (base ++ decimal (currentPage + 1) ++ "_p/"))))
        /\ (URL_set_pathname u (base ++ decimal (currentPage + 1) ++ "_p/")
            = set_pathname u (base ++ decimal (currentPage + 1) ++ "_p/") ->
            buildNextPageUrl currentUrl currentPage
            = Ret (Some (url_prefix u
                         ++ (base ++ decimal (currentPage + 1) ++ "_p/")
                         ++ url_suffix u)%string))
        /\ (URL_set_pathname u (base ++ decimal (currentPage + 1) ++ "_p/")
            = u ->
            buildNextPageUrl currentUrl currentPage = Ret (Some (href u))))
  /\ (forall l, isEmptyString l = false -> startsWith "http" l = true ->
      findNextPage (Some l) currentUrl currentPage = Ret (Some l))
  /\ (forall l, isEmptyString l = false -> startsWith "http" l = false ->
      findNextPage (Some l) currentUrl currentPage
      = match URL_resolve l currentUrl with
        | Some h => Ret (Some h)
        | None => Throw TypeError
        end)
  /\ findNextPage None currentUrl currentPage
     = pageCounterUrl currentUrl currentPage
  /\ findNextPage (Some EmptyString) currentUrl currentPage
     = pageCounterUrl currentUrl currentPage
  /\ (pageCounterUrl currentUrl currentPage = Ret None
      <-> exists u,
            URL_parse currentUrl = Some u
            /\ includes "_p/" (pathname u) = true
            /\ includes ("/" ++ decimal currentPage ++ "_p/") (pathname u)
               = false)
  /\ (URL_parse currentUrl = None ->
      pageCounterUrl currentUrl currentPage = Throw TypeError).
Proof.
  split; [apply buildNextPageUrl_returns|].
  split; [apply buildNextPageUrl_null|].
  split; [apply buildNextPageUrl_assigned|].
  split; [intros l H1 H2; simpl; rewrite H1, H2; reflexivity|].
  split; [intros l H1 H2; simpl; rewrite H1, H2; reflexivity|].
  split; [reflexivity|].
  split; [reflexivity|].
  split; [apply pageCounterUrl_null|].
  intros H. unfold pageCounterUrl, newURL. rewrite H. reflexivity.
Qed.

(* ================================================================== *)
(** ** Blocked pages *)
(* ================================================================== *)

(** C7. On a page whose title contains one of the three signatures the
    handler throws before it extracts anything: its outcome is the error,
    whatever else the page holds; nothing is saved, recorded, pushed or
    enqueued, the only call made is the retirement of the session, and the
    page's URL is not recorded as seen, so the crawler may retry it. *)
Theorem blocked_page {RT : JsRuntime} (RW MP : Num) (request : Request)
  (pg : Page) (session : bool) (st : CrawlState) :
  includes "Access Denied" (title_text pg) = true
  \/ includes "Captcha" (title_text pg) = true
  \/ includes "Robot" (title_text pg) = true ->
  let st' := if session then call Retire st else st in
  requestHandler RW MP request pg session st
  = (Throw (Error "Blocked by anti-bot protection"), st')
  /\ saved st' = saved st
  /\ seenUrls st' = seenUrls st
  /\ emitted (calls st') = emitted (calls st)
  /\ enqueued (calls st') = enqueued (calls st)
  /\ (session = true -> calls st' = calls st ++ [Retire])
  /\ (forall pg', title_text pg' = title_text pg ->
      requestHandler RW MP request pg' session st
      = requestHandler RW MP request pg session st).
Proof.
  intros H st'.
  assert (B : blocked (title_text pg) = true).
  { unfold blocked. destruct H as [-> | [-> | ->]];
      rewrite ?orb_true_r; reflexivity. }
  assert (R : forall pg', title_text pg' = title_text pg ->
    requestHandler RW MP request pg' session st
    = (Throw (Error "Blocked by anti-bot protection"), st')).
  { intros pg' T. unfold requestHandler, handlePage. rewrite T, B.
    reflexivity. }
  split; [apply R; reflexivity|].
  subst st'. destruct session; simpl;
    rewrite ?emitted_app, ?enqueued_app, ?app_nil_r;
    repeat split; try reflexivity; try discriminate;
    intros pg' T; rewrite (R pg' T), (R pg eq_refl); reflexivity.
Qed.

(* ================================================================== *)
(** ** One set for listing keys and page URLs *)
(* ================================================================== *)

(** C9, as the code has it. Page URLs and listing keys are recorded in the
    one set [seenUrls].  With room under both limits, the next page is
    enqueued, and its URL recorded, exactly when that URL is not in the set;
    a listing whose key is in the set is rejected, whether the key got there
    as a listing key or as a page URL; keeping a listing puts its key where
    the page test looks.  Only a key that differs from [k] leaves the
    membership of [k] unchanged. *)
Theorem shared_seen_set {RT : JsRuntime} (RW MP : Num) (request : Request)
  (st : CrawlState) :
  (forall u,
      buildNextPageUrl (url request) (pageNoOf request) = Ret (Some u) ->
      isEmptyString u = false ->
      nat_lt (saved st) RW = true -> nat_lt (pageNoOf request) MP = true ->
      paginate RW MP request st
      = (Ret tt,
         if has (Str u) (seenUrls st) then st
         else call (EnqueueLinks u (pageNoOf request + 1))
                {| saved := saved st;
                   seenUrls := seenUrls st ++ [Str u];
                   calls := calls st |}))
  /\ (forall b l1 l3 acc,
      has (listingKey b) (seenUrls st) = true ->
      dedupLoop RW (l1 ++ b :: l3) st acc = dedupLoop RW (l1 ++ l3) st acc)
  /\ (forall a k,
      nat_ge (saved st) RW = false -> truthy (listingKey a) = true ->
      sameValueZero k (listingKey a) = true ->
      has k (seenUrls (fst (dedupLoop RW [a] st []))) = true)
  /\ (forall k k',
      sameValueZero k k' = false ->
      has k (add k' (seenUrls st)) = has k (seenUrls st)).
Proof.
  split.
  { intros u B Hu H1 H2. unfold paginate. rewrite H1, H2, B, Hu. simpl.
    destruct (has (Str u) (seenUrls st)) eqn:E; simpl; [reflexivity|].
    unfold add. rewrite E. reflexivity. }
  split; [intros; apply dedupLoop_skip_seen; assumption|].
  split; [|intros; apply has_add_other; assumption].
  intros a k Hq Ha Hk. simpl. rewrite Hq, Ha. simpl.
  destruct (has (listingKey a) (seenUrls st)) eqn:E; simpl.
  - rewrite (has_same _ _ _ Hk). exact E.
  - rewrite has_add, E, Hk. simpl. apply orb_true_r.
Qed.

(* ================================================================== *)
(** ** Effective limits *)
(* ================================================================== *)

(** C10. Whatever the input, each effective limit is a finite number and at
    least 1.  Computing it returns unless the raw value is an array or an
    object, whose coercion is the runtime's.  A raw value that coerces to a
    finite number [q] gives [q], or 1 when [q] is smaller; one that coerces
    to anything else gives the default, 20 or 5, and so does an absent one.
    The crawl starts from one request, for page 1, whatever the limits, and
    with such a limit the first listing with a truthy key is kept. *)
Theorem limits_at_least_one {RT : JsRuntime} (got : Val) :
  let rw := oget (actorInput got) "results_wanted" in
  let mp := oget (actorInput got) "max_pages" in
  (forall x, RESULTS_WANTED got = Ret x -> atLeastOne x)
  /\ (forall x, MAX_PAGES got = Ret x -> atLeastOne x)
  /\ (isObject rw = false -> exists x, RESULTS_WANTED got = Ret x)
  /\ (isObject mp = false -> exists x, MAX_PAGES got = Ret x)
  /\ (forall q, rw <> Undefined -> toNumber rw = Ret (Fin q) ->
      RESULTS_WANTED got = Ret (Fin (if Qle_bool 1 q then q else 1%Q)))
  /\ (forall q, mp <> Undefined -> toNumber mp = Ret (Fin q) ->
      MAX_PAGES got = Ret (Fin (if Qle_bool 1 q then q else 1%Q)))
  /\ (forall n, rw <> Undefined -> toNumber rw = Ret n -> isFinite n = false ->
      RESULTS_WANTED got = Ret (Fin 20))
  /\ (forall n, mp <> Undefined -> toNumber mp = Ret n -> isFinite n = false ->
      MAX_PAGES got = Ret (Fin 5))
  /\ (rw = Undefined -> RESULTS_WANTED got = Ret (Fin 20))
  /\ (mp = Undefined -> MAX_PAGES got = Ret (Fin 5))
  /\ (forall initialUrl,
      exists request,
        startRequests initialUrl = [request] /\ pageNoOf request = 1)
  /\ (forall x listing,
      RESULTS_WANTED got = Ret x -> truthy (listingKey listing) = true ->
      dedupLoop x [listing] initialState []
      = ({| saved := 1; seenUrls := [listingKey listing]; calls := [] |},
         [listing])).
Proof.
  intros rw mp.
  assert (D20 : atLeastOne (Fin 20)) by (simpl; unfold Qle; simpl; lia).
  assert (D5 : atLeastOne (Fin 5)) by (simpl; unfold Qle; simpl; lia).
  assert (A1 : forall x, RESULTS_WANTED got = Ret x -> atLeastOne x).
  { intros x. apply clampLimit_atLeastOne. exact D20. }
  split; [exact A1|].
  split; [intros x; apply clampLimit_atLeastOne; exact D5|].
  split; [intros H; apply clampLimit_returns, destructure_isObject; exact H|].
  split; [intros H; apply clampLimit_returns, destructure_isObject; exact H|].
  split.
  { intros q Hp Hn. unfold RESULTS_WANTED.
    rewrite (destructure_present _ _ _ Hp). apply clampLimit_finite. exact Hn. }
  split.
  { intros q Hp Hn. unfold MAX_PAGES.
    rewrite (destructure_present _ _ _ Hp). apply clampLimit_finite. exact Hn. }
  split.
  { intros n Hp Hn Hf. unfold RESULTS_WANTED.
    rewrite (destructure_present _ _ _ Hp).
    eapply clampLimit_not_finite; eassumption. }
  split.
  { intros n Hp Hn Hf. unfold MAX_PAGES.
    rewrite (destructure_present _ _ _ Hp).
    eapply clampLimit_not_finite; eassumption. }
  split.
  { intros H. unfold RESULTS_WANTED. rewrite (destructure_absent _ _ _ H).
    reflexivity. }
  split.
  { intros H. unfold MAX_PAGES. rewrite (destructure_absent _ _ _ H).
    reflexivity. }
  split; [intros initialUrl; eexists; split; reflexivity|].
  intros x listing Hx Hk. apply A1 in Hx.
  destruct x as [q| | |]; simpl in Hx; try contradiction.
  simpl. rewrite Hk.
  destruct (Qle_bool q (inject_Z 0)) eqn:E; [|reflexivity].
  apply Qle_bool_iff in E. exfalso.
  apply (Qle_not_lt _ _ (Qle_trans _ _ _ Hx E)). reflexivity.
Qed.

(* ================================================================== *)
(** ** The theorems at concrete pages *)
(* ================================================================== *)

Lemma ten_atLeastOne : atLeastOne (Fin 10).
Proof. simpl. unfold Qle. simpl. lia. Defined.

Lemma quota_invariant_witness :
  atLeastOne (Fin 10) /\ isInteger (Fin 10) 10
  /\ (Z.of_nat
        (saved (run (RT := plainRuntime) (Fin 10) (Fin 5)
                  [ Handle startRequest (searchPage (homesFrom 1 15)) true;
                    Paginate startRequest ]
                  initialState)) <= 10)%Z.
Proof.
  split; [exact ten_atLeastOne|]. split; [reflexivity|].
  exact (proj1 (proj2 (proj2
    (quota_invariant (RT := plainRuntime) (Fin 10) (Fin 5) 10
       [ Handle startRequest (searchPage (homesFrom 1 15)) true;
         Paginate startRequest ]
       ten_atLeastOne (Qeq_refl _))))).
Defined.

(** With [resultsWanted] 10 and a page of 15 listings, the first 10 are
    pushed and no page is enqueued, although page 1 is below [maxPages]. *)
Example quota_ten_of_fifteen :
  let st :=
    run (RT := plainRuntime) (Fin 10) (Fin 5)
      [ Handle startRequest (searchPage (homesFrom 1 15)) true;
        Paginate startRequest ]
      initialState in
  saved st = 10
  /\ map (lookup "url") (emitted (calls st))
     = map (fun i => Str ("https://www.trulia.com/p/ny/home-" ++ decimal i))
           (seq 1 10)
  /\ enqueued (calls st) = [].
Proof. vm_compute. repeat split. Qed.

(** With [resultsWanted] 50: 20 listings on the first page, then 30 of which
    5 were on the first page. *)
Example two_pages_with_overlap :
  let first :=
    run (RT := plainRuntime) (Fin 50) (Fin 5)
      [ Handle startRequest (searchPage (homesFrom 1 20)) true;
        Paginate startRequest ]
      initialState in
  let second :=
    run (RT := plainRuntime) (Fin 50) (Fin 5)
      [ Handle secondRequest (searchPage (homesFrom 16 30)) true;
        Paginate secondRequest ]
      first in
  saved first = 20
  /\ enqueued (calls first) = [("https://www.trulia.com/NY/2_p/", 2)]
  /\ saved second = 45
  /\ List.length (emitted (calls second)) = 45.
Proof. vm_compute. repeat split. Qed.

(** The limit is not rounded: with 3/2 the loop stops at 2. *)
Example fractional_limit :
  saved (fst (dedupLoop (Fin (3 # 2)) [listingA; listingC; keylessListing]
                initialState []))
  = 2.
Proof. reflexivity. Qed.

Lemma dedup_first_wins_witness :
  truthy (listingKey listingA) = true
  /\ sameValueZero (listingKey listingA) (listingKey listingB) = true
  /\ dedupLoop (Fin 20) ([] ++ listingA :: [listingC] ++ listingB :: [])
       initialState []
     = dedupLoop (Fin 20) ([] ++ listingA :: [listingC] ++ []) initialState []
  /\ lookup "url" keylessListing = Null
  /\ dedupLoop (Fin 20) ([listingA] ++ keylessListing :: [listingC])
       initialState []
     = dedupLoop (Fin 20) ([listingA] ++ [listingC]) initialState [].
Proof.
  split; [reflexivity|]. split; [reflexivity|].
  split.
  - apply (proj1 (dedup_first_wins (Fin 20) listingA listingB [] [listingC] []
                    initialState [])); reflexivity.
  - split; [reflexivity|].
    apply (proj2 (proj2 (proj2
             (dedup_first_wins (Fin 20) listingA keylessListing [listingA]
                [] [listingC] initialState [])))); reflexivity.
Defined.

Example duplicate_url_in_page :
  snd (dedupLoop (Fin 20) [listingA; listingC; listingB; keylessListing]
         initialState [])
  = [listingA; listingC].
Proof. reflexivity. Qed.

Lemma record_fields_witness :
  extractFromNextData (RT := plainRuntime) (searchPage (homesFrom 1 2))
  = Ret (Some
      [ [ ("price", Str "$689,000"); ("beds", Null); ("baths", Null);
          ("sqft", Null); ("lot_size", Null); ("address", Null);
          ("city", Null); ("state", Null); ("zip_code", Null);
          ("full_address", Null); ("latitude", Null); ("longitude", Null);
          ("property_type", Null); ("listing_by", Null);
          ("description", Null); ("image_url", Null);
          ("url", Str "https://www.trulia.com/p/ny/home-1") ];
        [ ("price", Str "$689,000"); ("beds", Null); ("baths", Null);
          ("sqft", Null); ("lot_size", Null); ("address", Null);
          ("city", Null); ("state", Null); ("zip_code", Null);
          ("full_address", Null); ("latitude", Null); ("longitude", Null);
          ("property_type", Null); ("listing_by", Null);
          ("description", Null); ("image_url", Null);
          ("url", Str "https://www.trulia.com/p/ny/home-2") ] ])
  /\ Forall linkedDataRecord
       [ jsonLdRecord ldProduct ].
Proof.
  split; [reflexivity|].
  apply (proj1 (proj2 (record_fields (RT := plainRuntime)
                         (linkedDataPage [ldProduct])))).
  reflexivity.
Defined.

(** The record of an empty home has 17 fields, and the record of a
    linked-data product has 7, with a number as [price] and an object as
    [image_url]. *)
Lemma record_fields_counterexample :
  (exists l,
      extractFromNextData (RT := plainRuntime) (searchPage [Obj []])
      = Ret (Some [l])
      /\ List.length (keys l) = 17
      /\ ~ canonicalRecord l)
  /\ (exists l,
      extractFromJsonLd (linkedDataPage [ldProduct]) = Some [l]
      /\ List.length (keys l) = 7
      /\ lookup "price" l = Number (Fin 350000)
      /\ isStringOrNull (lookup "image_url" l) = false
      /\ ~ canonicalRecord l).
Proof.
  split.
  - eexists. split; [reflexivity|]. split; [reflexivity|].
    intros [K _]. discriminate K.
  - eexists. split; [reflexivity|]. repeat split.
    intros [K _]. discriminate K.
Qed.

Lemma noise_records_witness :
  In (hd [] (extractFromHtml (RT := plainRuntime) "https://www.trulia.com/NY/"
               [emptyCard; pricedCard]))
     (extractFromHtml (RT := plainRuntime) "https://www.trulia.com/NY/"
        [emptyCard; pricedCard])
  /\ isNoise (hd [] (extractFromHtml (RT := plainRuntime)
                       "https://www.trulia.com/NY/" [emptyCard; pricedCard]))
     = false
  /\ isNoise (jsonLdRecord (Obj [("@type", Str "Product")])) = true
  /\ dedupLoop (Fin 20)
       ([listingA] ++ jsonLdRecord (Obj [("@type", Str "Product")]) :: [])
       initialState []
     = dedupLoop (Fin 20) ([listingA] ++ []) initialState [].
Proof.
  assert (H : In (hd [] (extractFromHtml (RT := plainRuntime)
                           "https://www.trulia.com/NY/" [emptyCard; pricedCard]))
                 (extractFromHtml (RT := plainRuntime)
                    "https://www.trulia.com/NY/" [emptyCard; pricedCard])).
  { left. reflexivity. }
  split; [exact H|].
  split.
  - exact (proj1 (noise_records (RT := plainRuntime) (Fin 20)) _ _ _ H).
  - split; [reflexivity|].
    apply (proj2 (proj2 (noise_records (RT := plainRuntime) (Fin 20)))).
    reflexivity.
Defined.

(** A home with nothing but a full location gives a record with no price,
    no address and no url; the extraction step passes it on and the handler
    pushes it to the dataset.  A linked-data product with nothing but its
    type gives such a record too, and the extraction step passes it on. *)
Lemma noise_records_counterexample :
  (exists l,
      extractListings (RT := plainRuntime) 1 (searchPage [bareHome])
        initialState
      = Ret ([l], initialState)
      /\ isNoise l = true
      /\ emitted (calls (snd (requestHandler (RT := plainRuntime) (Fin 20)
                                (Fin 5) startRequest (searchPage [bareHome])
                                true initialState)))
         = [l])
  /\ (exists l,
      extractListings (RT := plainRuntime) 1
        (linkedDataPage [Obj [("@type", Str "Product")]]) initialState
      = Ret ([l], initialState)
      /\ isNoise l = true).
Proof.
  split; eexists; repeat split; reflexivity.
Qed.

Lemma strategy_priority_witness :
  noHomesArray (Obj [("props", Obj [("pageProps", Obj [])])])
  /\ extractListings (RT := plainRuntime) 1
       (linkedDataPage
          [ ldListing "12 Elm St" "https://www.trulia.com/p/ny/home-1";
            ldListing "7 Oak Ave" "https://www.trulia.com/p/ny/home-2" ])
       initialState
     = Ret ([ jsonLdRecord
                (ldListing "12 Elm St" "https://www.trulia.com/p/ny/home-1");
              jsonLdRecord
                (ldListing "7 Oak Ave" "https://www.trulia.com/p/ny/home-2") ],
            initialState).
Proof.
  assert (H : noHomesArray (Obj [("props", Obj [("pageProps", Obj [])])])).
  { left. reflexivity. }
  split; [exact H|].
  apply (proj2 (proj2
    (strategy_priority (RT := plainRuntime)
       (linkedDataPage
          [ ldListing "12 Elm St" "https://www.trulia.com/p/ny/home-1";
            ldListing "7 Oak Ave" "https://www.trulia.com/p/ny/home-2" ])
       1 initialState))
    (Obj [("props", Obj [("pageProps", Obj [])])])
    (ldListing "12 Elm St" "https://www.trulia.com/p/ny/home-1")
    (ldListing "7 Oak Ave" "https://www.trulia.com/p/ny/home-2")
    eq_refl H eq_refl eq_refl (or_introl eq_refl)).
Defined.

(** The two records of that page. *)
Example linked_data_fallback :
  extractListings (RT := plainRuntime) 1
    (linkedDataPage
       [ ldListing "12 Elm St" "https://www.trulia.com/p/ny/home-1";
         ldListing "7 Oak Ave" "https://www.trulia.com/p/ny/home-2" ])
    initialState
  = Ret ([ [ ("price", Null); ("address", Str "12 Elm St"); ("city", Null);
             ("state", Null); ("zip_code", Null);
             ("url", Str "https://www.trulia.com/p/ny/home-1");
             ("image_url", Null) ];
           [ ("price", Null); ("address", Str "7 Oak Ave"); ("city", Null);
             ("state", Null); ("zip_code", Null);
             ("url", Str "https://www.trulia.com/p/ny/home-2");
             ("image_url", Null) ] ],
         initialState).
Proof. reflexivity. Qed.

Lemma next_page_url_witness :
  URL_parse (JsRuntime := plainRuntime) "https://www.trulia.com/NY/2_p/"
  = Some {| url_prefix := "https://www.trulia.com";
            pathname := "/NY/2_p/";
            url_suffix := EmptyString |}
  /\ buildNextPageUrl (RT := plainRuntime) "https://www.trulia.com/NY/2_p/" 2
     = Ret (Some "https://www.trulia.com/NY/3_p/")
  /\ buildNextPageUrl (RT := plainRuntime) "not a url" 1 = Ret None
  /\ findNextPage (RT := plainRuntime) (Some "https://www.trulia.com/NY/7_p/")
       "https://www.trulia.com/NY/" 1
     = Ret (Some "https://www.trulia.com/NY/7_p/").
Proof.
  split; [reflexivity|].
  split; [reflexivity|].
  split.
  - apply (proj1 (proj2 (next_page_url (RT := plainRuntime) "not a url" 1))).
    reflexivity.
  - apply (proj1 (proj2 (proj2 (proj2
             (next_page_url (RT := plainRuntime)
                "https://www.trulia.com/NY/" 1)))));
      reflexivity.
Defined.

(** [findNextPage] on the third result page reached as page 1: the current
    URL parses, there is no next link, and the result is null. *)
Lemma next_page_url_counterexample :
  URL_parse (JsRuntime := plainRuntime) "https://www.trulia.com/NY/3_p/"
  = Some {| url_prefix := "https://www.trulia.com";
            pathname := "/NY/3_p/";
            url_suffix := EmptyString |}
  /\ findNextPage (RT := plainRuntime) None "https://www.trulia.com/NY/3_p/" 1
     = Ret None.
Proof. split; reflexivity. Qed.

Lemma blocked_page_witness :
  (includes "Access Denied" (title_text deniedPage) = true
   \/ includes "Captcha" (title_text deniedPage) = true
   \/ includes "Robot" (title_text deniedPage) = true)
  /\ requestHandler (RT := plainRuntime) (Fin 20) (Fin 5) startRequest
       deniedPage true initialState
     = (Throw (Error "Blocked by anti-bot protection"),
        {| saved := 0; seenUrls := []; calls := [Retire] |}).
Proof.
  assert (H : includes "Access Denied" (title_text deniedPage) = true
              \/ includes "Captcha" (title_text deniedPage) = true
              \/ includes "Robot" (title_text deniedPage) = true).
  { left. reflexivity. }
  split; [exact H|].
  exact (proj1 (blocked_page (RT := plainRuntime) (Fin 20) (Fin 5)
                  startRequest deniedPage true initialState H)).
Defined.

Lemma extract_never_throws_witness :
  garbage garbagePage
  /\ extractListings (RT := plainRuntime) 1 garbagePage initialState
     = Ret ([], call (SetValue 1) initialState).
Proof.
  assert (H : garbage garbagePage).
  { split; [right; reflexivity|]. repeat constructor. }
  split; [exact H|].
  exact (proj2 (proj2
    (proj2 (proj2 (proj2 (extract_never_throws (RT := plainRuntime)
                            garbagePage 1 initialState))) H))).
Defined.

Lemma shared_seen_set_witness :
  paginate (RT := plainRuntime) (Fin 20) (Fin 5) startRequest initialState
  = (Ret tt,
     {| saved := 0;
        seenUrls := [Str "https://www.trulia.com/NY/2_p/"];
        calls := [EnqueueLinks "https://www.trulia.com/NY/2_p/" 2] |})
  /\ has (Str "https://www.trulia.com/NY/2_p/")
         (add (Str "https://www.trulia.com/p/ny/home-1") [])
     = false.
Proof.
  split.
  - apply (proj1 (shared_seen_set (RT := plainRuntime) (Fin 20) (Fin 5)
                    startRequest initialState)
             "https://www.trulia.com/NY/2_p/");
      reflexivity.
  - apply (proj2 (proj2 (proj2
             (shared_seen_set (RT := plainRuntime) (Fin 20) (Fin 5)
                startRequest initialState))));
      reflexivity.
Defined.

(** The second result page is enqueued from a fresh state, but not after a
    listing whose key is that page's URL has been kept, although there is
    room under both limits; and once the page's URL is recorded, that
    listing is no longer kept. *)
Lemma shared_seen_set_counterexample :
  enqueued (calls (snd (paginate (RT := plainRuntime) (Fin 20) (Fin 5)
                          startRequest initialState)))
  = [("https://www.trulia.com/NY/2_p/", 2)]
  /\ saved (snd (handlePage (RT := plainRuntime) (Fin 20) startRequest
                   (searchPage [pageLikeHome]) true initialState))
     = 1
  /\ enqueued (calls (snd (requestHandler (RT := plainRuntime) (Fin 20) (Fin 5)
                             startRequest (searchPage [pageLikeHome]) true
                             initialState)))
     = []
  /\ List.length
       (emitted (calls (snd (handlePage (RT := plainRuntime) (Fin 20)
                               secondRequest (searchPage [pageLikeHome]) true
                               initialState))))
     = 1
  /\ emitted (calls (snd (handlePage (RT := plainRuntime) (Fin 20)
                            secondRequest (searchPage [pageLikeHome]) true
                            (snd (paginate (RT := plainRuntime) (Fin 20)
                                    (Fin 5) startRequest initialState)))))
     = [].
Proof. repeat split. Qed.

Lemma limits_at_least_one_witness :
  RESULTS_WANTED (RT := plainRuntime) lowInput = Ret (Fin 1)
  /\ MAX_PAGES (RT := plainRuntime) lowInput = Ret (Fin 5)
  /\ atLeastOne (Fin 1)
  /\ atLeastOne (Fin 5).
Proof.
  pose proof (limits_at_least_one (RT := plainRuntime) lowInput)
    as (A & B & _ & _ & C & _ & _ & D & _).
  assert (R : RESULTS_WANTED (RT := plainRuntime) lowInput = Ret (Fin 1)).
  { apply (C 0%Q); [discriminate | reflexivity]. }
  assert (M : MAX_PAGES (RT := plainRuntime) lowInput = Ret (Fin 5)).
  { apply (D NaN); [discriminate | reflexivity | reflexivity]. }
  split; [exact R|]. split; [exact M|].
  split; [exact (A _ R) | exact (B _ M)].
Defined.

(* ================================================================== *)
(** ** What a run keeps true *)
(* ================================================================== *)

Lemma sameValueZero_refl (v : Val) :
  isObject v = false -> sameValueZero v v = true.
Proof.
  destruct v as [| |b|n|s|l|o]; simpl; try reflexivity; try discriminate.
  - intros _. apply Bool.eqb_reflx.
  - intros _. destruct n; simpl; try reflexivity. apply Qeq_bool_iff.
    reflexivity.
  - intros _. apply String.eqb_refl.
Qed.

Lemma FOP_snoc {A : Type} (R : A -> A -> Prop) (l : list A) (x : A) :
  ForallOrdPairs R l -> Forall (fun a => R a x) l ->
  ForallOrdPairs R (l ++ [x]).
Proof.
  induction 1 as [|a l Ha Hl IH]; simpl; intros HF.
  - apply FOP_cons; constructor.
  - inversion HF; subst. apply FOP_cons.
    + apply Forall_app. split; [exact Ha|]. constructor; [assumption|constructor].
    + apply IH. assumption.
Qed.

Lemma batches_app (c1 c2 : list Call) :
  batches (c1 ++ c2) = batches c1 ++ batches c2.
Proof.
  induction c1 as [|c c1 IH]; simpl; [reflexivity|].
  destruct c; rewrite IH; reflexivity.
Qed.

Lemma pageNoOf_positive (request : Request) : 1 <= pageNoOf request.
Proof.
  unfold pageNoOf. destruct (userData_pageNo request) as [[|n]|]; lia.
Qed.

Lemma has_grows (k : Val) (seen more : list Val) :
  has k seen = true -> has k (seen ++ more) = true.
Proof. intros H. rewrite has_app, H. reflexivity. Qed.

Lemma recorded_grows (kept : list Listing) (seen more : list Val) :
  recorded kept seen -> recorded kept (seen ++ more).
Proof. intros H e k He Hk. apply has_grows. eapply H; eassumption. Qed.

Lemma keptInvariant_grows (kept : list Listing) (seen more : list Val) :
  keptInvariant kept seen -> keptInvariant kept (seen ++ more).
Proof.
  intros (A & B & C). repeat split; try assumption.
  apply recorded_grows. exact B.
Qed.

(** Keeping a listing whose key is truthy and not in the set. *)
Lemma keptInvariant_keep (kept : list Listing) (seen : list Val) (x : Listing) :
  keptInvariant kept seen ->
  truthy (listingKey x) = true -> has (listingKey x) seen = false ->
  keptInvariant (kept ++ [x]) (add (listingKey x) seen).
Proof.
  intros (A & B & C) Hx Hn. repeat split.
  - apply Forall_app. split; [exact A|]. constructor; [exact Hx|constructor].
  - intros e k He Hk. rewrite has_add. apply in_app_or in He.
    destruct He as [He | [<- | []]].
    + rewrite (B e k He Hk). reflexivity.
    + rewrite Hk, Hn. simpl. apply orb_true_r.
  - apply FOP_snoc; [exact C|].
    apply Forall_forall. intros e He.
    destruct (sameValueZero (listingKey e) (listingKey x)) eqn:E;
      [|reflexivity].
    rewrite sameValueZero_sym in E. rewrite (B e _ He E) in Hn.
    discriminate Hn.
Qed.

Section InvariantFacts.
Variable RW : Num.

Lemma dedupLoop_kept (listings : list Listing) :
  forall (st : CrawlState) (acc kept : list Listing),
    keptInvariant (kept ++ acc) (seenUrls st) ->
    keptInvariant (kept ++ snd (dedupLoop RW listings st acc))
                  (seenUrls (fst (dedupLoop RW listings st acc))).
Proof.
  induction listings as [|x rest IH]; intros st acc kept H; simpl;
    [exact H|].
  destruct (nat_ge (saved st) RW); [exact H|].
  destruct (truthy (listingKey x)) eqn:T; simpl; [|apply IH; exact H].
  destruct (has (listingKey x) (seenUrls st)) eqn:E; simpl;
    [apply IH; exact H|].
  apply IH. simpl. rewrite app_assoc.
  apply keptInvariant_keep; assumption.
Qed.

(** The loop adds to the set as many keys as it adds to the counter. *)
Lemma dedupLoop_count (listings : list Listing) :
  forall (st : CrawlState) (acc : list Listing),
    List.length (seenUrls (fst (dedupLoop RW listings st acc))) + saved st
    = List.length (seenUrls st) + saved (fst (dedupLoop RW listings st acc)).
Proof.
  induction listings as [|x rest IH]; intros st acc; simpl; [reflexivity|].
  destruct (nat_ge (saved st) RW); [reflexivity|].
  destruct (truthy (listingKey x)) eqn:T; simpl; [|apply IH].
  destruct (has (listingKey x) (seenUrls st)) eqn:E; simpl; [apply IH|].
  unfold add. rewrite E.
  match goal with |- context [dedupLoop RW rest ?s ?a] =>
    specialize (IH s a) end.
  cbn [saved seenUrls] in IH. rewrite length_app in IH. simpl in IH. lia.
Qed.

Lemma dedupLoop_calls (listings : list Listing) (st : CrawlState)
  (acc : list Listing) :
  calls (fst (dedupLoop RW listings st acc)) = calls st.
Proof.
  destruct (dedupLoop_shape RW listings st acc) as (ks & new & E).
  rewrite E. reflexivity.
Qed.

Lemma dedupLoop_seen (listings : list Listing) (st : CrawlState)
  (acc : list Listing) :
  exists more,
    seenUrls (fst (dedupLoop RW listings st acc)) = seenUrls st ++ more.
Proof.
  destruct (dedupLoop_shape RW listings st acc) as (ks & new & E).
  rewrite E. exists ks. reflexivity.
Qed.

Lemma dedupAndSave_invariant (MP : Num) (listings : list Listing)
  (st : CrawlState) :
  runInvariant MP st -> runInvariant MP (dedupAndSave RW listings st).
Proof.
  intros (K & V & S & N & L & B & C).
  pose proof (dedupLoop_kept listings st [] (emitted (calls st))) as K'.
  rewrite app_nil_r in K'. specialize (K' K).
  pose proof (dedupLoop_count listings st []) as L'.
  pose proof (dedupLoop_calls listings st []) as Cs.
  destruct (dedupLoop_seen listings st []) as [more Hs].
  unfold dedupAndSave.
  destruct (dedupLoop RW listings st []) as [st' new]. simpl in *.
  assert (S' : forall r, In r (enqueued (calls st)) ->
                         has (Str (fst r)) (seenUrls st') = true).
  { intros r Hr. rewrite Hs. apply has_grows. apply S. exact Hr. }
  destruct new as [|l new]; unfold runInvariant.
  - rewrite Cs. rewrite app_nil_r in K'.
    repeat split; try assumption; try apply K'. lia.
  - simpl. rewrite emitted_app, enqueued_app, batches_app, Cs. simpl.
    rewrite !app_nil_r.
    repeat split; try assumption; try apply K'.
    + lia.
    + apply Forall_app. split; [exact B|].
      constructor; [discriminate|constructor].
    + rewrite concat_app, C. simpl. rewrite app_nil_r. reflexivity.
Qed.

End InvariantFacts.

Lemma call_invariant (MP : Num) (c : Call) (st : CrawlState) :
  emitted [c] = [] -> enqueued [c] = [] -> batches [c] = [] ->
  runInvariant MP st -> runInvariant MP (call c st).
Proof.
  intros E Q B H. unfold runInvariant, call. simpl.
  rewrite emitted_app, enqueued_app, batches_app, E, Q, B, !app_nil_r.
  exact H.
Qed.

Section RunInvariant.
Context {RT : JsRuntime}.
Variable RW : Num.
Variable MP : Num.

Lemma handlePage_invariant (request : Request) (pg : Page) (session : bool)
  (st : CrawlState) :
  runInvariant MP st ->
  runInvariant MP (snd (handlePage RW request pg session st)).
Proof.
  intros H. unfold handlePage. destruct (blocked (title_text pg)); simpl.
  - destruct session; [|exact H]. apply call_invariant; auto.
  - destruct (extractListings_returns (pageNoOf request) pg st)
      as [l [E | [-> E]]]; rewrite E; cbv beta iota; cbn [snd];
      apply dedupAndSave_invariant; [exact H|].
    apply call_invariant; auto.
Qed.

Lemma paginate_invariant (request : Request) (st : CrawlState) :
  runInvariant MP st ->
  runInvariant MP (snd (paginate RW MP request st)).
Proof.
  intros H. unfold paginate.
  destruct (nat_lt (saved st) RW); simpl; [|exact H].
  destruct (nat_lt (pageNoOf request) MP) eqn:P; simpl; [|exact H].
  destruct (buildNextPageUrl (url request) (pageNoOf request)) as [[u|]|e];
    simpl; try exact H.
  destruct (isEmptyString u) eqn:U; simpl; [exact H|].
  destruct (has (Str u) (seenUrls st)) eqn:E; simpl; [exact H|].
  destruct H as (K & V & S & N & L & B & C).
  unfold runInvariant, call. simpl.
  rewrite emitted_app, enqueued_app, batches_app. simpl.
  rewrite !app_nil_r. unfold add. rewrite E.
  split; [apply keptInvariant_grows; exact K|].
  split.
  { apply Forall_app. split; [exact V|]. constructor; [|constructor].
    split; [exact U|]. exists (pageNoOf request).
    split; [reflexivity|]. split; [apply pageNoOf_positive | exact P]. }
  split.
  { intros r Hr. apply in_app_or in Hr. destruct Hr as [Hr | [<- | []]].
    - apply has_grows. apply S. exact Hr.
    - simpl. rewrite has_app. unfold has at 2. simpl.
      rewrite String.eqb_refl. apply orb_true_r. }
  split.
  { rewrite map_app. simpl. apply NoDup_app; [exact N | |].
    - constructor; [intros []|constructor].
    - intros a Ha [<- | []]. apply in_map_iff in Ha.
      destruct Ha as (r & Hr & Hin). specialize (S r Hin).
      rewrite Hr in S. congruence. }
  split; [rewrite !length_app; simpl; lia|].
  split; assumption.
Qed.

Lemma initial_invariant : runInvariant MP initialState.
Proof.
  unfold runInvariant, keptInvariant, recorded, distinctKeys. simpl.
  repeat split; try (constructor; fail); try (intros ? ? []; fail);
    try (intros ? []; fail).
Qed.

Lemma run_invariant (pieces : list Piece) :
  forall st, runInvariant MP st -> runInvariant MP (run RW MP pieces st).
Proof.
  unfold run. induction pieces as [|p pieces IH]; intros st H; simpl;
    [exact H|].
  apply IH. destruct p; simpl.
  - apply handlePage_invariant. exact H.
  - apply paginate_invariant. exact H.
Qed.

End RunInvariant.

(** X1. In every run, no two listings handed to the dataset have the same
    key, every one of them has a truthy key, and every such key that is not
    an array or object is in the seen set. *)
Theorem emitted_once {RT : JsRuntime} (RW MP : Num) (pieces : list Piece) :
  let st := run RW MP pieces initialState in
  distinctKeys (emitted (calls st))
  /\ Forall (fun l => truthy (listingKey l) = true) (emitted (calls st))
  /\ (forall l, In l (emitted (calls st)) ->
                isObject (listingKey l) = false ->
                has (listingKey l) (seenUrls st) = true).
Proof.
  intros st.
  destruct (run_invariant RW MP pieces initialState (initial_invariant MP))
    as ((A & B & C) & _). fold st in A, B, C.
  repeat split; try assumption.
  intros l Hl Ho. apply (B l _ Hl). apply sameValueZero_refl. exact Ho.
Qed.

Lemma nat_lt_integer (n : nat) (x : Num) (z : Z) :
  isInteger x z -> nat_lt n x = true -> (Z.of_nat n < z)%Z.
Proof.
  intros HZ H. pose proof (nat_ge_integer n x z HZ) as G.
  destruct x as [q| | |]; simpl in *; try contradiction.
  apply negb_true_iff in H. rewrite H in G. symmetry in G.
  apply Z.leb_gt in G. exact G.
Qed.

(** X2. In every run, each request handed to [enqueueLinks] has a non-empty
    URL and the number of the page after one that is below [maxPages], so
    its page number is at least 2 and, for an integer limit, at most
    [maxPages]; no URL is enqueued twice; with [maxPages] 1 nothing is ever
    enqueued. *)
Theorem enqueued_pages {RT : JsRuntime} (RW MP : Num) (pieces : list Piece) :
  let st := run RW MP pieces initialState in
  Forall (validEnqueue MP) (enqueued (calls st))
  /\ Forall (fun r => 2 <= snd r) (enqueued (calls st))
  /\ NoDup (map fst (enqueued (calls st)))
  /\ (forall z, isInteger MP z ->
        Forall (fun r => (Z.of_nat (snd r) <= z)%Z) (enqueued (calls st)))
  /\ (isInteger MP 1 -> enqueued (calls st) = []).
Proof.
  intros st.
  destruct (run_invariant RW MP pieces initialState (initial_invariant MP))
    as (_ & V & _ & N & _). fold st in V, N.
  assert (Z : forall z, isInteger MP z ->
            Forall (fun r => (Z.of_nat (snd r) <= z)%Z) (enqueued (calls st))).
  { intros z HZ. eapply Forall_impl; [|exact V].
    intros r (_ & n & -> & _ & Hn).
    pose proof (nat_lt_integer n MP z HZ Hn). lia. }
  assert (T : Forall (fun r => 2 <= snd r) (enqueued (calls st))).
  { eapply Forall_impl; [|exact V]. intros r (_ & n & -> & Hn & _). lia. }
  repeat split; try assumption.
  intros H1. specialize (Z 1%Z H1).
  destruct (enqueued (calls st)) as [|r rest]; [reflexivity|].
  inversion Z; subst. inversion T; subst. lia.
Qed.

Lemma enqueued_pages_witness :
  isInteger (Fin 1) 1
  /\ enqueued (calls (run (RT := plainRuntime) (Fin 50) (Fin 1)
                        [ Handle startRequest (searchPage (homesFrom 1 20)) true;
                          Paginate startRequest ]
                        initialState))
     = [].
Proof.
  split; [reflexivity|].
  apply (proj2 (proj2 (proj2 (proj2
           (enqueued_pages (RT := plainRuntime) (Fin 50) (Fin 1)
              [ Handle startRequest (searchPage (homesFrom 1 20)) true;
                Paginate startRequest ]))))).
  reflexivity.
Defined.

(** X3. In every run the seen set holds exactly one entry for each listing
    counted and one for each page enqueued. *)
Theorem seen_set_size {RT : JsRuntime} (RW MP : Num) (pieces : list Piece) :
  let st := run RW MP pieces initialState in
  List.length (seenUrls st) = saved st + List.length (enqueued (calls st)).
Proof.
  intros st.
  destruct (run_invariant RW MP pieces initialState (initial_invariant MP))
    as (_ & _ & _ & _ & L & _). exact L.
Qed.

Lemma Subseq_refl {A : Type} (l : list A) : Subseq l l.
Proof. induction l; constructor; assumption. Qed.

Lemma Subseq_nil_l {A : Type} (l : list A) : Subseq [] l.
Proof. induction l; constructor; assumption. Qed.

(** The batch of a page is the batch so far followed by some of the page's
    listings, in the order of the page. *)
Lemma dedupLoop_subseq (RW : Num) (listings : list Listing) :
  forall (st : CrawlState) (acc : list Listing),
  exists new,
    snd (dedupLoop RW listings st acc) = acc ++ new
    /\ Subseq new listings
    /\ saved (fst (dedupLoop RW listings st acc))
       = saved st + List.length new.
Proof.
  induction listings as [|x rest IH]; intros st acc; simpl.
  - exists []. rewrite app_nil_r. repeat split; [constructor | simpl; lia].
  - destruct (nat_ge (saved st) RW).
    + exists []. simpl. rewrite app_nil_r.
      repeat split; [apply Subseq_nil_l | lia].
    + destruct (truthy (listingKey x) && negb (has (listingKey x) (seenUrls st))).
      * match goal with |- context [dedupLoop RW rest ?s ?a] =>
          destruct (IH s a) as (new & E & S & C) end.
        exists (x :: new). rewrite E, C, <- app_assoc. simpl.
        repeat split; [constructor; exact S | lia].
      * destruct (IH st acc) as (new & E & S & C).
        exists new. repeat split; [exact E | constructor; exact S | exact C].
Qed.

(** X4. For each page the handler makes at most one [pushData] call: its
    batch is never empty and holds some of the page's listings in the order
    of the page, as many as the counter grows by; in every run no batch
    handed to [pushData] is empty. *)
Theorem pushed_batches {RT : JsRuntime} (RW MP : Num) (pieces : list Piece)
  (listings : list Listing) (st : CrawlState) :
  (exists new,
      Subseq new listings
      /\ saved (dedupAndSave RW listings st) = saved st + List.length new
      /\ calls (dedupAndSave RW listings st)
         = calls st ++ match new with
                       | [] => []
                       | _ :: _ => [PushData new]
                       end)
  /\ Forall (fun batch => batch <> [])
            (batches (calls (run RW MP pieces initialState))).
Proof.
  split.
  - destruct (dedupLoop_subseq RW listings st []) as (new & E & S & C).
    pose proof (dedupLoop_calls RW listings st []) as Cs.
    unfold dedupAndSave.
    destruct (dedupLoop RW listings st []) as [st' new']. simpl in *.
    subst new'. exists new. split; [exact S|].
    destruct new; simpl; rewrite ?app_nil_r; auto.
    rewrite Cs. auto.
  - destruct (run_invariant RW MP pieces initialState (initial_invariant MP))
      as (_ & _ & _ & _ & _ & B & _). exact B.
Qed.

(* ================================================================== *)
(** ** A page handled twice *)
(* ================================================================== *)

Section RetryFacts.
Variable RW : Num.

(** After the loop has run over a page, either the limit is reached or
    every truthy key of the page that is not an array or object is in the
    set. *)
Lemma dedupLoop_covers (listings : list Listing) :
  forall (st : CrawlState) (acc : list Listing),
    nat_ge (saved (fst (dedupLoop RW listings st acc))) RW = true
    \/ Forall (fun x => isObject (listingKey x) = false ->
                        truthy (listingKey x) = true ->
                        has (listingKey x)
                            (seenUrls (fst (dedupLoop RW listings st acc)))
                        = true)
              listings.
Proof.
  induction listings as [|x rest IH]; intros st acc; simpl.
  - right. constructor.
  - destruct (nat_ge (saved st) RW) eqn:G; [left; exact G|].
    match goal with
    | |- context [if ?c then _ else _] => destruct c eqn:C
    end.
    + match goal with |- context [dedupLoop RW rest ?s ?a] =>
        destruct (IH s a) as [L | R];
        [left; exact L | right];
        destruct (dedupLoop_seen RW rest s a) as [more Hm]
      end.
      constructor; [|exact R].
      intros Ho _. rewrite Hm. apply has_grows. simpl.
      rewrite has_add, (sameValueZero_refl _ Ho).
      apply andb_prop in C. destruct C as [_ C]. rewrite C.
      apply orb_true_r.
    + destruct (IH st acc) as [L | R]; [left; exact L | right].
      destruct (dedupLoop_seen RW rest st acc) as [more Hm].
      constructor; [|exact R].
      intros Ho Ht. rewrite Hm. apply has_grows.
      rewrite Ht in C. simpl in C. apply negb_false_iff in C. exact C.
Qed.

(** A loop over listings whose keys are all in the set, or with the limit
    reached, changes nothing. *)
Lemma dedupLoop_nothing_new (listings : list Listing) (st : CrawlState)
  (acc : list Listing) :
  nat_ge (saved st) RW = true
  \/ Forall (fun x => truthy (listingKey x) = true ->
                      has (listingKey x) (seenUrls st) = true) listings ->
  dedupLoop RW listings st acc = (st, acc).
Proof.
  intros [G | F]; [apply dedupLoop_full; exact G|].
  induction F as [|x rest Hx _ IH]; simpl; [reflexivity|].
  destruct (nat_ge (saved st) RW); [reflexivity|].
  destruct (truthy (listingKey x)) eqn:T; simpl; [|exact IH].
  rewrite (Hx eq_refl). simpl. exact IH.
Qed.

End RetryFacts.

(** X5. Handling the same listings a second time changes nothing: when no
    key of the page is an array or object, deduplicating and saving the page
    again from the state the first time left adds nothing to the counter, the
    set or the dataset. *)
Theorem retried_page_adds_nothing (RW : Num) (listings : list Listing)
  (st : CrawlState) :
  Forall (fun x => isObject (listingKey x) = false) listings ->
  dedupAndSave RW listings (dedupAndSave RW listings st)
  = dedupAndSave RW listings st.
Proof.
  intros Ho.
  assert (N : forall st1,
             saved st1 = saved (fst (dedupLoop RW listings st []))
             -> seenUrls st1 = seenUrls (fst (dedupLoop RW listings st []))
             -> dedupAndSave RW listings st1 = st1).
  { intros st1 Hs Hk. unfold dedupAndSave.
    rewrite (dedupLoop_nothing_new RW listings st1 []); [reflexivity|].
    destruct (dedupLoop_covers RW listings st []) as [G | F].
    - left. rewrite Hs. exact G.
    - right. rewrite Hk.
      rewrite Forall_forall in *. intros x Hx Ht. apply F; auto. }
  apply N.
  - apply dedupAndSave_saved.
  - unfold dedupAndSave. destruct (dedupLoop RW listings st []) as [st' new].
    destruct new; reflexivity.
Qed.

Lemma retried_page_adds_nothing_witness :
  Forall (fun x => isObject (listingKey x) = false)
         [listingA; listingC; listingB; keylessListing]
  /\ dedupAndSave (Fin 20) [listingA; listingC; listingB; keylessListing]
       (dedupAndSave (Fin 20) [listingA; listingC; listingB; keylessListing]
          initialState)
     = dedupAndSave (Fin 20) [listingA; listingC; listingB; keylessListing]
         initialState.
Proof.
  assert (H : Forall (fun x => isObject (listingKey x) = false)
                     [listingA; listingC; listingB; keylessListing]).
  { repeat constructor. }
  split; [exact H|].
  exact (retried_page_adds_nothing (Fin 20) _ initialState H).
Defined.

(* ================================================================== *)
(** ** Strings *)
(* ================================================================== *)

Lemma prefix_nil (h : string) : String.prefix EmptyString h = true.
Proof. destruct h; reflexivity. Qed.

Lemma prefix_spec (n h : string) :
  String.prefix n h = true <-> exists b, h = (n ++ b)%string.
Proof.
  revert h. induction n as [|a n IH]; intros h.
  - rewrite prefix_nil. split; [intros _; exists h; reflexivity | reflexivity].
  - destruct h as [|c h]; simpl.
    + split; [discriminate | intros [b Hb]; discriminate Hb].
    + destruct (ascii_dec a c) as [<- | Hne].
      * rewrite IH. split; intros [b Hb]; exists b; [rewrite Hb|];
          [reflexivity | injection Hb as Hb; exact Hb].
      * split; [discriminate|]. intros [b Hb]. injection Hb as Ha _.
        congruence.
Qed.

(** [includes] is the substring test. *)
Lemma includes_spec (n h : string) :
  includes n h = true <-> exists a b, h = (a ++ n ++ b)%string.
Proof.
  induction h as [|c h IH].
  - cbn [includes]. destruct (String.prefix n EmptyString) eqn:P.
    + apply prefix_spec in P. destruct P as [b Hb].
      split; [intros _; exists EmptyString, b; exact Hb | reflexivity].
    + split; [discriminate|]. intros (a & b & Hab).
      destruct a; simpl in Hab; [|discriminate Hab].
      assert (String.prefix n EmptyString = true)
        by (apply prefix_spec; exists b; exact Hab).
      congruence.
  - cbn [includes]. destruct (String.prefix n (String c h)) eqn:P.
    + apply prefix_spec in P. destruct P as [b Hb].
      split; [intros _; exists EmptyString, b; exact Hb | reflexivity].
    + rewrite IH. split.
      * intros (a & b & ->). exists (String c a), b. reflexivity.
      * intros (a & b & Hab). destruct a as [|c' a]; simpl in Hab.
        -- assert (String.prefix n (String c h) = true)
             by (apply prefix_spec; exists b; exact Hab).
           congruence.
        -- injection Hab as _ Hab. exists a, b. exact Hab.
Qed.

Lemma list_ascii_app (a b : string) :
  list_ascii_of_string (a ++ b)
  = list_ascii_of_string a ++ list_ascii_of_string b.
Proof.
  induction a as [|c a IH]; simpl; [reflexivity|]. rewrite IH. reflexivity.
Qed.

Lemma string_of_uint_digits (u : Decimal.uint) :
  Forall (fun c => isDigit c = true)
         (list_ascii_of_string (NilEmpty.string_of_uint u)).
Proof.
  induction u; simpl; constructor; try reflexivity; assumption.
Qed.

(** The decimal form of a number is one or more digits. *)
Lemma decimal_digits (n : nat) :
  list_ascii_of_string (decimal n) <> []
  /\ Forall (fun c => isDigit c = true) (list_ascii_of_string (decimal n)).
Proof.
  unfold decimal, NilZero.string_of_uint.
  destruct (Nat.to_uint n) eqn:E;
    try (split; [discriminate | rewrite <- E; apply string_of_uint_digits]).
  split; [discriminate|]. repeat constructor.
Qed.

Lemma spanDigits_app (ds : list ascii) (c : ascii) (rest : list ascii) :
  Forall (fun d => isDigit d = true) ds -> isDigit c = false ->
  spanDigits (ds ++ c :: rest) = (ds, c :: rest).
Proof.
  intros H Hc. induction H as [|d ds Hd _ IH]; simpl.
  - rewrite Hc. reflexivity.
  - rewrite Hd, IH. reflexivity.
Qed.

Lemma endsWithSlash_rev (base : string) :
  endsWithSlash base = true ->
  exists before, rev (list_ascii_of_string base) = "/"%char :: before.
Proof.
  induction base as [|c base IH]; simpl; [discriminate|].
  destruct base as [|c' base'].
  - intros H. apply Ascii.eqb_eq in H. subst. exists []. reflexivity.
  - intros H. destruct (IH H) as [before Hb]. exists (before ++ [c]).
    rewrite Hb. reflexivity.
Qed.

(** The segment [buildNextPageUrl] appends is the segment it strips, with
    or without the final slash. *)
Lemma stripPageSegment_appended (base : string) (k : nat) (tail : string) :
  endsWithSlash base = true -> tail = "_p/" \/ tail = "_p" ->
  stripPageSegment (base ++ decimal k ++ tail) = base.
Proof.
  intros Hb Ht.
  destruct (endsWithSlash_rev base Hb) as [before Hr].
  destruct (decimal_digits k) as [Hne Hd].
  assert (Hrd : Forall (fun c => isDigit c = true)
                       (rev (list_ascii_of_string (decimal k))))
    by (apply Forall_rev; exact Hd).
  assert (Hrn : rev (list_ascii_of_string (decimal k)) <> []).
  { intros C. apply (f_equal (@rev ascii)) in C. rewrite rev_involutive in C.
    exact (Hne C). }
  assert (R : exists opt,
             rev (list_ascii_of_string (base ++ decimal k ++ tail))
             = opt ++ "p"%char :: "_"%char
                 :: rev (list_ascii_of_string (decimal k))
                 ++ "/"%char :: before
             /\ (opt = [] \/ opt = ["/"%char])).
  { rewrite !list_ascii_app, !rev_app_distr, Hr.
    destruct Ht as [-> | ->]; simpl.
    - exists ["/"%char]. auto.
    - exists []. auto. }
  destruct R as (opt & R & Hopt).
  unfold stripPageSegment. rewrite R.
  assert (S : spanDigits (rev (list_ascii_of_string (decimal k))
                          ++ "/"%char :: before)
              = (rev (list_ascii_of_string (decimal k)), "/"%char :: before))
    by (apply spanDigits_app; [exact Hrd | reflexivity]).
  destruct Hopt as [-> | ->]; cbn -[rev spanDigits string_of_list_ascii];
    rewrite S;
    (destruct (rev (list_ascii_of_string (decimal k))) as [|d ds];
     [congruence|]);
    cbn -[rev string_of_list_ascii];
    rewrite <- Hr, rev_involutive; apply string_of_list_ascii_of_string.
Qed.

(* ================================================================== *)
(** ** Paging twice *)
(* ================================================================== *)

Lemma pageBase_slash (path : string) : endsWithSlash (pageBase path) = true.
Proof.
  unfold pageBase.
  destruct (endsWithSlash (stripPageSegment path)) eqn:E;
    [exact E | apply endsWithSlash_app].
Qed.

Lemma pageBase_appended (base : string) (k : nat) :
  endsWithSlash base = true -> pageBase (base ++ decimal k ++ "_p/") = base.
Proof.
  intros H. unfold pageBase.
  rewrite (stripPageSegment_appended base k "_p/" H (or_introl eq_refl)), H.
  reflexivity.
Qed.

(** X6. Where the assignment of the path takes effect the page segment is
    replaced, never piled up: the next-page URL of a URL that parses is that
    URL with the path [base ++ "<n+1>_p/"] assigned, [base] ending in a
    slash, and when the assignment has stored that path and the new URL is
    parsed back to the same parts, its own next-page URL for page [m] is
    made by assigning [base ++ "<m+1>_p/"] with the same [base]. *)
Theorem next_page_replaces_segment {RT : JsRuntime}
  (currentUrl nextUrl : string) (n m : nat) (u : URL) :
  URL_parse currentUrl = Some u ->
  let base := pageBase (pathname u) in
  let next := URL_set_pathname u (base ++ decimal (n + 1) ++ "_p/") in
  pathname next = (base ++ decimal (n + 1) ++ "_p/")%string ->
  URL_parse nextUrl = Some next ->
  endsWithSlash base = true
  /\ buildNextPageUrl currentUrl n = Ret (Some (href next))
  /\ buildNextPageUrl nextUrl m
     = Ret (Some (href (URL_set_pathname next
                          (base ++ decimal (m + 1) ++ "_p/")))).
Proof.
  intros H base next Hp Hn.
  split; [apply pageBase_slash|].
  split.
  { unfold buildNextPageUrl, buildNextPageUrl_body, newURL. rewrite H.
    reflexivity. }
  unfold buildNextPageUrl, buildNextPageUrl_body, newURL. rewrite Hn.
  cbn [bind try_catch]. fold (pageBase (pathname next)).
  rewrite Hp.
  rewrite (pageBase_appended base (n + 1) (pageBase_slash (pathname u))).
  reflexivity.
Qed.

Lemma next_page_replaces_segment_witness :
  URL_parse (JsRuntime := plainRuntime) "https://www.trulia.com/NY?sort=new"
  = Some {| url_prefix := "https://www.trulia.com";
            pathname := "/NY";
            url_suffix := "?sort=new" |}
  /\ buildNextPageUrl (RT := plainRuntime) "https://www.trulia.com/NY?sort=new" 1
     = Ret (Some "https://www.trulia.com/NY/2_p/?sort=new")
  /\ buildNextPageUrl (RT := plainRuntime)
       "https://www.trulia.com/NY/2_p/?sort=new" 2
     = Ret (Some "https://www.trulia.com/NY/3_p/?sort=new").
Proof.
  split; [reflexivity|].
  pose proof (next_page_replaces_segment (RT := plainRuntime)
                "https://www.trulia.com/NY?sort=new"
                "https://www.trulia.com/NY/2_p/?sort=new" 1 2
                {| url_prefix := "https://www.trulia.com";
                   pathname := "/NY";
                   url_suffix := "?sort=new" |}
                eq_refl eq_refl eq_refl) as (_ & A & B).
  split; [exact A | exact B].
Defined.

(** A URL with an opaque path comes back as it is. *)
Example opaque_path_unchanged :
  buildNextPageUrl (RT := plainRuntime) "mailto:agent@trulia.com" 1
  = Ret (Some "mailto:agent@trulia.com").
Proof. reflexivity. Qed.

(* ================================================================== *)
(** ** When the handler throws *)
(* ================================================================== *)

Lemma blocked_spec (title : string) :
  blocked title = true
  <-> exists sig pre post,
        In sig signatures /\ title = (pre ++ sig ++ post)%string.
Proof.
  unfold blocked, signatures. split.
  - intros H. apply orb_prop in H. destruct H as [H | H];
      [apply orb_prop in H; destruct H as [H | H]|];
      apply includes_spec in H; destruct H as (a & b & H);
      eexists _, a, b; (split; [|exact H]); simpl; auto.
  - intros (sig & pre & post & Hs & ->).
    assert (I : includes sig (pre ++ sig ++ post) = true)
      by (apply includes_spec; eauto).
    simpl in Hs. destruct Hs as [<- | [<- | [<- | []]]]; rewrite I;
      rewrite ?orb_true_r; reflexivity.
Qed.

Section ThrowFacts.
Context {RT : JsRuntime}.
Variable RW : Num.
Variable MP : Num.

Lemma paginate_returns (request : Request) (st : CrawlState) :
  fst (paginate RW MP request st) = Ret tt.
Proof.
  unfold paginate.
  destruct (nat_lt (saved st) RW && nat_lt (pageNoOf request) MP);
    [|reflexivity].
  destruct (buildNextPageUrl_returns (url request) (pageNoOf request))
    as [r ->].
  destruct r as [u|]; [|reflexivity].
  destruct (negb (isEmptyString u) && negb (has (Str u) (seenUrls st)));
    reflexivity.
Qed.

Lemma handlePage_outcome (request : Request) (pg : Page) (session : bool)
  (st : CrawlState) :
  fst (handlePage RW request pg session st)
  = if blocked (title_text pg)
    then Throw (Error "Blocked by anti-bot protection")
    else Ret tt.
Proof.
  unfold handlePage. destruct (blocked (title_text pg)); [reflexivity|].
  destruct (extractListings_returns (pageNoOf request) pg st)
    as [l [E | [-> E]]]; rewrite E; reflexivity.
Qed.

End ThrowFacts.

(** X7. The handler throws exactly on a blocked page: its outcome is the
    error when the title contains [Access Denied], [Captcha] or [Robot]
    anywhere, in this spelling, and a normal return for every other page,
    whatever its scripts hold. *)
Theorem handler_throws_iff_blocked {RT : JsRuntime} (RW MP : Num)
  (request : Request) (pg : Page) (session : bool) (st : CrawlState) :
  (fst (requestHandler RW MP request pg session st)
   = Throw (Error "Blocked by anti-bot protection")
   <-> exists sig pre post,
         In sig signatures /\ title_text pg = (pre ++ sig ++ post)%string)
  /\ (fst (requestHandler RW MP request pg session st) = Ret tt
      <-> ~ exists sig pre post,
              In sig signatures
              /\ title_text pg = (pre ++ sig ++ post)%string).
Proof.
  assert (O : fst (requestHandler RW MP request pg session st)
              = if blocked (title_text pg)
                then Throw (Error "Blocked by anti-bot protection")
                else Ret tt).
  { pose proof (handlePage_outcome RW request pg session st) as H.
    unfold requestHandler.
    destruct (handlePage RW request pg session st) as [[[]|e] st1];
      simpl in H.
    - rewrite paginate_returns. exact H.
    - simpl. exact H. }
  rewrite O, <- blocked_spec.
  destruct (blocked (title_text pg)); split; split;
    try discriminate; try reflexivity; try congruence; auto.
Qed.

Example lower_case_title_not_blocked :
  fst (requestHandler (RT := plainRuntime) (Fin 20) (Fin 5) startRequest
         {| title_text := "access denied - captcha - robot";
            nextDataScript := None; ldJsonScripts := [] |}
         true initialState)
  = Ret tt.
Proof. reflexivity. Qed.

Example street_name_blocks :
  fst (requestHandler (RT := plainRuntime) (Fin 20) (Fin 5) startRequest
         {| title_text := "12 Robotham Rd, Albany, NY | Trulia";
            nextDataScript := None; ldJsonScripts := [] |}
         true initialState)
  = Throw (Error "Blocked by anti-bot protection").
Proof. reflexivity. Qed.

(* ================================================================== *)
(** ** One record per home *)
(* ================================================================== *)

Lemma mapM_Forall2 {A B : Type} (f : A -> Outcome B) :
  forall l ys, mapM f l = Ret ys -> Forall2 (fun x y => f x = Ret y) l ys.
Proof.
  induction l as [|x l IH]; intros ys H; simpl in H.
  - injection H as <-. constructor.
  - open_binds H. injection H as <-. constructor; auto.
Qed.

Lemma mapM_throws {A B : Type} (f : A -> Outcome B) (l : list A) :
  (exists e, mapM f l = Throw e) <-> exists x e, In x l /\ f x = Throw e.
Proof.
  induction l as [|x l IH]; simpl.
  - split; [intros [e H]; discriminate H | intros (x & e & [] & _)].
  - destruct (f x) as [y|e] eqn:F; simpl.
    + destruct (mapM f l) as [ys|e] eqn:M; simpl.
      * split; [intros [e H]; discriminate H|].
        intros (x' & e & [<- | Hin] & Hx); [congruence|].
        destruct (proj2 IH (ex_intro _ x' (ex_intro _ e (conj Hin Hx))))
          as [e' He']. discriminate He'.
      * split; [|intros _; eexists; reflexivity].
        intros _. destruct (proj1 IH (ex_intro _ e eq_refl))
          as (x' & e' & Hin & Hx).
        exists x', e'. auto.
    + split; [|intros _; eexists; reflexivity].
      intros _. exists x, e. auto.
Qed.

Section HomeFacts.
Context {RT : JsRuntime}.

Lemma extractFromNextData_homes (pg : Page) (json : Val) (hs : list Val) :
  nextDataScript pg = Some (Json json) -> embeddedHomes json = Some hs ->
  extractFromNextData pg
  = match mapM mapHome hs with
    | Ret ls => Ret (Some ls)
    | Throw _ => Ret None
    end.
Proof.
  intros Hs Hh. unfold extractFromNextData, extractFromNextData_body.
  rewrite Hs. cbn [JSON_parse bind]. unfold embeddedHomes in Hh.
  cbv zeta in Hh |- *.
  match type of Hh with
  | (if truthy ?x then _ else _) = _ =>
      destruct (truthy x) eqn:T; [|discriminate Hh]
  end.
  cbn [negb]. rewrite (get_truthy _ _ T). cbn [bind].
  match type of Hh with
  | match ?h with _ => _ end = _ => destruct h; try discriminate Hh
  end.
  injection Hh as ->.
  destruct (mapM mapHome hs); reflexivity.
Qed.

Lemma field_url_throws (home : Val) :
  truthy (oget home "url") = true ->
  (forall s, oget home "url" <> Str s) ->
  field_url home = Throw TypeError.
Proof.
  intros T N. unfold field_url, get.
  destruct (nullish home) eqn:E; [reflexivity|]. cbn [bind].
  rewrite T. destruct (oget home "url"); try reflexivity.
  exfalso. eapply N. reflexivity.
Qed.

Lemma mapHome_throws_if_url_throws (home : Val) (e : Exn) :
  field_url home = Throw e -> exists e', mapHome home = Throw e'.
Proof.
  intros U. unfold mapHome.
  repeat match goal with
         | |- exists e', bind (field_url _) _ = Throw e' =>
             rewrite U; eexists; reflexivity
         | |- exists e', bind ?m _ = Throw e' =>
             destruct m; cbn [bind]; [|eexists; reflexivity]
         end.
Qed.

Lemma mapHome_nullish (home : Val) :
  nullish home = true -> mapHome home = Throw TypeError.
Proof.
  intros H. unfold mapHome, field_price, get. rewrite H. reflexivity.
Qed.

End HomeFacts.

(** X8. When the embedded document has a homes array, the strategy returns
    one record per home, in the order of the array, or nothing at all: its
    result is null exactly when the mapping of some home throws, as it does
    for a home that is null and for a home whose [url] is truthy but not a
    string. *)
Theorem one_record_per_home {RT : JsRuntime} (pg : Page) (json : Val)
  (hs : list Val) :
  nextDataScript pg = Some (Json json) -> embeddedHomes json = Some hs ->
  (forall ls, extractFromNextData pg = Ret (Some ls) ->
              Forall2 (fun h l => mapHome h = Ret l) hs ls)
  /\ (extractFromNextData pg = Ret None
      <-> exists h e, In h hs /\ mapHome h = Throw e)
  /\ (forall h, In h hs ->
        nullish h = true
        \/ (truthy (oget h "url") = true /\ forall s, oget h "url" <> Str s) ->
        extractFromNextData pg = Ret None).
Proof.
  intros Hs Hh. pose proof (extractFromNextData_homes pg json hs Hs Hh) as E.
  assert (N : extractFromNextData pg = Ret None
              <-> exists h e, In h hs /\ mapHome h = Throw e).
  { rewrite E, <- mapM_throws.
    destruct (mapM mapHome hs) as [ls|e]; split;
      try discriminate; try (intros [e' H]; discriminate H);
      try reflexivity.
    intros _. exists e. reflexivity. }
  split.
  { intros ls H. rewrite E in H. apply mapM_Forall2.
    destruct (mapM mapHome hs); [congruence | discriminate H]. }
  split; [exact N|].
  intros h Hin [Hn | [T S]]; apply N.
  - exists h, TypeError. split; [exact Hin | apply mapHome_nullish; exact Hn].
  - destruct (mapHome_throws_if_url_throws h TypeError
                (field_url_throws h T S)) as [e He].
    exists h, e. auto.
Qed.

Lemma one_record_per_home_witness :
  embeddedHomes (searchDocument [homeNo 1; Obj [("url", Number (Fin 7))]; homeNo 3])
  = Some [homeNo 1; Obj [("url", Number (Fin 7))]; homeNo 3]
  /\ extractFromNextData (RT := plainRuntime)
       (searchPage [homeNo 1; Obj [("url", Number (Fin 7))]; homeNo 3])
     = Ret None.
Proof.
  split; [reflexivity|].
  apply (proj2 (proj2
    (one_record_per_home (RT := plainRuntime)
       (searchPage [homeNo 1; Obj [("url", Number (Fin 7))]; homeNo 3])
       (searchDocument [homeNo 1; Obj [("url", Number (Fin 7))]; homeNo 3])
       [homeNo 1; Obj [("url", Number (Fin 7))]; homeNo 3]
       eq_refl eq_refl))
    (Obj [("url", Number (Fin 7))])).
  - right. left. reflexivity.
  - right. split; [reflexivity|]. intros s C. discriminate C.
Defined.

(* ================================================================== *)
(** ** The [url] and [sqft] of an embedded-data record *)
(* ================================================================== *)

Lemma prefix_slash (s : string) :
  startsWith "/" s = true -> exists rest, s = String "/" rest.
Proof.
  unfold startsWith. intros H. apply prefix_spec in H.
  destruct H as [b ->]. exists b. reflexivity.
Qed.

Section UrlFacts.
Context {RT : JsRuntime}.

Lemma field_url_site (home v : Val) :
  field_url home = Ret v -> siteUrlOrNull v.
Proof.
  unfold field_url. intros H. open_bind H.
  destruct (truthy a); [|injection H as <-; left; reflexivity].
  destruct a; try discriminate H. injection H as <-. right.
  destruct (startsWith "/" s) eqn:P.
  - destruct (prefix_slash s P) as [rest ->]. exists rest. reflexivity.
  - exists s. reflexivity.
Qed.

Lemma mapHome_url (home : Val) (l : Listing) :
  mapHome home = Ret l -> field_url home = Ret (lookup "url" l).
Proof.
  unfold mapHome. intros H. open_binds H. injection H as <-.
  reflexivity.
Qed.

Lemma mapHome_sqft (home : Val) (l : Listing) :
  mapHome home = Ret l -> field_sqft home = Ret (lookup "sqft" l).
Proof.
  unfold mapHome. intros H. open_binds H. injection H as <-.
  reflexivity.
Qed.

End UrlFacts.

Lemma truthy_site (v : Val) :
  siteUrlOrNull v -> v = Null \/ truthy v = true.
Proof. intros [-> | [rest ->]]; auto. Qed.

(** X9. Every record of the embedded-data strategy has a [url] that is null
    or the home's [url] put after [https://www.trulia.com/], with no slash
    doubled; the home's own value is not looked at beyond its first
    character, so one that is already absolute is prefixed all the same.  A
    record with a [url] has it as its key. *)
Theorem listing_urls_on_site {RT : JsRuntime} (pg : Page)
  (ls : list Listing) :
  extractFromNextData pg = Ret (Some ls) ->
  Forall (fun l => siteUrlOrNull (lookup "url" l)
                   /\ (lookup "url" l <> Null ->
                       listingKey l = lookup "url" l))
         ls
  /\ (forall home u l,
        oget home "url" = Str u -> isEmptyString u = false ->
        mapHome home = Ret l ->
        lookup "url" l
        = Str ("https://www.trulia.com"
               ++ (if startsWith "/" u then EmptyString else "/") ++ u)).
Proof.
  intros H. split.
  - unfold extractFromNextData, try_catch in H.
    destruct (extractFromNextData_body pg) as [r|e] eqn:B; [|discriminate].
    injection H as ->. unfold extractFromNextData_body in B.
    destruct (nextDataScript pg); [|discriminate].
    open_binds B.
    match type of B with
    | (if negb (truthy ?x) then _ else _) = _ => destruct (negb (truthy x))
    end; [discriminate|].
    open_binds B. destruct a0; try discriminate. open_binds B.
    injection B as <-.
    eapply mapM_Forall; [|eassumption].
    intros home l M. pose proof (field_url_site _ _ (mapHome_url _ _ M)) as S.
    split; [exact S|]. intros Hn. apply listingKey_url.
    destruct (truthy_site _ S); [contradiction | assumption].
  - intros home u l Hu Hne M. apply mapHome_url in M.
    unfold field_url, get in M. destruct home; try discriminate Hu.
    cbn [nullish bind] in M. rewrite Hu in M. cbn [truthy] in M.
    rewrite Hne in M. cbn [negb] in M. congruence.
Qed.

Lemma listing_urls_on_site_witness :
  extractFromNextData (RT := plainRuntime)
    (searchPage [Obj [("url", Str "https://www.trulia.com/p/ny/home-1")]])
  = Ret (Some
      [ [ ("price", Null); ("beds", Null); ("baths", Null); ("sqft", Null);
          ("lot_size", Null); ("address", Null); ("city", Null);
          ("state", Null); ("zip_code", Null); ("full_address", Null);
          ("latitude", Null); ("longitude", Null); ("property_type", Null);
          ("listing_by", Null); ("description", Null); ("image_url", Null);
          ("url",
           Str "https://www.trulia.com/https://www.trulia.com/p/ny/home-1") ] ])
  /\ Forall (fun l => siteUrlOrNull (lookup "url" l)
                      /\ (lookup "url" l <> Null ->
                          listingKey l = lookup "url" l))
       [ [ ("price", Null); ("beds", Null); ("baths", Null); ("sqft", Null);
           ("lot_size", Null); ("address", Null); ("city", Null);
           ("state", Null); ("zip_code", Null); ("full_address", Null);
           ("latitude", Null); ("longitude", Null); ("property_type", Null);
           ("listing_by", Null); ("description", Null); ("image_url", Null);
           ("url",
            Str "https://www.trulia.com/https://www.trulia.com/p/ny/home-1") ] ].
Proof.
  split; [reflexivity|].
  exact (proj1 (listing_urls_on_site (RT := plainRuntime)
                  (searchPage [Obj [("url", Str "https://www.trulia.com/p/ny/home-1")]])
                  _ eq_refl)).
Defined.

Lemma includes_comma (s : string) :
  includes "," (removeCommas s) = false.
Proof.
  induction s as [|c s IH]; [reflexivity|]. simpl.
  destruct (Ascii.eqb c ",") eqn:E; [exact IH|].
  cbn [includes]. rewrite IH.
  destruct (String.prefix "," (String c (removeCommas s))) eqn:P;
    [|reflexivity].
  apply prefix_spec in P. destruct P as [b Hb]. injection Hb as -> _.
  rewrite Ascii.eqb_refl in E. discriminate E.
Qed.

(** X10. When a home's [floorSpace.formattedDimension] is a string that is
    not empty once the unit and the commas are taken out, the record's
    [sqft] is that string, and it holds no comma. *)
Theorem sqft_without_commas {RT : JsRuntime} (home : Val) (l : Listing)
  (d : string) :
  mapHome home = Ret l ->
  oget (oget home "floorSpace") "formattedDimension" = Str d ->
  isEmptyString (removeCommas (replace_sqft d)) = false ->
  lookup "sqft" l = Str (removeCommas (replace_sqft d))
  /\ includes "," (removeCommas (replace_sqft d)) = false.
Proof.
  intros M Hd Hne. split; [|apply includes_comma].
  apply mapHome_sqft in M. unfold field_sqft, get in M.
  destruct home; try discriminate Hd. cbn [nullish bind] in M.
  rewrite Hd in M. cbn [replaceCall bind truthy] in M.
  rewrite Hne in M. cbn [negb] in M. congruence.
Qed.

Lemma sqft_without_commas_witness :
  mapHome (RT := plainRuntime)
    (Obj [("floorSpace", Obj [("formattedDimension", Str "1,654 sqft")])])
  = Ret [ ("price", Null); ("beds", Null); ("baths", Null);
          ("sqft", Str "1654"); ("lot_size", Null); ("address", Null);
          ("city", Null); ("state", Null); ("zip_code", Null);
          ("full_address", Null); ("latitude", Null); ("longitude", Null);
          ("property_type", Null); ("listing_by", Null);
          ("description", Null); ("image_url", Null); ("url", Null) ]
  /\ includes ","
       (removeCommas (replace_sqft (JsRuntime := plainRuntime) "1,654 sqft"))
     = false.
Proof.
  split; [reflexivity|].
  exact (proj2 (sqft_without_commas (RT := plainRuntime)
                  (Obj [("floorSpace",
                         Obj [("formattedDimension", Str "1,654 sqft")])])
                  _ "1,654 sqft" eq_refl eq_refl eq_refl)).
Defined.

(* ================================================================== *)
(** ** The records of the linked-data scripts *)
(* ================================================================== *)

Lemma forItems_acc (items : list Val) :
  forall acc, fst (forItems items acc) = acc ++ fst (forItems items []).
Proof.
  induction items as [|item items IH]; intros acc; simpl.
  - symmetry. apply app_nil_r.
  - destruct (isListingItem item) as [[|]|e]; simpl.
    + rewrite (IH (acc ++ [jsonLdRecord item])), (IH [jsonLdRecord item]).
      rewrite <- app_assoc. reflexivity.
    + apply IH.
    + symmetry. apply app_nil_r.
Qed.

Lemma forItems_matching (items : list Val) :
  fst (forItems items []) = map jsonLdRecord (matchingItems items).
Proof.
  induction items as [|item items IH]; simpl; [reflexivity|].
  destruct (isListingItem item) as [[|]|e]; simpl; try assumption;
    try reflexivity.
  rewrite forItems_acc, IH. reflexivity.
Qed.

Lemma eachLdScript_acc (acc : list Listing) (el : Parsed) :
  eachLdScript acc el = acc ++ eachLdScript [] el.
Proof.
  unfold eachLdScript. destruct (JSON_parse el);
    [apply forItems_acc | symmetry; apply app_nil_r].
Qed.

Lemma fold_eachLdScript (scripts : list Parsed) :
  forall acc,
    fold_left eachLdScript scripts acc
    = acc ++ List.concat (map (eachLdScript []) scripts).
Proof.
  induction scripts as [|el scripts IH]; intros acc; simpl.
  - symmetry. apply app_nil_r.
  - rewrite IH, eachLdScript_acc, <- app_assoc. reflexivity.
Qed.

Lemma matchingItems_cut (pre post : list Val) (bad : Val) :
  (exists e, isListingItem bad = Throw e) ->
  matchingItems (pre ++ bad :: post) = matchingItems pre.
Proof.
  intros [e He]. induction pre as [|x pre IH]; simpl.
  - rewrite He. reflexivity.
  - destruct (isListingItem x) as [[|]|e']; try rewrite IH; reflexivity.
Qed.

(** X11. The linked-data records of a page are the records of its scripts
    put end to end in document order; a script that does not parse
    contributes none and takes none away; a script contributes the records
    of its matching items, in order, up to the first item on which the type
    test throws. *)
Theorem linked_data_records (pg : Page) :
  orEmpty (extractFromJsonLd pg)
  = List.concat (map (eachLdScript []) (ldJsonScripts pg))
  /\ (extractFromJsonLd pg = None
      <-> List.concat (map (eachLdScript []) (ldJsonScripts pg)) = [])
  /\ eachLdScript [] Malformed = []
  /\ (forall items,
        eachLdScript [] (Json (Arr items))
        = map jsonLdRecord (matchingItems items))
  /\ (forall item,
        isArray item = false ->
        eachLdScript [] (Json item) = map jsonLdRecord (matchingItems [item])).
Proof.
  unfold extractFromJsonLd. rewrite fold_eachLdScript. simpl.
  destruct (List.concat (map (eachLdScript []) (ldJsonScripts pg))) eqn:C;
    simpl.
  - repeat split; auto; try (intros; apply forItems_matching).
    intros item Hi. unfold eachLdScript. simpl.
    destruct item; try discriminate Hi; apply (forItems_matching [_]).
  - repeat split; auto; try discriminate;
      try (intros; apply forItems_matching).
    intros item Hi. unfold eachLdScript. simpl.
    destruct item; try discriminate Hi; apply (forItems_matching [_]).
Qed.

(** X12. An item on which the type test throws ends its script: the items
    before it keep their records and the items after it are lost.  A null
    item is such an item, and so is one whose [@type] is an object with an
    [includes] property. *)
Theorem bad_item_cuts_script (acc : list Listing) (pre post : list Val)
  (bad : Val) :
  (nullish bad = true
   \/ (exists props v,
         oget bad "@type" = Obj props /\ lookup "includes" props = v
         /\ nullish v = false)) ->
  eachLdScript acc (Json (Arr (pre ++ bad :: post)))
  = eachLdScript acc (Json (Arr pre)).
Proof.
  intros H.
  assert (T : exists e, isListingItem bad = Throw e).
  { destruct H as [H | (props & v & Ht & Hv & Hn)].
    - exists TypeError. unfold isListingItem, get. rewrite H. reflexivity.
    - exists TypeError. unfold isListingItem, get.
      destruct bad; try discriminate Ht. cbn [nullish bind]. rewrite Ht.
      cbn [strict_eq_str includesCall]. rewrite Hv, Hn. reflexivity. }
  rewrite (eachLdScript_acc acc), (eachLdScript_acc acc (Json (Arr pre))).
  f_equal. unfold eachLdScript. cbn [JSON_parse].
  rewrite !forItems_matching, (matchingItems_cut pre post bad T).
  reflexivity.
Qed.

Lemma bad_item_cuts_script_witness :
  nullish Null = true
  /\ eachLdScript []
       (Json (Arr ([ldListing "12 Elm St" "https://www.trulia.com/p/ny/home-1"]
                   ++ Null
                   :: [ldListing "7 Oak Ave" "https://www.trulia.com/p/ny/home-2"])))
     = eachLdScript []
         (Json (Arr [ldListing "12 Elm St" "https://www.trulia.com/p/ny/home-1"])).
Proof.
  split; [reflexivity|].
  apply (bad_item_cuts_script []
           [ldListing "12 Elm St" "https://www.trulia.com/p/ny/home-1"]
           [ldListing "7 Oak Ave" "https://www.trulia.com/p/ny/home-2"] Null).
  left. reflexivity.
Defined.

(* ================================================================== *)
(** ** The records of the card strategy *)
(* ================================================================== *)

Lemma ostr_stringish (o : option string) :
  isStringOrNull (ostr o) = true \/ ostr o = Undefined.
Proof. destruct o; simpl; auto. Qed.

Lemma or_val_string (a b : Val) :
  isStringOrNull a = true \/ a = Undefined ->
  isStringOrNull b = true -> isStringOrNull (a ||| b) = true.
Proof.
  unfold or_val. intros [H | ->] Hb; [|exact Hb].
  destruct (truthy a); assumption.
Qed.

Lemma ostr_or_string (o : option string) (b : Val) :
  isStringOrNull b = true -> isStringOrNull (ostr o ||| b) = true.
Proof. intros H. apply or_val_string; [apply ostr_stringish | exact H]. Qed.

Lemma str_or_string (s : string) (b : Val) :
  isStringOrNull b = true -> isStringOrNull (Str s ||| b) = true.
Proof. intros H. apply or_val_string; [left; reflexivity | exact H]. Qed.

Lemma or_string_left (a b : Val) :
  isStringOrNull a = true -> isStringOrNull b = true ->
  isStringOrNull (a ||| b) = true.
Proof. intros Ha Hb. apply or_val_string; auto. Qed.

Lemma ostr_ostr_string (a b : option string) :
  isStringOrNull (ostr a ||| ostr b ||| Null) = true.
Proof.
  apply or_val_string; [|reflexivity].
  unfold or_val. destruct (truthy (ostr a)); apply ostr_stringish.
Qed.

Create HintDb strs.

#[local] Hint Resolve ostr_or_string str_or_string or_string_left
  ostr_ostr_string : strs.

Section CardFacts.
Context {RT : JsRuntime}.

Lemma cardListing_canonical (baseUrl : string) (card : Card) (l : Listing) :
  cardListing baseUrl card = Ret (Some l) ->
  canonicalRecord l /\ cardUrl baseUrl (lookup "url" l).
Proof.
  unfold cardListing. intros H. open_bind H.
  assert (U : isStringOrNull a = true /\ cardUrl baseUrl a).
  { unfold cardUrl. destruct (linkHref card) as [u|]; simpl in E.
    - unfold or_val in E. cbn [truthy] in E.
      destruct (isEmptyString u) eqn:Eu; cbn -[startsWith] in E.
      + injection E as <-. auto.
      + destruct (startsWith "http" u) eqn:P; cbn -[startsWith] in E;
          rewrite ?Eu in E; cbn -[startsWith] in E.
        * injection E as <-. split; [reflexivity|]. right. eauto.
        * destruct (URL_resolve u baseUrl) as [h|] eqn:R; [|discriminate E].
          injection E as <-. split; [reflexivity|]. right. eauto.
    - injection E as <-. auto. }
  destruct U as [Ua Uc].
  match type of H with
  | (if ?g then _ else _) = _ => destruct g
  end; [|discriminate H].
  injection H as <-. split; [|exact Uc].
  unfold canonicalRecord. split; [reflexivity|].
  cbn [forallb snd].
  repeat match goal with
         | |- _ && _ = true => apply andb_true_intro; split
         end;
    auto with strs;
    try (destruct (lotMatch card); reflexivity);
    try (destruct (stateZipMatch card) as [[s [z|]]|]; auto with strs).
Qed.

Lemma extractFromHtml_app (baseUrl : string) (c1 c2 : list Card) :
  extractFromHtml baseUrl (c1 ++ c2)
  = extractFromHtml baseUrl c1 ++ extractFromHtml baseUrl c2.
Proof.
  induction c1 as [|card c1 IH]; simpl; [reflexivity|].
  destruct (cardListing baseUrl card) as [[l|]|e]; rewrite IH; reflexivity.
Qed.

Lemma cardListing_unresolved (baseUrl : string) (card : Card) (u : string) :
  linkHref card = Some u -> isEmptyString u = false ->
  startsWith "http" u = false -> URL_resolve u baseUrl = None ->
  cardListing baseUrl card = Throw TypeError.
Proof.
  intros L Hu Hp Hr. unfold cardListing. rewrite L.
  assert (P : ostr (Some u) ||| Null = Str u)
    by (unfold or_val; simpl; rewrite Hu; reflexivity).
  rewrite P. cbn [truthy negb andb bind]. rewrite Hu, Hp, Hr. reflexivity.
Qed.

End CardFacts.

(** X13. Every record of the card strategy has exactly the 13 canonical
    fields, each a string or null, and a [url] that is null, or starts with
    [http], or is the link resolved against the page; there is at most one
    record per card. *)
Theorem card_records_canonical {RT : JsRuntime} (baseUrl : string)
  (cards : list Card) :
  Forall (fun l => canonicalRecord l /\ cardUrl baseUrl (lookup "url" l))
         (extractFromHtml baseUrl cards)
  /\ List.length (extractFromHtml baseUrl cards) <= List.length cards.
Proof.
  induction cards as [|card cards [IH1 IH2]]; simpl.
  - split; [constructor | lia].
  - destruct (cardListing baseUrl card) as [[l|]|e] eqn:E;
      try (split; [exact IH1 | lia]).
    split; [|simpl; lia].
    constructor; [|exact IH1]. eapply cardListing_canonical. exact E.
Qed.

(** X14. A card whose link is relative and cannot be resolved against the
    page is dropped whole, whatever price and address it has, and the cards
    around it are not affected. *)
Theorem unresolved_link_drops_card {RT : JsRuntime} (baseUrl : string)
  (c1 c2 : list Card) (card : Card) (u : string) :
  linkHref card = Some u -> isEmptyString u = false ->
  startsWith "http" u = false -> URL_resolve u baseUrl = None ->
  extractFromHtml baseUrl (c1 ++ card :: c2)
  = extractFromHtml baseUrl (c1 ++ c2).
Proof.
  intros L Hu Hp Hr. rewrite !extractFromHtml_app. f_equal. simpl.
  rewrite (cardListing_unresolved baseUrl card u L Hu Hp Hr). reflexivity.
Qed.

Lemma unresolved_link_drops_card_witness :
  linkHref unlinkedCard = Some "p/ny/7-oak-ave"
  /\ URL_resolve (JsRuntime := plainRuntime) "p/ny/7-oak-ave" "not a url" = None
  /\ extractFromHtml (RT := plainRuntime) "not a url"
       ([pricedCard] ++ unlinkedCard :: [emptyCard])
     = extractFromHtml (RT := plainRuntime) "not a url"
         ([pricedCard] ++ [emptyCard]).
Proof.
  split; [reflexivity|]. split; [reflexivity|].
  exact (unresolved_link_drops_card (RT := plainRuntime) "not a url"
           [pricedCard] [emptyCard] unlinkedCard "p/ny/7-oak-ave"
           eq_refl eq_refl eq_refl eq_refl).
Defined.

(* ================================================================== *)
(** ** The embedded-data strategy of the older file *)
(* ================================================================== *)

Lemma orElse_inv (a b : Outcome Val) (r : Val) :
  orElse a b = Ret r ->
  (a = Ret r /\ truthy r = true) \/ b = Ret r.
Proof.
  unfold orElse. intros H. open_bind H.
  destruct (truthy a0) eqn:T; [|right; exact H].
  injection H as <-. left. auto.
Qed.

(** Opens a bind that is known to return, leaving [orElse] folded. *)
Ltac open_head H :=
  match type of H with
  | bind ?m _ = Ret _ =>
      let E := fresh "E" in
      destruct m eqn:E; cbn [bind] in H; [|discriminate H]
  end.

(** Opens a chain of [orElse] down to its last alternative. *)
Ltac open_orElse H :=
  repeat (apply orElse_inv in H;
          destruct H as [[H ?] | H];
          [try (injection H as <-); auto with fields|]).

Section LegacyFacts.
Context {RT : JsRuntime}.

Lemma toStringCall_truthy (v r : Val) :
  toStringCall v = Ret r -> truthy r = true -> isStringOrNull r = true.
Proof.
  intros H T. destruct (toStringCall_string v r H) as [S | ->];
    [exact S | discriminate T].
Qed.

Lemma legacy_price_ok (home r : Val) :
  legacy_price home = Ret r -> nullOrTruthy r = true.
Proof.
  unfold legacy_price. intros H. open_head H. open_orElse H.
  injection H as <-. auto with fields.
Qed.

Lemma legacy_count_ok (a b : string) (home r : Val) :
  legacy_count a b home = Ret r ->
  isStringOrNull r = true /\ nullOrTruthy r = true.
Proof.
  unfold legacy_count. intros H.
  apply orElse_inv in H. destruct H as [[H T] | H].
  { open_head H. split; [|auto with fields].
    eapply toStringCall_truthy; eassumption. }
  apply orElse_inv in H. destruct H as [[H T] | H].
  { split; [|auto with fields]. eapply toStringCall_truthy; eassumption. }
  injection H as <-. auto.
Qed.

Lemma legacy_sqft_ok (home r : Val) :
  legacy_sqft home = Ret r -> nullOrTruthy r = true.
Proof.
  unfold legacy_sqft. intros H. open_head H. open_orElse H.
  injection H as <-. reflexivity.
Qed.

Lemma legacy_lot_size_ok (home r : Val) :
  legacy_lot_size home = Ret r -> nullOrTruthy r = true.
Proof.
  unfold legacy_lot_size. intros H. open_head H. open_orElse H.
  injection H as <-. reflexivity.
Qed.

Lemma legacy_address_ok (home r : Val) :
  legacy_address home = Ret r -> nullOrTruthy r = true.
Proof.
  unfold legacy_address. intros H. open_head H. injection H as <-.
  auto with fields.
Qed.

Lemma legacy_place_ok (k flat : string) (home r : Val) :
  legacy_place k flat home = Ret r -> nullOrTruthy r = true.
Proof.
  unfold legacy_place. intros H. open_head H. injection H as <-.
  auto with fields.
Qed.

Lemma legacy_property_type_ok (home r : Val) :
  legacy_property_type home = Ret r -> nullOrTruthy r = true.
Proof.
  unfold legacy_property_type. intros H. open_head H. injection H as <-.
  auto with fields.
Qed.

Lemma legacy_listing_by_ok (home r : Val) :
  legacy_listing_by home = Ret r -> nullOrTruthy r = true.
Proof.
  unfold legacy_listing_by. intros H. open_head H. injection H as <-.
  auto with fields.
Qed.

Lemma legacy_image_url_ok (home r : Val) :
  legacy_image_url home = Ret r -> nullOrTruthy r = true.
Proof.
  unfold legacy_image_url. intros H. open_head H. injection H as <-.
  auto with fields.
Qed.

Lemma mapHome_legacy_record (home : Val) (l : Listing) :
  mapHome_legacy home = Ret l ->
  keys l = canonicalFields
  /\ neverUndefined l = true
  /\ isStringOrNull (lookup "beds" l) = true
  /\ isStringOrNull (lookup "baths" l) = true
  /\ siteUrlOrNull (lookup "url" l).
Proof.
  unfold mapHome_legacy. intros H. open_binds H. injection H as <-.
  repeat match goal with
         | E : legacy_price _ = Ret _ |- _ => apply legacy_price_ok in E
         | E : legacy_count _ _ _ = Ret _ |- _ =>
             apply legacy_count_ok in E; destruct E
         | E : legacy_sqft _ = Ret _ |- _ => apply legacy_sqft_ok in E
         | E : legacy_lot_size _ = Ret _ |- _ => apply legacy_lot_size_ok in E
         | E : legacy_address _ = Ret _ |- _ => apply legacy_address_ok in E
         | E : legacy_place _ _ _ = Ret _ |- _ => apply legacy_place_ok in E
         | E : legacy_property_type _ = Ret _ |- _ =>
             apply legacy_property_type_ok in E
         | E : legacy_listing_by _ = Ret _ |- _ =>
             apply legacy_listing_by_ok in E
         | E : legacy_image_url _ = Ret _ |- _ => apply legacy_image_url_ok in E
         end.
  match goal with
  | E : field_url _ = Ret _ |- _ =>
      pose proof (field_url_site _ _ E) as Hsite;
      apply field_url_ok in E; destruct E
  end.
  unfold neverUndefined. simpl.
  repeat split; try assumption.
  repeat match goal with H : nullOrTruthy _ = true |- _ => rewrite H; clear H end.
  reflexivity.
Qed.

Lemma extractFromNextData_legacy_returns (pg : Page) :
  exists r, extractFromNextData_legacy pg = Ret r.
Proof.
  unfold extractFromNextData_legacy, try_catch.
  destruct (extractFromNextData_legacy_body pg); eexists; reflexivity.
Qed.

End LegacyFacts.

(** X15. The embedded-data strategy of the older main.js never throws, and
    each record it returns has exactly the 13 canonical fields, none
    undefined, with [beds] and [baths] a string or null and a [url] that is
    null or on the site. *)
Theorem legacy_record_fields {RT : JsRuntime} (pg : Page) :
  exists r,
    extractFromNextData_legacy pg = Ret r
    /\ forall ls, r = Some ls ->
         Forall (fun l => keys l = canonicalFields
                          /\ neverUndefined l = true
                          /\ isStringOrNull (lookup "beds" l) = true
                          /\ isStringOrNull (lookup "baths" l) = true
                          /\ siteUrlOrNull (lookup "url" l))
                ls.
Proof.
  destruct (extractFromNextData_legacy_returns pg) as [r E]. exists r.
  split; [exact E|]. intros ls ->.
  unfold extractFromNextData_legacy, try_catch in E.
  destruct (extractFromNextData_legacy_body pg) as [r|e] eqn:B;
    [|discriminate].
  injection E as ->. unfold extractFromNextData_legacy_body in B.
  destruct (nextDataScript pg); [|discriminate].
  open_bind B. cbv zeta in B.
  repeat match type of B with
         | (if negb (truthy ?x) then _ else _) = _ =>
             destruct (negb (truthy x)); [discriminate|]
         end.
  match type of B with
  | match ?h with _ => _ end = _ => destruct h; try discriminate B
  end.
  open_bind B. injection B as <-.
  eapply mapM_Forall; [|eassumption]. apply mapHome_legacy_record.
Qed.

Example legacy_flat_home :
  extractFromNextData_legacy (RT := plainRuntime)
    {| title_text := "NY";
       nextDataScript :=
         Some (Json (Obj [("props", Obj [("pageProps",
           Obj [("listings",
                 Arr [ Obj [ ("listingPrice", Str "$689,000");
                             ("beds", Number (Fin 3));
                             ("city", Str "Albany");
                             ("url", Str "p/ny/home-1") ] ])])])]));
       ldJsonScripts := [] |}
  = Ret (Some
      [ [ ("price", Str "$689,000"); ("beds", Str "3"); ("baths", Null);
          ("sqft", Null); ("lot_size", Null); ("address", Null);
          ("city", Str "Albany"); ("state", Null); ("zip_code", Null);
          ("property_type", Null); ("listing_by", Null);
          ("image_url", Null);
          ("url", Str "https://www.trulia.com/p/ny/home-1") ] ]).
Proof. reflexivity. Qed.
(* ================================================================== *)
(** ** The start URL *)
(* ================================================================== *)

Lemma allChars_app (p : ascii -> bool) (a b : string) :
  allChars p (a ++ b) = allChars p a && allChars p b.
Proof.
  induction a as [|c a IH]; simpl; [reflexivity|].
  rewrite IH, andb_assoc. reflexivity.
Qed.

Lemma percentEncode_safe (c : ascii) :
  allChars isSegmentChar (percentEncode c) = true.
Proof.
  destruct c as [[] [] [] [] [] [] [] []]; vm_compute; reflexivity.
Qed.

Lemma unreserved_not_surrogate (c : ascii) (rest : string) :
  isUnreserved c = true -> surrogateAt c rest = false.
Proof.
  intros U. unfold surrogateAt. destruct (Ascii.eqb c "237") eqn:E;
    [|reflexivity].
  apply Ascii.eqb_eq in E. subst c. discriminate U.
Qed.

Lemma encodeURIComponent_safe (s r : string) :
  encodeURIComponent s = Ret r -> allChars isSegmentChar r = true.
Proof.
  revert r. induction s as [|c s IH]; intros r; cbn [encodeURIComponent].
  - intros H. injection H as <-. reflexivity.
  - destruct (isUnreserved c) eqn:U.
    + destruct (encodeURIComponent s) as [r'|e]; cbn [bind];
        [|discriminate].
      intros H. injection H as <-. cbn [allChars].
      unfold isSegmentChar at 1. rewrite U, (IH r' eq_refl). reflexivity.
    + destruct (surrogateAt c s); [discriminate|].
      destruct (encodeURIComponent s) as [r'|e]; cbn [bind];
        [|discriminate].
      intros H.
      assert (X : r = (percentEncode c ++ r')%string) by congruence.
      subst r.
      rewrite allChars_app, percentEncode_safe, (IH r' eq_refl).
      reflexivity.
Qed.

(** The call throws exactly on a string with a lone surrogate, and what it
    throws is a URIError. *)
Lemma encodeURIComponent_cases (s : string) :
  if loneSurrogate s then encodeURIComponent s = Throw URIError
  else exists r, encodeURIComponent s = Ret r.
Proof.
  induction s as [|c s IH]; cbn [encodeURIComponent loneSurrogate].
  - exists EmptyString. reflexivity.
  - destruct (isUnreserved c) eqn:U.
    + rewrite (unreserved_not_surrogate c s U). cbn [orb].
      destruct (loneSurrogate s).
      * rewrite IH. reflexivity.
      * destruct IH as [r ->]. eexists. reflexivity.
    + destruct (surrogateAt c s); cbn [orb]; [reflexivity|].
      destruct (loneSurrogate s).
      * rewrite IH. reflexivity.
      * destruct IH as [r ->]. eexists. reflexivity.
Qed.

Lemma allChars_excludes (p : ascii -> bool) (c : ascii) (s : string) :
  p c = false -> allChars p s = true ->
  includes (String c EmptyString) s = false.
Proof.
  intros Hc. induction s as [|d s IH]; [reflexivity|].
  cbn [allChars]. intros H. apply andb_prop in H. destruct H as [Hd Hs].
  cbn [includes]. rewrite (IH Hs).
  destruct (String.prefix (String c EmptyString) (String d s)) eqn:P;
    [|reflexivity].
  apply prefix_spec in P. destruct P as [b Hb]. injection Hb as -> _.
  congruence.
Qed.

Section StartUrlFacts.
Context {SR : StringRuntime}.

Lemma buildStartUrl_string (s : string) (type : Val) :
  if loneSurrogate (replace_whitespace (toUpperCase s))
  then buildStartUrl (Str s) type = Throw URIError
  else exists seg,
         buildStartUrl (Str s) type
         = Ret ("https://www.trulia.com"
                ++ (if strict_eq_str type "rent" then "/for_rent/" else "/")
                ++ seg ++ "/")%string
         /\ allChars isSegmentChar seg = true.
Proof.
  pose proof (encodeURIComponent_cases (replace_whitespace (toUpperCase s)))
    as C.
  unfold buildStartUrl.
  destruct (loneSurrogate (replace_whitespace (toUpperCase s))).
  - rewrite C. reflexivity.
  - destruct C as [seg E]. exists seg.
    split; [|exact (encodeURIComponent_safe _ _ E)].
    rewrite E. cbn [bind].
    destruct (strict_eq_str type "rent"); reflexivity.
Qed.

Lemma buildStartUrl_not_string (loc type : Val) :
  (forall s, loc <> Str s) -> buildStartUrl loc type = Throw TypeError.
Proof.
  intros H. destruct loc; try reflexivity. exfalso. exact (H s eq_refl).
Qed.

End StartUrlFacts.

(** X16. [buildStartUrl] throws a TypeError for a location that is not a
    string, and a URIError for a string that holds a lone surrogate once it
    is upper-cased and its white space replaced.  For every other string it
    returns the site root, then [for_rent/] exactly when the listing type
    is the string [rent], then one path segment, then a slash.  The segment
    holds only letters, digits, [- _ . ! ~ * ' ( )] and [%], so no slash,
    question mark, hash or space, whatever the engine's upper-casing and
    white-space replacement return. *)
Theorem start_url_shape {SR : StringRuntime} (loc type : Val) :
  match loc with
  | Str s =>
      if loneSurrogate (replace_whitespace (toUpperCase s))
      then buildStartUrl loc type = Throw URIError
      else
        exists seg,
          buildStartUrl loc type
          = Ret ("https://www.trulia.com"
                 ++ (if strict_eq_str type "rent" then "/for_rent/" else "/")
                 ++ seg ++ "/")%string
          /\ allChars isSegmentChar seg = true
          /\ includes "/" seg = false /\ includes "?" seg = false
          /\ includes "#" seg = false /\ includes " " seg = false
  | _ => buildStartUrl loc type = Throw TypeError
  end.
Proof.
  destruct loc; try reflexivity.
  pose proof (buildStartUrl_string s type) as C.
  destruct (loneSurrogate (replace_whitespace (toUpperCase s))); [exact C|].
  destruct C as (seg & E & A).
  exists seg. split; [exact E|]. split; [exact A|].
  repeat split; apply (allChars_excludes isSegmentChar); auto.
Qed.

(** Text of unreserved characters is its own encoding. *)
Lemma encodeURIComponent_unreserved (s : string) :
  allChars isUnreserved s = true -> encodeURIComponent s = Ret s.
Proof.
  induction s as [|c s IH]; [reflexivity|]. cbn [allChars]. intros H.
  apply andb_prop in H. destruct H as [Hc Hs]. cbn [encodeURIComponent].
  rewrite Hc, (IH Hs). reflexivity.
Qed.

Example los_angeles_for_rent :
  buildStartUrl (SR := asciiStrings) (Str "Los  Angeles") (Str "rent")
  = Ret "https://www.trulia.com/for_rent/LOS_ANGELES/"%string.
Proof. reflexivity. Qed.

Example reserved_characters_encoded :
  buildStartUrl (SR := asciiStrings) (Str "a/b?c") (Str "buy")
  = Ret "https://www.trulia.com/A%2FB%3FC/"%string.
Proof. reflexivity. Qed.

Example lone_surrogate_throws :
  buildStartUrl (SR := asciiStrings) (Str ("ny" ++ loneLowSurrogate))
    (Str "buy")
  = Throw URIError.
Proof. reflexivity. Qed.

(** X17. Whenever the initial URL is computed it is either the given
    [start_url], truthy and taken as it is, or, with a falsy [start_url]
    and a string [location] (or none, that is [NY]), a string made of the
    site root, [for_rent/] or nothing, one encoded segment and a slash.
    When the computation throws, [start_url] is falsy and either it throws a
    TypeError and [location] is given and not a string, or it throws a
    URIError and [location] is a string that holds a lone surrogate once it
    is upper-cased and its white space replaced. *)
Theorem initial_url_cases {SR : StringRuntime} (got : Val) :
  (forall v, initialUrl got = Ret v ->
     (truthy v = true /\ v = oget (actorInput got) "start_url")
     \/ (truthy (oget (actorInput got) "start_url") = false
         /\ exists s seg,
              destructure (actorInput got) "location" (Str "NY") = Str s
              /\ allChars isSegmentChar seg = true
              /\ (v = Str ("https://www.trulia.com/" ++ seg ++ "/")
                  \/ v = Str ("https://www.trulia.com/for_rent/" ++ seg ++ "/"))))
  /\ (forall e, initialUrl got = Throw e ->
        truthy (oget (actorInput got) "start_url") = false
        /\ ((e = TypeError
             /\ oget (actorInput got) "location" <> Undefined
             /\ forall s, oget (actorInput got) "location" <> Str s)
            \/ (e = URIError
                /\ exists s,
                     destructure (actorInput got) "location" (Str "NY")
                     = Str s
                     /\ loneSurrogate (replace_whitespace (toUpperCase s))
                        = true))).
Proof.
  unfold initialUrl.
  destruct (truthy (oget (actorInput got) "start_url")) eqn:T.
  - split; [|discriminate]. intros v H. injection H as <-. left. auto.
  - destruct (destructure (actorInput got) "location" (Str "NY")) as
      [| |b|n|s|a|o] eqn:L.
    all: try (split; [discriminate|]; intros e H; simpl in H;
              injection H as <-; unfold destructure in L;
              destruct (oget (actorInput got) "location") eqn:O;
              simpl in L; try discriminate L;
              split; try reflexivity; left;
              repeat split; try reflexivity; discriminate).
    pose proof (buildStartUrl_string s
                  (destructure (actorInput got) "listing_type" (Str "buy")))
      as C.
    destruct (loneSurrogate (replace_whitespace (toUpperCase s))) eqn:W.
    + rewrite C. cbn [bind]. split; [discriminate|].
      intros e H. injection H as <-. split; [reflexivity|]. right.
      split; [reflexivity|]. exists s. auto.
    + destruct C as (seg & E & A). rewrite E. cbn [bind].
      split; [|discriminate].
      intros v H. injection H as <-. right.
      split; [reflexivity|]. exists s, seg. repeat split; try assumption.
      destruct (strict_eq_str _ "rent"); [right | left]; reflexivity.
Qed.

Lemma initial_url_cases_witness :
  initialUrl (SR := asciiStrings) (Obj [("location", Str "Los Angeles")])
  = Ret (Str "https://www.trulia.com/LOS_ANGELES/")
  /\ ((truthy (Str "https://www.trulia.com/LOS_ANGELES/") = true
       /\ Str "https://www.trulia.com/LOS_ANGELES/"
          = oget (actorInput (Obj [("location", Str "Los Angeles")]))
                 "start_url")
      \/ (truthy (oget (actorInput (Obj [("location", Str "Los Angeles")]))
                       "start_url") = false
          /\ exists s seg,
               destructure (actorInput (Obj [("location", Str "Los Angeles")]))
                 "location" (Str "NY") = Str s
               /\ allChars isSegmentChar seg = true
               /\ (Str "https://www.trulia.com/LOS_ANGELES/"
                   = Str ("https://www.trulia.com/" ++ seg ++ "/")
                   \/ Str "https://www.trulia.com/LOS_ANGELES/"
                      = Str ("https://www.trulia.com/for_rent/" ++ seg ++ "/")))).
Proof.
  split; [reflexivity|].
  exact (proj1 (initial_url_cases (SR := asciiStrings)
                  (Obj [("location", Str "Los Angeles")]))
               (Str "https://www.trulia.com/LOS_ANGELES/") eq_refl).
Defined.

Example null_location_throws :
  initialUrl (SR := asciiStrings) (Obj [("location", Null)]) = Throw TypeError.
Proof. reflexivity. Qed.

Example surrogate_location_throws :
  initialUrl (SR := asciiStrings) (Obj [("location", Str loneLowSurrogate)])
  = Throw URIError.
Proof. reflexivity. Qed.

(* ================================================================== *)
(** ** The two planners on a first page *)
(* ================================================================== *)

Lemma string_app_assoc (a b c : string) :
  ((a ++ b) ++ c = a ++ (b ++ c))%string.
Proof. induction a as [|x a IH]; simpl; [|rewrite IH]; reflexivity. Qed.

Lemma string_of_list_app (a b : list ascii) :
  string_of_list_ascii (a ++ b)
  = (string_of_list_ascii a ++ string_of_list_ascii b)%string.
Proof. induction a as [|x a IH]; simpl; [|rewrite IH]; reflexivity. Qed.

Lemma includes_part (x n y h : string) :
  includes (x ++ n ++ y) h = true -> includes n h = true.
Proof.
  intros H. apply includes_spec in H. destruct H as (a & b & ->).
  apply includes_spec. exists (a ++ x)%string, (y ++ b)%string.
  rewrite !string_app_assoc. reflexivity.
Qed.

Lemma rev_has_p (path : string) (pre t : list ascii) :
  rev (list_ascii_of_string path) = pre ++ "p"%char :: "_"%char :: t ->
  includes "_p" path = true.
Proof.
  intros H. apply (f_equal (@rev ascii)) in H.
  rewrite rev_involutive, rev_app_distr in H. simpl in H.
  apply includes_spec.
  exists (string_of_list_ascii (rev t)), (string_of_list_ascii (rev pre)).
  rewrite <- (string_of_list_ascii_of_string path), H.
  rewrite <- !app_assoc, !string_of_list_app. reflexivity.
Qed.

Lemma stripPageSegment_no_p (path : string) :
  includes "_p" path = false -> stripPageSegment path = path.
Proof.
  intros N. unfold stripPageSegment.
  destruct (rev (list_ascii_of_string path)) as [|c t0] eqn:R;
    [reflexivity|].
  assert (K : forall pre t,
            c :: t0 = pre ++ "p"%char :: "_"%char :: t -> False).
  { intros pre t E. rewrite E in R. apply rev_has_p in R. congruence. }
  destruct (Ascii.eqb c "/") eqn:C.
  - apply Ascii.eqb_eq in C. subst c.
    destruct t0 as [|p [|u t]]; try reflexivity.
    destruct (Ascii.eqb p "p" && Ascii.eqb u "_") eqn:P; [|reflexivity].
    apply andb_prop in P. destruct P as [P1 P2].
    apply Ascii.eqb_eq in P1, P2. subst.
    exfalso. exact (K ["/"%char] t eq_refl).
  - destruct t0 as [|u t]; try reflexivity.
    destruct (Ascii.eqb c "p" && Ascii.eqb u "_") eqn:P; [|reflexivity].
    apply andb_prop in P. destruct P as [P1 P2].
    apply Ascii.eqb_eq in P1, P2. subst.
    exfalso. exact (K [] t eq_refl).
Qed.

Lemma dropTrailingSlash_slash (p : string) :
  (dropTrailingSlash p ++ "/")%string
  = if endsWithSlash p then p else (p ++ "/")%string.
Proof.
  induction p as [|c p IH]; [reflexivity|].
  destruct p as [|d p].
  - simpl. destruct (Ascii.eqb c "/") eqn:C; [|reflexivity].
    apply Ascii.eqb_eq in C. subst. reflexivity.
  - change (dropTrailingSlash (String c (String d p)))
      with (String c (dropTrailingSlash (String d p))).
    change (endsWithSlash (String c (String d p)))
      with (endsWithSlash (String d p)).
    cbn [append]. cbn [append] in IH. rewrite IH.
    destruct (endsWithSlash (String d p)); reflexivity.
Qed.

(** X18. On a URL that parses and whose path has no [_p] in it, the planner
    of the older file, without a next-page link, and the planner of
    src/main.js return the same URL, for every page number. *)
Theorem planners_agree {RT : JsRuntime} (currentUrl : string) (url : URL)
  (currentPage : nat) :
  URL_parse currentUrl = Some url ->
  includes "_p" (pathname url) = false ->
  findNextPage None currentUrl currentPage
  = buildNextPageUrl currentUrl currentPage.
Proof.
  intros P N.
  assert (N1 : includes ("/" ++ decimal currentPage ++ "_p/") (pathname url)
               = false).
  { destruct (includes ("/" ++ decimal currentPage ++ "_p/") (pathname url))
      eqn:I; [|reflexivity].
    apply (includes_part ("/" ++ decimal currentPage) "_p" "/") in I.
    congruence. }
  assert (N2 : includes "_p/" (pathname url) = false).
  { destruct (includes "_p/" (pathname url)) eqn:I; [|reflexivity].
    apply (includes_part EmptyString "_p" "/") in I; congruence. }
  unfold findNextPage, pageCounterUrl, buildNextPageUrl,
    buildNextPageUrl_body, newURL, try_catch.
  rewrite P. cbn [bind]. rewrite N1, N2. cbn [negb].
  rewrite (stripPageSegment_no_p _ N). do 3 f_equal.
  rewrite <- dropTrailingSlash_slash, !string_app_assoc. reflexivity.
Qed.

Lemma planners_agree_witness :
  URL_parse (JsRuntime := plainRuntime) "https://www.trulia.com/NY/?sort=new"
  = Some {| url_prefix := "https://www.trulia.com"; pathname := "/NY/";
            url_suffix := "?sort=new" |}
  /\ findNextPage (RT := plainRuntime) None
       "https://www.trulia.com/NY/?sort=new" 1
     = Ret (Some "https://www.trulia.com/NY/2_p/?sort=new")
  /\ findNextPage (RT := plainRuntime) None
       "https://www.trulia.com/NY/?sort=new" 1
     = buildNextPageUrl (RT := plainRuntime)
         "https://www.trulia.com/NY/?sort=new" 1.
Proof.
  split; [reflexivity|]. split; [reflexivity|].
  exact (planners_agree (RT := plainRuntime)
           "https://www.trulia.com/NY/?sort=new" _ 1 eq_refl eq_refl).
Defined.

(** Where they part: a page segment without its final slash is replaced by
    the planner of src/main.js and kept by the older one. *)
Example planners_part :
  buildNextPageUrl (RT := plainRuntime) "https://www.trulia.com/NY/2_p" 2
  = Ret (Some "https://www.trulia.com/NY/3_p/")
  /\ findNextPage (RT := plainRuntime) None "https://www.trulia.com/NY/2_p" 2
     = Ret (Some "https://www.trulia.com/NY/2_p/3_p/").
Proof. split; reflexivity. Qed.
